(** * Doorway property management: ownership graph, access control,
      weighted statistics and lease-tenancy validation

    A shallow embedding of the server core of the application
    ([server/storage.ts], [server/routes.ts], [server/auth.ts] and the table
    definitions of [shared/schema.ts]) together with the properties that
    its specification states about it.

    Modelling conventions.
    - A database table is the list of its rows, in table order.
    - A [varchar] id is a [string]; a nullable column is an [option].
    - A [decimal(p, 2)] column is the integer count of its hundredths.
    - A JavaScript number is an IEEE 754 double, Rocq's primitive [float]:
      [+], [*], [/] and [<] are the operations of binary64, rounding to
      nearest with ties to even.  Module [Double] adds the built-ins that
      the code calls on numbers ([parseFloat], [Math.round], [toString],
      [toFixed]) and the rounding of a [numeric(p, 2)] column.
    - The list of rows of a table is the order in which a scan returns
      them, and [ORDER BY] is a stable sort of that list.  PostgreSQL
      leaves the order of rows with equal keys open; what is proved below
      rests on the membership of a sorted result and on the order of rows
      with different keys only.
    - A [Date] is its [getTime()] value, the milliseconds since the epoch.
    - An [async] method that can throw returns a sum; recursion that the
      source does not bound carries an explicit call-depth budget and
      returns [None] when the budget is exhausted. *)

From Stdlib Require Import ZArith QArith Qround String List Lia.
From Stdlib Require Import Floats.
From stdpp Require Import base option list gmap sets strings pretty sorting.

#[local] Set Warnings "-clear-no-such-hyp,-inexact-float".

Close Scope Q_scope.
Open Scope string_scope.
Open Scope Z_scope.

(** ** Numbers *)

(** A [decimal(_, 2)] column value, as its number of hundredths. *)
Definition Decimal2 := Z.

(** The built-ins of JavaScript on numbers, on binary64.  A finite double
    is read through [Prim2SF] as sign, mantissa [m] and exponent [e]: its
    magnitude is [m * 2 ^ e]. *)
Module Double.

(** The double nearest to the integer [z]. *)
Definition ofZ (z : Z) : float :=
  SF2Prim (binary_normalize prec emax z 0 false).

(** The double nearest to the quotient of two integers. *)
Definition ofRatio (n : Z) (d : positive) : float :=
  match n with
  | 0 => 0%float
  | Z.pos p =>
      SF2Prim (SFdiv prec emax (S754_finite false p 0) (S754_finite false d 0))
  | Z.neg p =>
      SF2Prim (SFdiv prec emax (S754_finite true p 0) (S754_finite false d 0))
  end.

(** [parseFloat] of the text of a [decimal(_, 2)] value: the double
    nearest to the decimal number. *)
Definition parseFloat (d : Decimal2) : float := ofRatio d 100.

(** [x > y] *)
Definition gtb (x y : float) : bool := PrimFloat.ltb y x.

(** [!x] on a number: 0, -0 and NaN are falsy. *)
Definition falsy (x : float) : bool :=
  match Prim2SF x with
  | S754_zero _ | S754_nan => true
  | _ => false
  end.

(** [parseFloat(x)] on a number reads the text [x.toString()] back: the
    number itself, except that -0 prints as "0". *)
Definition parseFloat_number (x : float) : float :=
  match Prim2SF x with
  | S754_zero true => 0%float
  | _ => x
  end.

(** [Math.round]: the integer nearest to the exact value of the double,
    halves towards plus infinity; a result of 0 keeps the sign. *)
Definition Math_round (x : float) : float :=
  match Prim2SF x with
  | S754_finite s m e =>
      if 0 <=? e then x
      else
        let d := 2 ^ (- e) in
        let n := ((if s then Z.neg m else Z.pos m) * 2 + d) / (2 * d) in
        if n =? 0 then (if s then (-0)%float else 0%float) else ofZ n
  | _ => x
  end.

(** [10 ^ c ≤ m * 2 ^ e] *)
Definition reaches (m : positive) (e c : Z) : bool :=
  10 ^ Z.max c 0 * 2 ^ Z.max (- e) 0
  <=? Z.pos m * 2 ^ Z.max e 0 * 10 ^ Z.max (- c) 0.

Fixpoint magnitude (fuel : nat) (m : positive) (e c : Z) : Z :=
  match fuel with
  | O => c
  | S fuel' => if reaches m e c then c else magnitude fuel' m e (c - 1)
  end.

(** The [n] with [10 ^ (n - 1) ≤ m * 2 ^ e < 10 ^ n], searched downwards
    from an estimate by the binary logarithm that is at most two too
    high. *)
Definition decimalExponent (m : positive) (e : Z) : Z :=
  magnitude 4 m e ((Z.log2 (Z.pos m) + e) * 30103 / 100000 + 2) + 1.

(** The double nearest to [s * 10 ^ p]. *)
Definition ofDecimal (s : positive) (p : Z) : spec_float :=
  if 0 <=? p then binary_normalize prec emax (Z.pos s * 10 ^ p) 0 false
  else SFdiv prec emax (S754_finite false s 0)
         (S754_finite false (Z.to_pos (10 ^ (- p))) 0).

Definition readsBack (m : positive) (e : Z) (s p : Z) : bool :=
  match s with
  | Z.pos s => SFeqb (ofDecimal s p) (S754_finite false m e)
  | _ => false
  end.

(** The digits of [Number::toString]: the least [k] for which an integer
    [s] of [k] digits has [s * 10 ^ (n - k)] read back as the number,
    and of the two candidates, the multiples of [10 ^ (n - k)] below and
    above the number, the one nearer to it, the even one at a tie.  The
    upper candidate may be the next power of ten, which has one digit
    less and the next [n].  The result is [(s, k, n)]. *)
Fixpoint shortest (fuel : nat) (k : Z) (m : positive) (e n : Z) : Z * Z * Z :=
  let p := n - k in
  let N := Z.pos m * 2 ^ Z.max e 0 * 10 ^ Z.max (- p) 0 in
  let D := 2 ^ Z.max (- e) 0 * 10 ^ Z.max p 0 in
  let lo := N / D in
  let r := N mod D in
  let hi := lo + 1 in
  let lo_ok := readsBack m e lo p in
  let hi_ok := negb (r =? 0) && readsBack m e hi p in
  let upper := if hi =? 10 ^ k then (10 ^ (k - 1), k, n + 1) else (hi, k, n) in
  if lo_ok && hi_ok then
    if 2 * r <? D then (lo, k, n)
    else if D <? 2 * r then upper
    else if Z.even lo then (lo, k, n) else upper
  else if lo_ok then (lo, k, n)
  else if hi_ok then upper
  else
    match fuel with
    | O => (lo, k, n)
    | S fuel' => shortest fuel' (k + 1) m e n
    end.

(** Seventeen digits always read back. *)
Definition digits (m : positive) (e : Z) : Z * Z * Z :=
  shortest 16 1 m e (decimalExponent m e).

Definition zeros (n : Z) : string :=
  String.concat "" (replicate (Z.to_nat n) "0").

(** [x.toString()], [Number::toString] of ECMA-262 in radix 10. *)
Definition toString (x : float) : string :=
  match Prim2SF x with
  | S754_nan => "NaN"
  | S754_zero _ => "0"
  | S754_infinity s => if s then "-Infinity" else "Infinity"
  | S754_finite sg m e =>
      let '(s, k, n) := digits m e in
      let d := pretty s in
      (if sg then "-" else "")
      +:+ (if (k <=? n) && (n <=? 21) then d +:+ zeros (n - k)
           else if (0 <? n) && (n <=? 21) then
             substring 0 (Z.to_nat n) d +:+ "."
             +:+ substring (Z.to_nat n) (Z.to_nat (k - n)) d
           else if (-6 <? n) && (n <=? 0) then "0." +:+ zeros (- n) +:+ d
           else
             let ex := n - 1 in
             let mantissa :=
               if k =? 1 then d
               else substring 0 1 d +:+ "."
                    +:+ substring 1 (Z.to_nat (k - 1)) d in
             mantissa +:+ "e" +:+ (if ex <? 0 then "-" else "+")
             +:+ pretty (Z.abs ex))
  end.

(** [x.toFixed(1)]: the integer number of tenths nearest to the exact
    value, the larger one at a tie; from [10 ^ 21] on, [toString]. *)
Definition toFixed1 (x : float) : string :=
  match Prim2SF x with
  | S754_zero _ => "0.0"
  | S754_finite sg m e =>
      if reaches m e 21 then toString x
      else
        let N := Z.pos m * 2 ^ Z.max e 0 * 10 in
        let D := 2 ^ Z.max (- e) 0 in
        let n := (2 * N + D) / (2 * D) in
        (if sg then "-" else "")
        +:+ pretty (n / 10) +:+ "." +:+ pretty (n mod 10)
  | _ => toString x
  end.

(** The value that a [numeric(precision, 2)] column keeps of the text
    [x.toString()]: the decimal number of the text rounded to two
    fraction digits, ties away from zero.  [None] is the error "numeric
    field overflow", also raised for an infinity; NaN, which no JSON
    body carries, is not a value of the model and is refused too. *)
Definition toNumeric (precision : Z) (x : float) : option Decimal2 :=
  match Prim2SF x with
  | S754_zero _ => Some 0
  | S754_finite sg m e =>
      let '(s, k, n) := digits m e in
      let p := n - k + 2 in
      let h :=
        if 0 <=? p then s * 10 ^ p
        else (2 * s + 10 ^ (- p)) / (2 * 10 ^ (- p)) in
      if h <? 10 ^ precision then Some (if sg then - h else h) else None
  | _ => None
  end.

End Double.

(** [Math.round(x * 100) / 100] *)
Definition round2 (x : float) : float :=
  (Double.Math_round (x * 100) / 100)%float.

(** ** Tables of [shared/schema.ts] *)

Inductive Role := admin | user | broker.
Inductive ViewMode := total | weighted.

#[global] Instance Role_eq_dec : EqDecision Role.
Proof. solve_decision. Defined.
#[global] Instance ViewMode_eq_dec : EqDecision ViewMode.
Proof. solve_decision. Defined.

Module User.
Record t := mk {
  id : string;
  organizationId : string;
  role : Role;
  assignedCompanyId : option string;
  dashboardViewMode : ViewMode;
}.
End User.

Module Company.
Record t := mk {
  id : string;
  organizationId : string;
}.
End Company.

Module CompanyRelation.
Record t := mk {
  id : string;
  parentCompanyId : string;
  childCompanyId : string;
  ownershipPercentage : Decimal2;
}.
End CompanyRelation.

(** A row of [companyRelations INNER JOIN companies], as drizzle returns
    it: one object per joined table, keyed by the table name. *)
Record RelationRow := {
  company_relations : CompanyRelation.t;
  companies_row : Company.t;
}.

Module Property.
Record t := mk {
  id : string;
  organizationId : string;
  ownerCompanyId : option string;
  acquisitionPrice : Decimal2;
  acquisitionDate : option Z;
  createdAt : option Z;
}.
End Property.

Module Lease.
Record t := mk {
  id : string;
  propertyId : string;
  organizationId : string;
  totalArea : Z;
}.
End Lease.

Module LeaseTenant.
Record t := mk {
  id : string;
  leaseId : string;
  tenantId : string;
  organizationId : string;
  periodStart : Z;
  periodEnd : option Z;
}.
End LeaseTenant.

#[global] Instance Company_eq_dec : EqDecision Company.t.
Proof. solve_decision. Defined.
#[global] Instance CompanyRelation_eq_dec : EqDecision CompanyRelation.t.
Proof. solve_decision. Defined.
#[global] Instance Property_eq_dec : EqDecision Property.t.
Proof. solve_decision. Defined.
#[global] Instance Lease_eq_dec : EqDecision Lease.t.
Proof. solve_decision. Defined.

(** The database: one list of rows per table. *)
Record Database := {
  users : list User.t;
  companies : list Company.t;
  companyRelations : list CompanyRelation.t;
  properties : list Property.t;
  leases : list Lease.t;
  leaseTenants : list LeaseTenant.t;
}.

(** ** Query helpers *)

(** JavaScript truthiness of a nullable string: [null], [undefined] and
    the empty string are falsy. *)
Definition truthy (s : option string) : bool :=
  match s with
  | None => false
  | Some v => negb (String.eqb v "")
  end.

(** [inArray(column, values)] on a nullable column: SQL [IN] is never
    true of [NULL]. *)
Definition inArray (column : option string) (values : list string) : bool :=
  match column with
  | None => false
  | Some v => bool_decide (v ∈ values)
  end.

(** Stable sort by descending key: [before x y] tells that [x] may stay in
    front of a later row [y]. *)
Fixpoint insert_sorted {A} (before : A → A → bool) (x : A) (l : list A)
    : list A :=
  match l with
  | [] => [x]
  | y :: l' => if before x y then x :: l else y :: insert_sorted before x l'
  end.

Definition sort_stable {A} (before : A → A → bool) (l : list A) : list A :=
  foldr (insert_sorted before) [] l.

(** [ORDER BY column DESC] of PostgreSQL: [NULL] sorts first.  Rows with
    equal keys stay in table order here, where PostgreSQL may return
    them in any order; when no two rows share a key nothing is left
    open (lemma [orderBy_desc_unique]). *)
Definition desc_key (a b : option Z) : bool :=
  match a, b with
  | None, _ => true
  | Some _, None => false
  | Some x, Some y => y <=? x
  end.

Definition orderBy_desc {A} (column : A → option Z) (rows : list A) : list A :=
  sort_stable (λ a b, desc_key (column a) (column b)) rows.

(** ** Storage: users, companies and relations *)

Definition getUser (db : Database) (id : string) : option User.t :=
  head (filter (λ u, User.id u = id) (users db)).

Definition getCompany (db : Database) (id organizationId : string)
    : option Company.t :=
  head (filter (λ c, Company.id c = id ∧ Company.organizationId c = organizationId)
          (companies db)).

Definition getParentRelations (db : Database) (companyId : string)
    : list CompanyRelation.t :=
  filter (λ r, CompanyRelation.childCompanyId r = companyId)
    (companyRelations db).

Definition getChildRelations (db : Database) (companyId : string)
    : list CompanyRelation.t :=
  filter (λ r, CompanyRelation.parentCompanyId r = companyId)
    (companyRelations db).

(** ** Algorithm A: [getAccessibleCompanyIds] *)

(** The two sets that the closure [traverseOwnership] captures and
    mutates.  [accessibleCompanies] keeps insertion order, which is the
    order of [Array.from]; [childQueries] is a ghost log of the companies
    whose child relations were fetched, one entry per execution of the
    body past the visited check. *)
Record Traversal := {
  visitedCompanies : gset string;
  accessibleCompanies : list string;
  childQueries : list string;
}.

Definition Set_add (x : string) (s : list string) : list string :=
  if bool_decide (x ∈ s) then s else s ++ [x].

(** [depth] is the number of nested calls still available; the source
    recursion is unbounded and is cut only by the visited set. *)
Fixpoint traverseOwnership (depth : nat) (db : Database)
    (currentCompanyId : string) (currentOwnership : float) (st : Traversal)
    : option Traversal :=
  if bool_decide (currentCompanyId ∈ visitedCompanies st) then Some st
  else
    let accessible :=
      if Double.gtb currentOwnership 0
      then Set_add currentCompanyId (accessibleCompanies st)
      else accessibleCompanies st in
    let st1 :=
      {| visitedCompanies := {[currentCompanyId]} ∪ visitedCompanies st;
         accessibleCompanies := accessible;
         childQueries := childQueries st ++ [currentCompanyId] |} in
    let childRelations := getChildRelations db currentCompanyId in
    foldl (λ (acc : option Traversal) relation,
        st' ← acc;
        let childOwnership :=
          (currentOwnership
           * Double.parseFloat (CompanyRelation.ownershipPercentage relation)
           / 100)%float in
        match depth with
        | O => None
        | S depth' =>
            traverseOwnership depth' db
              (CompanyRelation.childCompanyId relation) childOwnership st'
        end)
      (Some st1) childRelations.

Definition emptyTraversal : Traversal :=
  {| visitedCompanies := ∅; accessibleCompanies := []; childQueries := [] |}.

(** A call depth that always suffices: one level per relation row plus
    the root call (lemma [traverseOwnership_terminates]). *)
Definition traversalDepth (db : Database) : nat :=
  S (length (companyRelations db)).

Definition runTraversal (db : Database) (companyId : string)
    : option Traversal :=
  traverseOwnership (traversalDepth db) db companyId 100%float emptyTraversal.

Definition getAccessibleCompanyIds (db : Database) (companyId : string)
    : option (list string) :=
  accessibleCompanies <$> runTraversal db companyId.

(** ** Storage: property and lease listings *)

Definition getProperties (db : Database) (organizationId : string)
    (userId : option string) : option (list Property.t) :=
  if negb (truthy userId) then
    Some (orderBy_desc Property.createdAt
            (filter (λ p, Property.organizationId p = organizationId)
               (properties db)))
  else
    match userId ≫= getUser db with
    | None => Some []
    | Some u =>
        if negb (truthy (User.assignedCompanyId u)) then Some []
        else
          accessibleCompanyIds ←
            getAccessibleCompanyIds db (default "" (User.assignedCompanyId u));
          if bool_decide (length accessibleCompanyIds = 0%nat) then Some []
          else
            Some (orderBy_desc Property.createdAt
                    (filter (λ p, Property.organizationId p = organizationId
                                  ∧ inArray (Property.ownerCompanyId p)
                                      accessibleCompanyIds)
                       (properties db)))
    end.

(** [leases INNER JOIN properties ON leases.propertyId = properties.id]. *)
Definition leases_join_properties (db : Database)
    : list (Lease.t * Property.t) :=
  l ← leases db;
  p ← filter (λ p, Property.id p = Lease.propertyId l) (properties db);
  [(l, p)].

Definition getLeases (db : Database) (organizationId : string)
    (userId : option string) : option (list (Lease.t * Property.t)) :=
  if negb (truthy userId) then
    Some (filter (λ lp, Lease.organizationId lp.1 = organizationId)
            (leases_join_properties db))
  else
    match userId ≫= getUser db with
    | None => Some []
    | Some u =>
        if negb (truthy (User.assignedCompanyId u)) then Some []
        else
          accessibleCompanyIds ←
            getAccessibleCompanyIds db (default "" (User.assignedCompanyId u));
          if bool_decide (length accessibleCompanyIds = 0%nat) then Some []
          else
            Some (filter (λ lp, Lease.organizationId lp.1 = organizationId
                                ∧ inArray (Property.ownerCompanyId lp.2)
                                    accessibleCompanyIds)
                    (leases_join_properties db))
    end.

(** ** Routes: sessions and listings *)

(** What a handler sends: [res.json(body)], or
    [res.status(code).json({ message })]. *)
Inductive Response (A : Type) :=
  | json (body : A)
  | status (code : Z) (message : string).
Arguments json {A} body.
Arguments status {A} code message.

(** The message of the [RangeError] that the engine raises when the call
    stack is exhausted; handlers forward it from their [catch] block. *)
Definition stackOverflow : string := "Maximum call stack size exceeded".

(** [getCurrentUser(req)], with the session reduced to its [userId]. *)
Definition getCurrentUser (db : Database) (session : option string)
    : option User.t :=
  if negb (truthy session) then None else session ≫= getUser db.

(** [requireAuth] followed by the handler's own [getCurrentUser] check. *)
Definition withUser {A} (db : Database) (session : option string)
    (handler : User.t → Response A) : Response A :=
  if negb (truthy session) then status 401 "Ikke autoriseret"
  else
    match getCurrentUser db session with
    | None => status 401 "Ikke autoriseret"
    | Some u => handler u
    end.

(** Admins and brokers list the whole organization; a regular user is
    filtered by ownership. *)
Definition listingUserId (u : User.t) : option string :=
  if bool_decide (User.role u = admin ∨ User.role u = broker)
  then None else Some (User.id u).

(** [GET /api/properties] *)
Definition GET_api_properties (db : Database) (session : option string)
    : Response (list Property.t) :=
  withUser db session (λ u,
    match getProperties db (User.organizationId u) (listingUserId u) with
    | Some properties => json properties
    | None => status 500 stackOverflow
    end).

(** [GET /api/leases] *)
Definition GET_api_leases (db : Database) (session : option string)
    : Response (list (Lease.t * Property.t)) :=
  withUser db session (λ u,
    match getLeases db (User.organizationId u) (listingUserId u) with
    | Some leases => json leases
    | None => status 500 stackOverflow
    end).

(** ** Algorithm B: [calculateOwnershipFromRoot] *)

(** The method recurses without any cycle protection; [depth] is the
    number of nested calls still available below this one.  A call that
    needs no nested call succeeds at every depth. *)
Fixpoint calculateOwnershipFromRoot (depth : nat)
    (rootCompanyId targetCompanyId : string)
    (relations : list RelationRow) : option float :=
  if String.eqb rootCompanyId targetCompanyId then Some 1%float
  else
    let directRelations :=
      filter (λ r, CompanyRelation.parentCompanyId (company_relations r)
                   = rootCompanyId) relations in
    foldl (λ (acc : option float) relation,
        totalOwnership ← acc;
        let childCompanyId :=
          CompanyRelation.childCompanyId (company_relations relation) in
        let directPercentage :=
          (Double.parseFloat (CompanyRelation.ownershipPercentage
                                (company_relations relation)) / 100)%float in
        if String.eqb childCompanyId targetCompanyId
        then Some (totalOwnership + directPercentage)%float
        else
          match depth with
          | O => None
          | S depth' =>
              indirectOwnership ←
                calculateOwnershipFromRoot depth' childCompanyId
                  targetCompanyId relations;
              Some (totalOwnership + directPercentage * indirectOwnership)%float
          end)
      (Some 0%float) directRelations.

(** Scenario data: companies and ownership edges of one organization. *)
Definition company (i : string) : Company.t := Company.mk i "org".

Definition edge (i p c : string) (pct : Decimal2) : RelationRow :=
  {| company_relations := CompanyRelation.mk i p c pct;
     companies_row := company p |}.

(** A owns 60% of B, B owns 50% of C. *)
Definition scenario1 : list RelationRow :=
  [edge "r1" "A" "B" 6000; edge "r2" "B" "C" 5000].

(** A owns 60% of C directly and 40% of B, which owns 100% of C. *)
Definition scenario2 : list RelationRow :=
  [edge "r1" "A" "C" 6000; edge "r2" "A" "B" 4000; edge "r3" "B" "C" 10000].

(** ** Lease tenancies: [createLeaseTenant] *)

(** Days from 1970-01-01 to a civil date of the proleptic Gregorian
    calendar. *)
Definition daysFromCivil (y m d : Z) : Z :=
  let y' := if m <=? 2 then y - 1 else y in
  let era := y' / 400 in
  let yoe := y' - era * 400 in
  let mp := (m + 9) mod 12 in
  let doy := (153 * mp + 2) / 5 + d - 1 in
  let doe := yoe * 365 + yoe / 4 - yoe / 100 + doy in
  era * 146097 + doe - 719468.

(** [new Date('YYYY-MM-DD').getTime()]: midnight UTC of that day. *)
Definition dateUTC (y m d : Z) : Z := daysFromCivil y m d * 86400000.

(** [new Date('2099-12-31')], the stand-in for a missing end date. *)
Definition endOfTime : Z := dateUTC 2099 12 31.

(** The validated request body plus the caller's organization. *)
Module InsertLeaseTenant.
Record t := mk {
  leaseId : string;
  tenantId : string;
  organizationId : string;
  periodStart : Z;
  periodEnd : option Z;
}.
End InsertLeaseTenant.

Definition overlapMessage : string :=
  "Lejeperioden overlapper med en eksisterende kontrakt".
Definition activeMessage : string :=
  "Der er allerede en aktiv lejer for dette lejemål".

(** The first loop of [createLeaseTenant]: throws at the first existing
    record that overlaps. *)
Fixpoint checkOverlap (newStart : Z) (newEnd : option Z)
    (existingTenants : list LeaseTenant.t) : string + unit :=
  match existingTenants with
  | [] => inr ()
  | existing :: rest =>
      let existingStart := LeaseTenant.periodStart existing in
      let existingEnd := LeaseTenant.periodEnd existing in
      let startOverlap := newStart <=? default endOfTime existingEnd in
      let endOverlap := default endOfTime newEnd >=? existingStart in
      if startOverlap && endOverlap then inl overlapMessage
      else checkOverlap newStart newEnd rest
  end.

(** The test that both the candidate and the existing records go
    through in the second check: [start <= today && (!end || end >= today)]. *)
Definition isCurrent (today start : Z) (end_ : option Z) : bool :=
  (start <=? today) &&
  match end_ with
  | None => true
  | Some e => e >=? today
  end.

(** [today] is the value of [new Date()] at the call and [newId] the id
    that the database generates for the inserted row.  A thrown [Error]
    is the left injection of its message; nothing is written then. *)
Definition createLeaseTenant (db : Database) (today : Z) (newId : string)
    (leaseTenant : InsertLeaseTenant.t)
    : string + (Database * LeaseTenant.t) :=
  let existingTenants :=
    filter (λ e, LeaseTenant.leaseId e = InsertLeaseTenant.leaseId leaseTenant)
      (leaseTenants db) in
  let newStart := InsertLeaseTenant.periodStart leaseTenant in
  let newEnd := InsertLeaseTenant.periodEnd leaseTenant in
  match checkOverlap newStart newEnd existingTenants with
  | inl message => inl message
  | inr _ =>
      let isCurrentContract := isCurrent today newStart newEnd in
      let activeTenants :=
        filter (λ tenant, isCurrent today (LeaseTenant.periodStart tenant)
                            (LeaseTenant.periodEnd tenant))
          existingTenants in
      if isCurrentContract && (0 <? length activeTenants)%nat
      then inl activeMessage
      else
        let newLeaseTenant :=
          LeaseTenant.mk newId
            (InsertLeaseTenant.leaseId leaseTenant)
            (InsertLeaseTenant.tenantId leaseTenant)
            (InsertLeaseTenant.organizationId leaseTenant)
            newStart newEnd in
        inr ({| users := users db;
                companies := companies db;
                companyRelations := companyRelations db;
                properties := properties db;
                leases := leases db;
                leaseTenants := leaseTenants db ++ [newLeaseTenant] |},
             newLeaseTenant)
  end.

(** The overlap rule in the words of the specification, on the dates of
    a candidate: [start <= (existing.end or 2099-12-31)] and
    [(end or 2099-12-31) >= existing.start]. *)
Definition overlapsDates (newStart : Z) (newEnd : option Z)
    (existing : LeaseTenant.t) : Prop :=
  newStart ≤ default endOfTime (LeaseTenant.periodEnd existing) ∧
  default endOfTime newEnd >= LeaseTenant.periodStart existing.

Definition overlaps (candidate : InsertLeaseTenant.t) (existing : LeaseTenant.t)
    : Prop :=
  overlapsDates (InsertLeaseTenant.periodStart candidate)
    (InsertLeaseTenant.periodEnd candidate) existing.

(** A period contains the instant [today]. *)
Definition containsToday (today start : Z) (end_ : option Z) : Prop :=
  start ≤ today ∧ ∀ e, end_ = Some e → today ≤ e.

(** An ongoing tenancy since 2023-01-01 on lease L. *)
Definition ongoingTenancy : LeaseTenant.t :=
  LeaseTenant.mk "lt1" "L" "t1" "org" (dateUTC 2023 1 1) None.

Definition tenancyDb (existing : list LeaseTenant.t) : Database :=
  {| users := []; companies := []; companyRelations := []; properties := [];
     leases := [Lease.mk "L" "p" "org" 100]; leaseTenants := existing |}.

(** ** Dashboard statistics *)

Module LeaseStats.
Record t := mk {
  count : float;
  totalRentCapacity : string;
}.
End LeaseStats.

Module Stats.
Record t := mk {
  count : float;
  totalValue : string;
  latestProperty : option Property.t;
  leaseStats : LeaseStats.t;
}.
End Stats.

(** The text of a [decimal(_, 2)] value, as the driver returns it. *)
Definition decimalText (d : Decimal2) : string :=
  let cents := Z.abs d mod 100 in
  (if d <? 0 then "-" else "")
  +:+ pretty (Z.abs d / 100) +:+ "."
  +:+ (if cents <? 10 then "0" else "") +:+ pretty cents.

(** The total view: plain aggregation over the organization. *)
Definition getPropertyStats (db : Database) (organizationId : string)
    : option Stats.t :=
  let rows :=
    filter (λ p, Property.organizationId p = organizationId) (properties db) in
  let statsResult_count := Double.ofZ (Z.of_nat (length rows)) in
  let statsResult_totalValue :=
    match rows with
    | [] => None
    | _ => Some (decimalText (foldr Z.add 0 (Property.acquisitionPrice <$> rows)))
    end in
  let latestProperty := head (orderBy_desc Property.acquisitionDate rows) in
  allLeases ← getLeases db organizationId None;
  let leaseCount := Double.ofZ (Z.of_nat (length allLeases)) in
  let totalArea :=
    foldl (λ sum lease, (sum + Double.ofZ (Lease.totalArea lease.1))%float)
      0%float allLeases in
  Some (Stats.mk statsResult_count (default "0" statsResult_totalValue)
          latestProperty (LeaseStats.mk leaseCount (Double.toString totalArea))).

(** The rows that a left join with [companies] yields for one property:
    one per matching company, or one with a null company. *)
Definition joinRows (db : Database) (p : Property.t)
    : list (Property.t * option Company.t) :=
  match filter (λ c, Some (Company.id c) = Property.ownerCompanyId p)
          (companies db) with
  | [] => [(p, None)]
  | owners => (λ c, (p, Some c)) <$> owners
  end.

(** [properties LEFT JOIN companies ON ownerCompanyId = companies.id],
    restricted to the organization. *)
Definition properties_leftJoin_companies (db : Database)
    (organizationId : string) : list (Property.t * option Company.t) :=
  filter (λ p, Property.organizationId p = organizationId) (properties db)
  ≫= joinRows db.

(** [companyRelations INNER JOIN companies ON parentCompanyId =
    companies.id], restricted to the organization. *)
Definition relations_join_companies (db : Database) (organizationId : string)
    : list RelationRow :=
  r ← companyRelations db;
  c ← filter (λ c, Company.id c = CompanyRelation.parentCompanyId r
                   ∧ Company.organizationId c = organizationId)
        (companies db);
  [{| company_relations := r; companies_row := c |}].

(** First loop: the weighted count and the weighted value. *)
Definition weightedTotals (depth : nat) (rootCompanyId : string)
    (allRelations : list RelationRow)
    (allProperties : list (Property.t * option Company.t))
    : option (float * float) :=
  foldl (λ (acc : option (float * float)) row,
      acc ≫= λ totals,
      match row.2 with
      | None => Some totals
      | Some ownerCompany =>
          ownershipWeight ←
            calculateOwnershipFromRoot depth rootCompanyId
              (Company.id ownerCompany) allRelations;
          Some ((totals.1 + ownershipWeight)%float,
                (totals.2
                 + Double.parseFloat (Property.acquisitionPrice row.1)
                   * ownershipWeight)%float)
      end)
    (Some (0%float, 0%float)) allProperties.

(** Second loop: the first property, in sorted order, with a positive
    weight. *)
Fixpoint findLatest (depth : nat) (rootCompanyId : string)
    (allRelations : list RelationRow)
    (sortedProperties : list (Property.t * option Company.t))
    : option (option Property.t) :=
  match sortedProperties with
  | [] => Some None
  | (property, None) :: rest =>
      findLatest depth rootCompanyId allRelations rest
  | (property, Some ownerCompany) :: rest =>
      ownershipWeight ←
        calculateOwnershipFromRoot depth rootCompanyId
          (Company.id ownerCompany) allRelations;
      if Double.gtb ownershipWeight 0 then Some (Some property)
      else findLatest depth rootCompanyId allRelations rest
  end.

(** Third loop: the weighted lease count and the weighted area.  The
    area is an [integer] column, which [parseInt] of its text gives
    back. *)
Definition weightedLeaseTotals (depth : nat) (rootCompanyId : string)
    (allRelations : list RelationRow)
    (allProperties : list (Property.t * option Company.t))
    (allLeases : list (Lease.t * Property.t)) : option (float * float) :=
  foldl (λ (acc : option (float * float)) lease,
      acc ≫= λ totals,
      match head (filter (λ p, Property.id p.1 = Lease.propertyId lease.1)
                    allProperties) ≫= snd with
      | None => Some totals
      | Some ownerCompany =>
          ownershipWeight ←
            calculateOwnershipFromRoot depth rootCompanyId
              (Company.id ownerCompany) allRelations;
          if Double.gtb ownershipWeight 0
          then Some ((totals.1 + ownershipWeight)%float,
                     (totals.2
                      + Double.ofZ (Lease.totalArea lease.1)
                        * ownershipWeight)%float)
          else Some totals
      end)
    (Some (0%float, 0%float)) allLeases.

(** [Array.prototype.sort] with the comparator [dateB - dateA], a
    missing date counting as 0: stable, latest first, in place. *)
Definition sortByAcquisitionDate
    (rows : list (Property.t * option Company.t))
    : list (Property.t * option Company.t) :=
  sort_stable (λ a b, default 0 (Property.acquisitionDate b.1)
                      <=? default 0 (Property.acquisitionDate a.1)) rows.

(** The weighted view.  [depth] bounds the recursion of Algorithm B;
    [None] is the stack overflow that a cyclic graph provokes. *)
Definition calculateWeightedStats (depth : nat) (db : Database)
    (organizationId userId : string) : option Stats.t :=
  match getUser db userId with
  | None => getPropertyStats db organizationId
  | Some u =>
      if negb (truthy (User.assignedCompanyId u))
      then getPropertyStats db organizationId
      else
        let root := default "" (User.assignedCompanyId u) in
        let allProperties := properties_leftJoin_companies db organizationId in
        if bool_decide (length allProperties = 0%nat)
        then Some (Stats.mk 0%float "0" None (LeaseStats.mk 0%float "0"))
        else
          let allRelations := relations_join_companies db organizationId in
          totals ← weightedTotals depth root allRelations allProperties;
          let sortedProperties := sortByAcquisitionDate allProperties in
          latestProperty ← findLatest depth root allRelations sortedProperties;
          allLeases ← getLeases db organizationId (Some userId);
          leaseTotals ←
            weightedLeaseTotals depth root allRelations sortedProperties
              allLeases;
          Some (Stats.mk (round2 totals.1)
                  (Double.toString (Double.Math_round totals.2))
                  latestProperty
                  (LeaseStats.mk (round2 leaseTotals.1)
                     (Double.toString (Double.Math_round leaseTotals.2))))
  end.

(** [GET /api/dashboard/stats] *)
Definition GET_api_dashboard_stats (depth : nat) (db : Database)
    (session : option string) : Response Stats.t :=
  withUser db session (λ u,
    let isWeighted := bool_decide (User.dashboardViewMode u = weighted) in
    let stats :=
      if isWeighted
      then calculateWeightedStats depth db (User.organizationId u) (User.id u)
      else getPropertyStats db (User.organizationId u) in
    match stats with
    | Some stats => json stats
    | None => status 500 stackOverflow
    end).

(** ** Routes: company relations *)

(** [canWrite] of [server/auth.ts]. *)
Definition canWrite (u : User.t) : bool :=
  bool_decide (User.role u = admin ∨ User.role u = user).

(** A handler that may write: the response and the database after it. *)
Definition Outcome (A : Type) : Type := Response A * Database.

(** [requireWriteAccess]: [requireAuth], then the role check. *)
Definition withWriteAccess {A} (db : Database) (session : option string)
    (handler : User.t → Outcome A) : Outcome A :=
  if negb (truthy session) then (status 401 "Ikke autoriseret", db)
  else
    match getCurrentUser db session with
    | None => (status 403 "Kun læseadgang (Mægler)", db)
    | Some u =>
        if negb (canWrite u) then (status 403 "Kun læseadgang (Mægler)", db)
        else handler u
    end.

Definition setCompanyRelations (db : Database)
    (relations : list CompanyRelation.t) : Database :=
  {| users := users db;
     companies := companies db;
     companyRelations := relations;
     properties := properties db;
     leases := leases db;
     leaseTenants := leaseTenants db |}.

(** The message of the error that PostgreSQL raises for a value that
    does not fit the column. *)
Definition numericFieldOverflow : string := "numeric field overflow".

(** [createCompanyRelation]: the routes pass the percentage as the text
    [x.toString()] of a number, which stands for the text here; [newId]
    is the id that the database generates for the row.  [None] is the
    error of a value that does not fit [numeric(5, 2)]. *)
Definition createCompanyRelation (db : Database) (newId : string)
    (parentCompanyId childCompanyId : string) (ownershipPercentage : float)
    : option (CompanyRelation.t * Database) :=
  stored ← Double.toNumeric 5 ownershipPercentage;
  let newRelation :=
    CompanyRelation.mk newId parentCompanyId childCompanyId stored in
  Some (newRelation,
        setCompanyRelations db (companyRelations db ++ [newRelation])).

(** [UPDATE ... WHERE id = ... RETURNING *]: the first updated row, or
    [undefined] when no row has that id. *)
Definition updateCompanyRelation (db : Database) (id : string)
    (ownershipPercentage : float)
    : option (option CompanyRelation.t * Database) :=
  stored ← Double.toNumeric 5 ownershipPercentage;
  let update (r : CompanyRelation.t) :=
    if bool_decide (CompanyRelation.id r = id)
    then CompanyRelation.mk (CompanyRelation.id r)
           (CompanyRelation.parentCompanyId r)
           (CompanyRelation.childCompanyId r)
           stored
    else r in
  let updated := update <$> companyRelations db in
  Some (head (filter (λ r, CompanyRelation.id r = id) updated),
        setCompanyRelations db updated).

Definition deleteCompanyRelation (db : Database) (id : string) : Database :=
  setCompanyRelations db
    (filter (λ r, CompanyRelation.id r ≠ id) (companyRelations db)).

(** The body of [POST /api/company-relations], for the requests whose
    ids are JSON strings and whose [ownershipPercentage] is a JSON
    number; a key that is absent is [None].  A number of a JSON body is
    never NaN. *)
Record RelationBody := {
  body_parentCompanyId : option string;
  body_childCompanyId : option string;
  body_ownershipPercentage : option float;
}.

Definition percentageMessage : string :=
  "Ejerskabsprocent skal være mellem 0.01 og 100".

Definition exceedsMessage (newTotalPercentage currentTotalPercentage : float)
    : string :=
  "Den samlede ejerskabsprocent vil blive "
  +:+ Double.toFixed1 newTotalPercentage
  +:+ "%, hvilket overskrider 100%. Der er allerede "
  +:+ Double.toFixed1 currentTotalPercentage +:+ "% ejerskab registreret.".

(** The [reduce] of the create route over the relations into a company:
    the percentages are added as doubles, in table order. *)
Definition currentTotalPercentage (db : Database) (childCompanyId : string)
    : float :=
  foldl (λ sum rel,
           (sum + Double.parseFloat
                    (CompanyRelation.ownershipPercentage rel))%float)
    0%float (getParentRelations db childCompanyId).

(** [POST /api/company-relations] *)
Definition POST_api_company_relations (db : Database)
    (session : option string) (newId : string) (body : RelationBody)
    : Outcome CompanyRelation.t :=
  withWriteAccess db session (λ u,
    match body_parentCompanyId body, body_childCompanyId body,
          body_ownershipPercentage body with
    | Some parentCompanyId, Some childCompanyId, Some ownershipPercentage =>
        if negb (truthy (Some parentCompanyId))
           || negb (truthy (Some childCompanyId))
        then (status 400 "Manglende påkrævede felter", db)
        else if PrimFloat.ltb ownershipPercentage 0.01
                || Double.gtb ownershipPercentage 100
        then (status 400 percentageMessage, db)
        else
          match getCompany db parentCompanyId (User.organizationId u),
                getCompany db childCompanyId (User.organizationId u) with
          | Some _, Some _ =>
              let currentTotalPercentage :=
                currentTotalPercentage db childCompanyId in
              let newTotalPercentage :=
                (currentTotalPercentage
                 + Double.parseFloat_number ownershipPercentage)%float in
              if Double.gtb newTotalPercentage 100
              then (status 400
                      (exceedsMessage newTotalPercentage currentTotalPercentage),
                    db)
              else
                match createCompanyRelation db newId parentCompanyId
                        childCompanyId
                        (Double.parseFloat_number ownershipPercentage) with
                | Some (relation, db') => (json relation, db')
                | None => (status 400 numericFieldOverflow, db)
                end
          | _, _ => (status 404 "Selskab ikke fundet", db)
          end
    | _, _, _ => (status 400 "Manglende påkrævede felter", db)
    end).

(** [PUT /api/company-relations/:id], for a body whose
    [ownershipPercentage] is absent or a JSON number;
    [res.json(undefined)] is the body [None]. *)
Definition PUT_api_company_relations (db : Database)
    (session : option string) (id : string) (ownershipPercentage : option float)
    : Outcome (option CompanyRelation.t) :=
  withWriteAccess db session (λ u,
    match ownershipPercentage with
    | None => (status 400 percentageMessage, db)
    | Some pct =>
        if Double.falsy pct || PrimFloat.ltb pct 0.01 || Double.gtb pct 100
        then (status 400 percentageMessage, db)
        else
          match updateCompanyRelation db id pct with
          | Some (relation, db') => (json relation, db')
          | None => (status 400 numericFieldOverflow, db)
          end
    end).

(** [DELETE /api/company-relations/:id]; the body is [{ success: true }]. *)
Definition DELETE_api_company_relations (db : Database)
    (session : option string) (id : string) : Outcome bool :=
  withWriteAccess db session (λ _,
    (json true, deleteCompanyRelation db id)).

(** The sum of the incoming percentages of a company, in hundredths. *)
Definition sumHundredths (rows : list CompanyRelation.t) : Z :=
  foldr Z.add 0 (CompanyRelation.ownershipPercentage <$> rows).

Definition incomingTotal (db : Database) (childCompanyId : string) : Z :=
  sumHundredths (getParentRelations db childCompanyId).

(** The invariant of the ownership graph: at most 100.00 per company. *)
Definition ownershipBounded (db : Database) : Prop :=
  ∀ c, incomingTotal db c ≤ 10000.

(** The organization of a relation is that of its parent company, as in
    [getCompanyRelations]. *)
Definition relationOrganizations (db : Database) (r : CompanyRelation.t)
    : list string :=
  Company.organizationId
    <$> filter (λ c, Company.id c = CompanyRelation.parentCompanyId r)
          (companies db).

(** ** Users: creation and preferences *)

Module InsertUser.
Record t := mk {
  organizationId : string;
  role : option Role;
  assignedCompanyId : option string;
}.
End InsertUser.

Definition setUsers (db : Database) (rows : list User.t) : Database :=
  {| users := rows;
     companies := companies db;
     companyRelations := companyRelations db;
     properties := properties db;
     leases := leases db;
     leaseTenants := leaseTenants db |}.

(** [createUser]: the view mode is derived from the role; a missing role
    takes the column default ["user"]. *)
Definition createUser (db : Database) (newId : string)
    (insertUser : InsertUser.t) : User.t * Database :=
  let dashboardViewMode :=
    if bool_decide (InsertUser.role insertUser = Some admin)
    then total else weighted in
  let u :=
    User.mk newId (InsertUser.organizationId insertUser)
      (default user (InsertUser.role insertUser))
      (InsertUser.assignedCompanyId insertUser) dashboardViewMode in
  (u, setUsers db (users db ++ [u])).

Definition updateUserPreferences (db : Database) (userId : string)
    (dashboardViewMode : ViewMode) : option User.t * Database :=
  let update (u : User.t) :=
    if bool_decide (User.id u = userId)
    then User.mk (User.id u) (User.organizationId u) (User.role u)
           (User.assignedCompanyId u) dashboardViewMode
    else u in
  let updated := update <$> users db in
  (head (filter (λ u, User.id u = userId) updated), setUsers db updated).

(** [PUT /api/user/preferences]; the body field is any JSON string. *)
Definition PUT_api_user_preferences (db : Database) (session : option string)
    (dashboardViewMode : option string) : Outcome User.t :=
  if negb (truthy session) then (status 401 "Ikke autoriseret", db)
  else
    let mode :=
      match dashboardViewMode with
      | Some "total" => Some total
      | Some "weighted" => Some weighted
      | _ => None
      end in
    match mode with
    | None => (status 400 "Ugyldig visningsform", db)
    | Some mode =>
        match getCurrentUser db session with
        | None => (status 401 "Ikke autoriseret", db)
        | Some u =>
            match updateUserPreferences db (User.id u) mode with
            | (None, db') => (status 404 "Bruger ikke fundet", db')
            | (Some updatedUser, db') => (json updatedUser, db')
            end
        end
    end.

(** ** Scenario data *)

(** One organization with the chain A -60%-> B -50%-> C, an unrelated
    company D, a property of C (scenario 3 of the specification), a
    property without owner and a property of D, each with one lease. *)
Definition demoUser (i : string) (r : Role) (c : option string) (m : ViewMode)
    : User.t :=
  User.mk i "org" r c m.

Definition demoDb : Database :=
  {| users := [demoUser "u-admin" admin None total;
               demoUser "u-user" user (Some "A") weighted;
               demoUser "u-free" user None weighted;
               demoUser "u-broker" broker (Some "A") weighted];
     companies := [company "A"; company "B"; company "C"; company "D"];
     companyRelations := company_relations <$> scenario1;
     properties :=
       [Property.mk "p-C" "org" (Some "C") 100000000 (Some 1700000000000)
          (Some 1700000000000);
        Property.mk "p-none" "org" None 50000000 (Some 1710000000000)
          (Some 1710000000000);
        Property.mk "p-D" "org" (Some "D") 20000000 None
          (Some 1720000000000)];
     leases := [Lease.mk "l-C" "p-C" "org" 120;
                Lease.mk "l-none" "p-none" "org" 80;
                Lease.mk "l-D" "p-D" "org" 60];
     leaseTenants := [] |}.

(** A cyclic ownership graph: A owns 50% of B and B owns 50% of A. *)
Definition cyclicDb : Database :=
  {| users := [demoUser "u-user" user (Some "A") weighted];
     companies := [company "A"; company "B"];
     companyRelations := [CompanyRelation.mk "r1" "A" "B" 5000;
                          CompanyRelation.mk "r2" "B" "A" 5000];
     properties := []; leases := []; leaseTenants := [] |}.

(** Company C is owned 60% by A and 40% by B: the incoming total is
    exactly 100.00. *)
Definition boundDb : Database :=
  {| users := [demoUser "u-admin" admin None total];
     companies := [company "A"; company "B"; company "C"];
     companyRelations := [CompanyRelation.mk "r1" "A" "C" 6000;
                          CompanyRelation.mk "r2" "B" "C" 4000];
     properties := []; leases := []; leaseTenants := [] |}.

(** Two organizations; the only relation joins two companies of the
    second one, the only user administers the first one. *)
Definition crossOrgDb : Database :=
  {| users := [User.mk "u1" "org1" admin None total];
     companies := [Company.mk "A" "org1"; Company.mk "B" "org1";
                   Company.mk "X" "org2"; Company.mk "Y" "org2"];
     companyRelations := [CompanyRelation.mk "rX" "X" "Y" 5000];
     properties := []; leases := []; leaseTenants := [] |}.

(** ** Vocabulary of the weighted statistics *)

(** The properties of an organization that have an owning company,
    with the id of that company. *)
Definition ownedProperties (db : Database) (organizationId : string)
    : list (Property.t * string) :=
  p ← filter (λ p, Property.organizationId p = organizationId) (properties db);
  match Property.ownerCompanyId p with
  | Some c => [(p, c)]
  | None => []
  end.

(** Constraints of [shared/schema.ts]: [companies.id] is a primary key
    and [properties.ownerCompanyId] references it. *)
Definition companiesIntegrity (db : Database) : Prop :=
  NoDup (Company.id <$> companies db) ∧
  ∀ p c, p ∈ properties db → Property.ownerCompanyId p = Some c →
         c ∈ Company.id <$> companies db.

(** The ownership graph has no cycle: some ranking of the companies
    decreases along every edge. *)
Definition acyclicBy (rank : string → nat) (relations : list RelationRow)
    : Prop :=
  ∀ r, r ∈ relations →
       (rank (CompanyRelation.childCompanyId (company_relations r))
        < rank (CompanyRelation.parentCompanyId (company_relations r)))%nat.

(** The weight that Algorithm B assigns, 0 standing for no result. *)
Definition weightFromRootTo (depth : nat) (relations : list RelationRow)
    (root target : string) : float :=
  default 0%float (calculateOwnershipFromRoot depth root target relations).

(** A property of 100.50 owned by the company the user is assigned to. *)
Definition roundingDb : Database :=
  {| users := [demoUser "u" user (Some "A") weighted];
     companies := [company "A"];
     companyRelations := [];
     properties := [Property.mk "p" "org" (Some "A") 10050 None None];
     leases := []; leaseTenants := [] |}.

(** The ranking of the chain A -> B -> C of the demonstration data. *)
Definition demoRank (c : string) : nat :=
  if String.eqb c "A" then 2 else if String.eqb c "B" then 1 else 0.

(** ** Invariants of the traversal *)

(** Companies that a nested call can be entered on. *)
Definition ownedCompanies (db : Database) : gset string :=
  list_to_set (CompanyRelation.childCompanyId <$> companyRelations db).

(** The ghost log lists exactly the visited companies, each once. *)
Definition log_consistent (st : Traversal) : Prop :=
  NoDup (childQueries st) ∧
  ∀ c, c ∈ childQueries st ↔ c ∈ visitedCompanies st.

(** State growth along a traversal. *)
Definition extends (st st' : Traversal) : Prop :=
  visitedCompanies st ⊆ visitedCompanies st' ∧
  accessibleCompanies st ⊆ accessibleCompanies st'.

(** ** Reachability in the ownership graph *)

(** [a] owns a share of [b] directly. *)
Definition owns (db : Database) (a b : string) : Prop :=
  ∃ r, r ∈ companyRelations db ∧
       CompanyRelation.parentCompanyId r = a ∧
       CompanyRelation.childCompanyId r = b.

(** There is a chain of ownership edges from [root] down to [c]. *)
Definition reachableFrom (db : Database) (root c : string) : Prop :=
  rtc (owns db) root c.

(** Every stored percentage is positive, as both relation routes
    require (at least 0.01). *)
Definition positivePercentages (db : Database) : Prop :=
  ∀ r, r ∈ companyRelations db → 0 < CompanyRelation.ownershipPercentage r.

(** What holds of the two sets during a traversal from [root]. *)
Definition sound (db : Database) (root : string) (st : Traversal) : Prop :=
  (∀ v, v ∈ visitedCompanies st → reachableFrom db root v) ∧
  (∀ v, v ∈ accessibleCompanies st → v ∈ visitedCompanies st).

(** ** Vocabulary of Algorithm B *)

(** An ownership edge of a relation list, as Algorithm B reads it. *)
Definition ownsIn (relations : list RelationRow) (a b : string) : Prop :=
  ∃ r, r ∈ relations ∧
       CompanyRelation.parentCompanyId (company_relations r) = a ∧
       CompanyRelation.childCompanyId (company_relations r) = b.

(** A total to which nothing but products with such totals was added:
    0, or NaN when a factor was not finite. *)
Definition inert (w : float) : Prop :=
  Prim2SF w = S754_zero false ∨ Prim2SF w = S754_nan.

(** A set of companies that the target is not part of and that no
    company leaves without an edge back into it: a cycle, for
    instance. *)
Definition trapped (relations : list RelationRow) (target : string)
    (companies : string → Prop) : Prop :=
  ∀ a, companies a →
       a ≠ target ∧ ∃ b, companies b ∧ ownsIn relations a b.

(** ** Tenancy periods as an invariant of the table *)

(** Two stored tenancies overlap, a missing end read as 2099-12-31. *)
Definition overlapRows (a b : LeaseTenant.t) : Prop :=
  overlapsDates (LeaseTenant.periodStart a) (LeaseTenant.periodEnd a) b.

(** No two rows of one lease overlap. *)
Definition tenanciesDisjoint (rows : list LeaseTenant.t) : Prop :=
  ∀ (i j : nat) a b,
    i ≠ j → rows !! i = Some a → rows !! j = Some b →
    LeaseTenant.leaseId a = LeaseTenant.leaseId b →
    ¬ overlapRows a b.

(** The status that the lease page derives for a tenancy
    ([getStatusBadge] of [LeaseDetail.tsx]). *)
Inductive TenancyStatus := Kommende | Aktiv | Tidligere.

Definition getStatusBadge (now : Z) (tenant : LeaseTenant.t) : TenancyStatus :=
  let start := LeaseTenant.periodStart tenant in
  let end_ := LeaseTenant.periodEnd tenant in
  if start >? now then Kommende
  else if match end_ with
          | None => true
          | Some e => e >=? now
          end
  then Aktiv
  else Tidligere.

(** ** Users: administration routes *)

#[global] Instance User_eq_dec : EqDecision User.t.
Proof. solve_decision. Defined.

Definition getUsersInOrganization (db : Database) (organizationId : string)
    : list User.t :=
  filter (λ u, User.organizationId u = organizationId) (users db).

Definition userNotFound : string := "Bruger ikke fundet".

(** [deleteUser]: the organization is checked before the row is deleted. *)
Definition deleteUser (db : Database) (id organizationId : string)
    : string + Database :=
  match head (filter (λ u, User.id u = id) (users db)) with
  | None => inl userNotFound
  | Some u =>
      if bool_decide (User.organizationId u ≠ organizationId)
      then inl userNotFound
      else inr (setUsers db (filter (λ u, User.id u ≠ id) (users db)))
  end.

(** [updateUser] as the route calls it: [role] is written when the body
    has one, [assignedCompanyId] always. *)
Definition updateUser (db : Database) (id : string) (role : option Role)
    (assignedCompanyId : option string) : string + (User.t * Database) :=
  let update (u : User.t) :=
    if bool_decide (User.id u = id)
    then User.mk (User.id u) (User.organizationId u)
           (default (User.role u) role) assignedCompanyId
           (User.dashboardViewMode u)
    else u in
  let updated := update <$> users db in
  match head (filter (λ u, User.id u = id) updated) with
  | None => inl userNotFound
  | Some u => inr (u, setUsers db updated)
  end.

Definition adminCount (db : Database) (organizationId : string) : nat :=
  length (filter (λ u, User.role u = admin)
            (getUsersInOrganization db organizationId)).

(** [DELETE /api/users/:id] *)
Definition DELETE_api_users (db : Database) (session : option string)
    (targetUserId : string) : Outcome bool :=
  withWriteAccess db session (λ u,
    if bool_decide (User.role u ≠ admin)
    then (status 403 "Kun administratorer kan slette brugere", db)
    else if bool_decide (targetUserId = User.id u)
            && bool_decide (adminCount db (User.organizationId u) = 1%nat)
    then (status 400
            "Du kan ikke slette dig selv når du er den eneste administrator",
          db)
    else
      match deleteUser db targetUserId (User.organizationId u) with
      | inl message => (status 500 message, db)
      | inr db' => (json true, db')
      end).

(** [PUT /api/users/:id]; the body carries an optional role and an
    optional company. *)
Definition PUT_api_users (db : Database) (session : option string)
    (targetUserId : string) (role : option Role)
    (assignedCompanyId : option string) : Outcome User.t :=
  if negb (truthy session) then (status 401 "Ikke autoriseret", db)
  else
    match getCurrentUser db session with
    | None => (status 401 "Ikke autoriseret", db)
    | Some u =>
        if bool_decide (User.role u ≠ admin)
        then (status 403 "Kun administratorer kan redigere brugere", db)
        else if bool_decide (targetUserId = User.id u)
                && bool_decide (role = Some user)
                && bool_decide (adminCount db (User.organizationId u) = 1%nat)
        then (status 400
                "Du kan ikke ændre din egen rolle når du er den eneste administrator",
              db)
        else
          match updateUser db targetUserId role
                  (if truthy assignedCompanyId then assignedCompanyId
                   else None) with
          | inl message => (status 400 message, db)
          | inr (updatedUser, db') => (json updatedUser, db')
          end
    end.

(** The organization has an administrator. *)
Definition hasAdmin (db : Database) (organizationId : string) : Prop :=
  ∃ a, a ∈ users db ∧ User.role a = admin ∧
       User.organizationId a = organizationId.

(** ** Storage: single properties and companies *)

Definition propertyNotFound : string := "Property not found".
Definition companyNotFound : string := "Selskab ikke fundet".

Definition getProperty (db : Database) (id organizationId : string)
    : option Property.t :=
  match head (filter (λ p, Property.id p = id) (properties db)) with
  | Some property =>
      if bool_decide (Property.organizationId property = organizationId)
      then Some property else None
  | None => None
  end.

(** [GET /api/properties/:id] *)
Definition GET_api_properties_id (db : Database) (session : option string)
    (id : string) : Response Property.t :=
  withUser db session (λ u,
    match getProperty db id (User.organizationId u) with
    | None => status 404 "Ejendom ikke fundet"
    | Some property => json property
    end).

(** The value that a [decimal(_, 2)] column keeps of the decimal number
    of a text: two fraction digits, ties rounded up. *)
Definition toDecimal2 (x : Q) : Decimal2 := Qfloor (x * 100 + (1 # 2))%Q.

(** The modelled columns of a [Partial<InsertProperty>]: an absent key
    is [None], a key set to [null] is [Some None]; the price is the
    decimal number that its text denotes. *)
Record PropertyUpdates := {
  upd_ownerCompanyId : option (option string);
  upd_acquisitionPrice : option Q;
  upd_acquisitionDate : option (option Z);
}.

Definition setProperties (db : Database) (rows : list Property.t) : Database :=
  {| users := users db;
     companies := companies db;
     companyRelations := companyRelations db;
     properties := rows;
     leases := leases db;
     leaseTenants := leaseTenants db |}.

Definition applyPropertyUpdates (updates : PropertyUpdates) (p : Property.t)
    : Property.t :=
  Property.mk (Property.id p) (Property.organizationId p)
    (default (Property.ownerCompanyId p) (upd_ownerCompanyId updates))
    (default (Property.acquisitionPrice p)
       (toDecimal2 <$> upd_acquisitionPrice updates))
    (default (Property.acquisitionDate p) (upd_acquisitionDate updates))
    (Property.createdAt p).

(** [updateProperty]: the [UPDATE] is keyed by the id alone and runs
    first; the organization of the returned row is compared afterwards. *)
Definition updateProperty (db : Database) (id organizationId : string)
    (updates : PropertyUpdates) : (string + Property.t) * Database :=
  let update (p : Property.t) :=
    if bool_decide (Property.id p = id) then applyPropertyUpdates updates p
    else p in
  let updated := update <$> properties db in
  let db' := setProperties db updated in
  match head (filter (λ p, Property.id p = id) updated) with
  | Some property =>
      if bool_decide (Property.organizationId property ≠ organizationId)
      then (inl propertyNotFound, db')
      else (inr property, db')
  | None => (inl propertyNotFound, db')
  end.

(** [deleteProperty]: the organization is checked first.  Deleting the row
    takes its leases with it, and their tenancies ([onDelete: "cascade"]
    on [leases.propertyId] and [leaseTenants.leaseId]). *)
Definition deleteProperty (db : Database) (id organizationId : string)
    : string + Database :=
  match head (filter (λ p, Property.id p = id) (properties db)) with
  | None => inl propertyNotFound
  | Some property =>
      if bool_decide (Property.organizationId property ≠ organizationId)
      then inl propertyNotFound
      else
        let removedLeases :=
          Lease.id <$> filter (λ l, Lease.propertyId l = id) (leases db) in
        inr {| users := users db;
               companies := companies db;
               companyRelations := companyRelations db;
               properties := filter (λ p, Property.id p ≠ id) (properties db);
               leases := filter (λ l, Lease.propertyId l ≠ id) (leases db);
               leaseTenants :=
                 filter (λ t, LeaseTenant.leaseId t ∉ removedLeases)
                   (leaseTenants db) |}
  end.

(** [deleteCompany]: keyed by id and organization; no deleted row is an
    error.  The deletion removes the relations on either side of the
    company and nulls the references of users and properties
    ([onDelete: "cascade"] and [onDelete: "set null"] of the schema). *)
Definition deleteCompany (db : Database) (id organizationId : string)
    : string + Database :=
  let doomed (c : Company.t) :=
    Company.id c = id ∧ Company.organizationId c = organizationId in
  if bool_decide (length (filter doomed (companies db)) = 0%nat)
  then inl companyNotFound
  else
    let clear (reference : option string) :=
      if bool_decide (reference = Some id) then None else reference in
    inr {| users :=
             (λ u, User.mk (User.id u) (User.organizationId u) (User.role u)
                     (clear (User.assignedCompanyId u))
                     (User.dashboardViewMode u)) <$> users db;
           companies := filter (λ c, ¬ doomed c) (companies db);
           companyRelations :=
             filter (λ r, CompanyRelation.parentCompanyId r ≠ id
                          ∧ CompanyRelation.childCompanyId r ≠ id)
               (companyRelations db);
           properties :=
             (λ p, Property.mk (Property.id p) (Property.organizationId p)
                     (clear (Property.ownerCompanyId p))
                     (Property.acquisitionPrice p) (Property.acquisitionDate p)
                     (Property.createdAt p)) <$> properties db;
           leases := leases db;
           leaseTenants := leaseTenants db |}.

(** Foreign keys between properties, leases and tenancies. *)
Definition leasesIntegrity (db : Database) : Prop :=
  (∀ l, l ∈ leases db →
        Lease.propertyId l ∈ Property.id <$> properties db) ∧
  (∀ t, t ∈ leaseTenants db →
        LeaseTenant.leaseId t ∈ Lease.id <$> leases db).

(** [DELETE /api/properties/:id] *)
Definition DELETE_api_properties (db : Database) (session : option string)
    (id : string) : Outcome bool :=
  withWriteAccess db session (λ u,
    match deleteProperty db id (User.organizationId u) with
    | inl message => (status 500 message, db)
    | inr db' => (json true, db')
    end).

(** [DELETE /api/companies/:id] *)
Definition DELETE_api_companies (db : Database) (session : option string)
    (id : string) : Outcome bool :=
  withWriteAccess db session (λ u,
    match deleteCompany db id (User.organizationId u) with
    | inl message => (status 500 message, db)
    | inr db' => (json true, db')
    end).

(** No row refers to the company any more. *)
Definition unreferenced (db : Database) (id : string) : Prop :=
  (∀ r, r ∈ companyRelations db →
        CompanyRelation.parentCompanyId r ≠ id ∧
        CompanyRelation.childCompanyId r ≠ id) ∧
  (∀ u, u ∈ users db → User.assignedCompanyId u ≠ Some id) ∧
  (∀ p, p ∈ properties db → Property.ownerCompanyId p ≠ Some id).

(** ** Lease tenancies: update and delete *)

Definition tenancyNotFound : string := "Lejekontrakt ikke fundet".

(** [updateLeaseTenant]: the row with the id and the organization takes
    the lease, the tenant and the period of the validated body; the
    existing rows of the lease are not consulted. *)
Definition updateLeaseTenant (db : Database) (id organizationId : string)
    (updates : InsertLeaseTenant.t) : string + (LeaseTenant.t * Database) :=
  let hit (t : LeaseTenant.t) :=
    LeaseTenant.id t = id ∧ LeaseTenant.organizationId t = organizationId in
  let update (t : LeaseTenant.t) :=
    if bool_decide (hit t)
    then LeaseTenant.mk (LeaseTenant.id t)
           (InsertLeaseTenant.leaseId updates)
           (InsertLeaseTenant.tenantId updates)
           (LeaseTenant.organizationId t)
           (InsertLeaseTenant.periodStart updates)
           (InsertLeaseTenant.periodEnd updates)
    else t in
  let updated := update <$> leaseTenants db in
  match head (filter hit updated) with
  | None => inl tenancyNotFound
  | Some updatedLeaseTenant =>
      inr (updatedLeaseTenant,
           {| users := users db;
              companies := companies db;
              companyRelations := companyRelations db;
              properties := properties db;
              leases := leases db;
              leaseTenants := updated |})
  end.

Definition deleteLeaseTenant (db : Database) (id organizationId : string)
    : string + Database :=
  let hit (t : LeaseTenant.t) :=
    LeaseTenant.id t = id ∧ LeaseTenant.organizationId t = organizationId in
  if bool_decide (length (filter hit (leaseTenants db)) = 0%nat)
  then inl tenancyNotFound
  else inr {| users := users db;
              companies := companies db;
              companyRelations := companyRelations db;
              properties := properties db;
              leases := leases db;
              leaseTenants := filter (λ t, ¬ hit t) (leaseTenants db) |}.

(** [PATCH /api/lease-tenants/:id], behind [requireAuth]; [body] is the
    request body after [insertLeaseTenantSchema.parse], to which
    [updateLeaseTenant] adds nothing of the caller but the organization
    in the [WHERE] clause. *)
Definition PATCH_api_lease_tenants (db : Database) (session : option string)
    (id : string) (body : InsertLeaseTenant.t) : Outcome LeaseTenant.t :=
  if negb (truthy session) then (status 401 "Ikke autoriseret", db)
  else
    match getCurrentUser db session with
    | None => (status 401 "Ikke autoriseret", db)
    | Some u =>
        match updateLeaseTenant db id (User.organizationId u) body with
        | inl message => (status 500 message, db)
        | inr (leaseTenant, db') => (json leaseTenant, db')
        end
    end.

(** [DELETE /api/lease-tenants/:id], behind [requireWriteAccess]. *)
Definition DELETE_api_lease_tenants (db : Database) (session : option string)
    (id : string) : Outcome bool :=
  withWriteAccess db session (λ u,
    match deleteLeaseTenant db id (User.organizationId u) with
    | inl message => (status 500 message, db)
    | inr db' => (json true, db')
    end).

(** The demonstration data with two consecutive tenancies of one lease. *)
Definition rentedDb : Database :=
  {| users := users demoDb;
     companies := companies demoDb;
     companyRelations := companyRelations demoDb;
     properties := properties demoDb;
     leases := leases demoDb ++ [Lease.mk "L" "p-C" "org" 100];
     leaseTenants :=
       [LeaseTenant.mk "lt1" "L" "t1" "org" (dateUTC 2023 1 1)
          (Some (dateUTC 2023 12 31));
        LeaseTenant.mk "lt2" "L" "t2" "org" (dateUTC 2024 1 1) None] |}.

(** ** Tenants *)

(** The [tenants] table is passed beside the database. *)
Inductive TenantType := privat | erhverv.

Module Tenant.
Record t := mk {
  id : string;
  internalNumber : Z;
  name : string;
  type : TenantType;
  cvrNumber : option string;
  contactPerson : option string;
  email : string;
  invoiceEmail : option string;
  phone : string;
  notes : option string;
  organizationId : string;
  createdAt : option Z;
}.
End Tenant.

(** The request body after [insertTenantSchema.parse]. *)
Module InsertTenant.
Record t := mk {
  name : string;
  type : TenantType;
  cvrNumber : option string;
  contactPerson : option string;
  email : string;
  invoiceEmail : option string;
  phone : string;
  notes : option string;
}.
End InsertTenant.

(** What [anonymizeTenantData] returns: a tenant whose [email] may be
    [null]. *)
Module TenantView.
Record t := mk {
  id : string;
  internalNumber : Z;
  name : string;
  type : TenantType;
  cvrNumber : option string;
  contactPerson : option string;
  email : option string;
  invoiceEmail : option string;
  phone : string;
  notes : option string;
  organizationId : string;
  createdAt : option Z;
}.
End TenantView.

Definition isBroker (u : User.t) : bool := bool_decide (User.role u = broker).

(** [s[0]] of a string that is not empty. *)
Definition firstCharacter (s : string) : string :=
  match s with
  | EmptyString => EmptyString
  | String c _ => String c EmptyString
  end.

Definition maskEmail (email : option string) : option string :=
  if truthy email then Some (firstCharacter (default "" email) +:+ "*****@*****")
  else None.

Definition anonymizeTenantData (tenant : Tenant.t) (u : User.t)
    : TenantView.t :=
  if negb (isBroker u)
  then TenantView.mk (Tenant.id tenant) (Tenant.internalNumber tenant)
         (Tenant.name tenant) (Tenant.type tenant) (Tenant.cvrNumber tenant)
         (Tenant.contactPerson tenant) (Some (Tenant.email tenant))
         (Tenant.invoiceEmail tenant) (Tenant.phone tenant)
         (Tenant.notes tenant) (Tenant.organizationId tenant)
         (Tenant.createdAt tenant)
  else TenantView.mk (Tenant.id tenant) (Tenant.internalNumber tenant)
         "Anonymiseret" (Tenant.type tenant)
         (if truthy (Tenant.cvrNumber tenant) then Some "********" else None)
         (if truthy (Tenant.contactPerson tenant) then Some "Anonymiseret"
          else None)
         (maskEmail (Some (Tenant.email tenant)))
         (maskEmail (Tenant.invoiceEmail tenant))
         "*******"
         (if truthy (Tenant.notes tenant) then Some "(Anonymiseret)" else None)
         (Tenant.organizationId tenant) (Tenant.createdAt tenant).

(** [getTenants]: the organization's tenants by ascending number. *)
Definition getTenants (tenants : list Tenant.t) (organizationId : string)
    : list Tenant.t :=
  sort_stable (λ a b, Tenant.internalNumber a <=? Tenant.internalNumber b)
    (filter (λ t, Tenant.organizationId t = organizationId) tenants).

(** The largest value of an [integer] column. *)
Definition maxInteger : Z := 2147483647.

(** [createTenant]: the next number is one more than the largest number
    of the organization, or 1001.  The insert fails ([None]) when the
    number is already taken by any tenant (the column is [unique]) or
    does not fit the column.  [newId] and [now] are the defaults that the
    database fills in. *)
Definition createTenant (tenants : list Tenant.t) (now : Z) (newId : string)
    (tenant : InsertTenant.t) (organizationId : string)
    : option (Tenant.t * list Tenant.t) :=
  let lastTenant :=
    take 1 (orderBy_desc (λ t, Some (Tenant.internalNumber t))
              (filter (λ t, Tenant.organizationId t = organizationId) tenants)) in
  let nextInternalNumber :=
    match lastTenant with
    | last :: _ => Tenant.internalNumber last + 1
    | [] => 1001
    end in
  if bool_decide (nextInternalNumber ∈ Tenant.internalNumber <$> tenants)
     || (maxInteger <? nextInternalNumber)
  then None
  else
    let newTenant :=
      Tenant.mk newId nextInternalNumber (InsertTenant.name tenant)
        (InsertTenant.type tenant) (InsertTenant.cvrNumber tenant)
        (InsertTenant.contactPerson tenant) (InsertTenant.email tenant)
        (InsertTenant.invoiceEmail tenant) (InsertTenant.phone tenant)
        (InsertTenant.notes tenant) organizationId (Some now) in
    Some (newTenant, (tenants ++ [newTenant])%list).

(** [GET /api/tenants] *)
Definition GET_api_tenants (db : Database) (tenants : list Tenant.t)
    (session : option string) : Response (list TenantView.t) :=
  withUser db session (λ u,
    json ((λ tenant, anonymizeTenantData tenant u)
            <$> getTenants tenants (User.organizationId u))).

(** [POST /api/tenants], behind [requireWriteAccess]; the response and the
    table after it. *)
Definition POST_api_tenants (db : Database) (tenants : list Tenant.t)
    (session : option string) (now : Z) (newId : string)
    (body : InsertTenant.t) : Response Tenant.t * list Tenant.t :=
  match (withWriteAccess db session (λ u, (json u, db))).1 with
  | status code message => (status code message, tenants)
  | json u =>
      match createTenant tenants now newId body (User.organizationId u) with
      | None => (status 500 "Fejl ved oprettelse af lejer", tenants)
      | Some (tenant, tenants') => (json tenant, tenants')
      end
  end.

(** [getAllLeaseTenants]: the tenancies of the organization, latest
    start first, each with its tenant; rows without one are dropped. *)
Definition getAllLeaseTenants (db : Database) (tenants : list Tenant.t)
    (organizationId : string) : list (LeaseTenant.t * Tenant.t) :=
  let joined : list (LeaseTenant.t * option Tenant.t) :=
    filter (λ lt, LeaseTenant.organizationId lt = organizationId)
      (leaseTenants db)
    ≫= (λ lt,
          match filter (λ t, Tenant.id t = LeaseTenant.tenantId lt) tenants with
          | [] => [(lt, None)]
          | found => (λ t, (lt, Some t)) <$> found
          end) in
  let results :=
    orderBy_desc (λ r, Some (LeaseTenant.periodStart r.1)) joined in
  omap (λ r, (λ t, (r.1, t)) <$> r.2) results.

(** [GET /api/all-lease-tenants] *)
Definition GET_api_all_lease_tenants (db : Database) (tenants : list Tenant.t)
    (session : option string) : Response (list (LeaseTenant.t * Tenant.t)) :=
  withUser db session (λ u,
    json (getAllLeaseTenants db tenants (User.organizationId u))).

(** Two tenants of the organization of the demonstration data. *)
Definition demoTenants : list Tenant.t :=
  [Tenant.mk "t1" 1001 "Anna Jensen" privat None None "anna@example.dk" None
     "12345678" None "org" (Some 1700000000000);
   Tenant.mk "t2" 1002 "Byg ApS" erhverv (Some "12345678") (Some "Bo Byg")
     "bo@byg.dk" (Some "faktura@byg.dk") "87654321" (Some "Betaler sent")
     "org" (Some 1700000000000)].

(** ** Dashboard: recent properties *)

(** [getRecentProperties]: [ORDER BY acquisition_date DESC LIMIT limit]. *)
Definition getRecentProperties (db : Database) (organizationId : string)
    (limit : nat) : list Property.t :=
  take limit
    (orderBy_desc Property.acquisitionDate
       (filter (λ p, Property.organizationId p = organizationId)
          (properties db))).

(** The loop of [getRecentPropertiesWeighted]: rows without an owner are
    skipped before the length is looked at; the others are kept when the
    weight is positive, and the loop stops once [limit] rows are kept. *)
Fixpoint recentLoop (depth : nat) (rootCompanyId : string)
    (allRelations : list RelationRow) (limit : nat)
    (filteredProperties : list Property.t)
    (allProperties : list (Property.t * option Company.t))
    : option (list Property.t) :=
  match allProperties with
  | [] => Some filteredProperties
  | (property, None) :: rest =>
      recentLoop depth rootCompanyId allRelations limit filteredProperties rest
  | (property, Some ownerCompany) :: rest =>
      ownershipWeight ←
        calculateOwnershipFromRoot depth rootCompanyId
          (Company.id ownerCompany) allRelations;
      let filteredProperties :=
        if Double.gtb ownershipWeight 0
        then (filteredProperties ++ [property])%list
        else filteredProperties in
      if (limit <=? length filteredProperties)%nat
      then Some filteredProperties
      else recentLoop depth rootCompanyId allRelations limit
             filteredProperties rest
  end.

(** [None] is the stack overflow of Algorithm B. *)
Definition getRecentPropertiesWeighted (depth : nat) (db : Database)
    (organizationId userId : string) (limit : nat)
    : option (list Property.t) :=
  match getUser db userId with
  | None => Some []
  | Some u =>
      if negb (truthy (User.assignedCompanyId u)) then Some []
      else
        let allProperties :=
          orderBy_desc (λ row, Property.acquisitionDate row.1)
            (properties_leftJoin_companies db organizationId) in
        let allRelations := relations_join_companies db organizationId in
        recentLoop depth (default "" (User.assignedCompanyId u)) allRelations
          limit [] allProperties
  end.

(** [GET /api/dashboard/recent] *)
Definition GET_api_dashboard_recent (depth : nat) (db : Database)
    (session : option string) : Response (list Property.t) :=
  withUser db session (λ u,
    let isWeighted := bool_decide (User.dashboardViewMode u = weighted) in
    if isWeighted && bool_decide (User.role u = user)
    then
      match getRecentPropertiesWeighted depth db (User.organizationId u)
              (User.id u) 5 with
      | Some recentProperties => json recentProperties
      | None => status 500 stackOverflow
      end
    else json (getRecentProperties db (User.organizationId u) 5)).

(** The demonstration data with an acquisition date on every property. *)
Definition datedDb : Database :=
  setProperties demoDb
    [Property.mk "p-C" "org" (Some "C") 100000000 (Some 1700000000000)
       (Some 1700000000000);
     Property.mk "p-B" "org" (Some "B") 50000000 (Some 1710000000000)
       (Some 1710000000000);
     Property.mk "p-D" "org" (Some "D") 20000000 (Some 1720000000000)
       (Some 1720000000000)].

(** ** Listing the relations *)

(** [getCompanyRelations]: the relation columns of the join with the
    parent company. *)
Definition getCompanyRelations (db : Database) (organizationId : string)
    : list CompanyRelation.t :=
  company_relations <$> relations_join_companies db organizationId.

(** [GET /api/company-relations] *)
Definition GET_api_company_relations (db : Database) (session : option string)
    : Response (list CompanyRelation.t) :=
  withUser db session (λ u,
    json (getCompanyRelations db (User.organizationId u))).

(** [company_relations.parentCompanyId] references [companies.id]. *)
Definition parentsExist (db : Database) : Prop :=
  ∀ r, r ∈ companyRelations db →
       CompanyRelation.parentCompanyId r ∈ Company.id <$> companies db.

(** ** The companies page: [getMajorityOwner] *)

(** The columns of a company that the page reads. *)
Module CompanyCard.
Record t := mk {
  id : string;
  name : string;
}.
End CompanyCard.

(** The page compares the percentages of [decimal(5, 2)] texts and
    passes them on.  On that range the doubles of [parseFloat] are
    ordered as the decimal numbers they are nearest to, which stand for
    them here. *)
Definition parseFloat (d : Decimal2) : Q := (d # 100)%Q.

Definition Qgtb (a b : Q) : bool := negb (Qle_bool a b).

(** The object that [getMajorityOwner] returns; a missing [isLargest] is
    [false]. *)
Module MajorityOwner.
Record t := mk {
  name : string;
  percentage : Q;
  isLargest : bool;
}.
End MajorityOwner.

(** The callback of [reduce]: a later relation wins only with a strictly
    larger percentage. *)
Definition higherShare (highest current : CompanyRelation.t)
    : CompanyRelation.t :=
  let currentPercentage :=
    parseFloat (CompanyRelation.ownershipPercentage current) in
  let highestPercentage :=
    parseFloat (CompanyRelation.ownershipPercentage highest) in
  if Qgtb currentPercentage highestPercentage then current else highest.

Definition getMajorityOwner (companyRelations : list CompanyRelation.t)
    (companies : list CompanyCard.t) (companyId : string)
    : option MajorityOwner.t :=
  if bool_decide (length companyRelations = 0%nat) then None
  else
    match filter (λ rel, CompanyRelation.childCompanyId rel = companyId)
            companyRelations with
    | [] => None
    | first :: others =>
        let majorityRelation := foldl higherShare first others in
        let majorityPercentage :=
          parseFloat (CompanyRelation.ownershipPercentage majorityRelation) in
        let ownerCompany :=
          head (filter (λ c, CompanyCard.id c
                             = CompanyRelation.parentCompanyId majorityRelation)
                  companies) in
        let name :=
          match ownerCompany with
          | Some c =>
              if String.eqb (CompanyCard.name c) "" then "Ukendt"
              else CompanyCard.name c
          | None => "Ukendt"
          end in
        Some (MajorityOwner.mk name majorityPercentage
                (negb (Qgtb majorityPercentage 50)))
    end.

(** ** Setup *)

(** [POST /api/setup] for a body that [setupSchema] accepts: the
    organization gets the id [newOrganizationId], and its first user is
    created from the name, the email and the password only, so that the
    role is left to the column default.  The session is set to the new
    user.  The third component is the [userId] of the session. *)
Definition POST_api_setup (db : Database)
    (newOrganizationId newUserId : string)
    : Response bool * Database * option string :=
  let (u, db') :=
    createUser db newUserId (InsertUser.mk newOrganizationId None None) in
  (json true, db', Some (User.id u)).

(** ** Vocabulary of the weights without cycles *)

(** The relations out of a company, as Algorithm B filters them. *)
Definition outgoing (relations : list RelationRow) (x : string)
    : list RelationRow :=
  filter (λ r, CompanyRelation.parentCompanyId (company_relations r) = x)
    relations.

(** [directPercentage] of a relation row: the share as a fraction. *)
Definition share (r : RelationRow) : float :=
  (Double.parseFloat (CompanyRelation.ownershipPercentage (company_relations r))
   / 100)%float.

(** The weight at the call depth that the rank of the root asks for. *)
Definition weightAt (rank : string → nat) (relations : list RelationRow)
    (root target : string) : float :=
  weightFromRootTo (rank root) relations root target.

(** ** Vocabulary of the sums in doubles *)

(** A sum as the loops of the code build it: from 0, one addition per
    row, in the order of the rows. *)
Definition sumDouble {A} (f : A → float) (l : list A) : float :=
  foldl (λ total a, (total + f a)%float) 0%float l.

(** Company A owns 14.50 % of B, which owns a property of 100.00; the
    user is assigned to A. *)
Definition fractionDb : Database :=
  {| users := [demoUser "u" user (Some "A") weighted];
     companies := [company "A"; company "B"];
     companyRelations := [CompanyRelation.mk "r1" "A" "B" 1450];
     properties := [Property.mk "p" "org" (Some "B") 10000 None None];
     leases := []; leaseTenants := [] |}.

(** A chain of [n] relations of 0.01 % each: c0 owns a share of c1,
    which owns a share of c2, and so on. *)
Definition chainCompany (i : nat) : string := "c" +:+ pretty i.

Definition chainDb (n : nat) : Database :=
  {| users := [];
     companies := (λ i, company (chainCompany i)) <$> seq 0 (S n);
     companyRelations :=
       (λ i, CompanyRelation.mk ("r" +:+ pretty i) (chainCompany i)
               (chainCompany (S i)) 1) <$> seq 0 n;
     properties := []; leases := []; leaseTenants := [] |}.

(** ** The weight of the specification *)

(** The sum over all ownership paths from the root to the target of the
    product of the shares along the path, in exact arithmetic; paths of
    at most [n] edges, which are all paths when [n] is the number of
    companies of an acyclic graph. *)
Fixpoint pathsFromRootTo (n : nat) (relations : list RelationRow)
    (root target : string) : list (list RelationRow) :=
  if String.eqb root target then [[]]
  else
    match n with
    | O => []
    | S n' =>
        r ← outgoing relations root;
        (λ path, r :: path)
          <$> pathsFromRootTo n' relations
                (CompanyRelation.childCompanyId (company_relations r)) target
    end.

Definition exactShare (r : RelationRow) : Q :=
  (CompanyRelation.ownershipPercentage (company_relations r) # 10000)%Q.

Definition pathProduct (path : list RelationRow) : Q :=
  foldr (λ r product, (exactShare r * product)%Q) 1%Q path.

Definition sumQ (l : list Q) : Q := foldr Qplus 0%Q l.

Definition sumOverPaths (n : nat) (relations : list RelationRow)
    (root target : string) : Q :=
  sumQ (pathProduct <$> pathsFromRootTo n relations root target).

(** A owns 1 % of B, B owns 1 % of C and C owns 3 % of D. *)
Definition percentChain : list RelationRow :=
  [edge "r1" "A" "B" 100; edge "r2" "B" "C" 100; edge "r3" "C" "D" 300].

(** Company C is owned 0.06 % by A directly, 99.93 % by B and 0.01 % by
    D; A owns B and D entirely. *)
Definition splitRelations : list RelationRow :=
  [edge "r1" "A" "C" 6; edge "r2" "A" "B" 10000; edge "r3" "B" "C" 9993;
   edge "r4" "A" "D" 10000; edge "r5" "D" "C" 1].

(* ===================================================================== *)
(** * Verified properties *)

(** ** The built-ins on doubles, at values that JavaScript prints *)

Example Double_toString_values :
  Double.toString 0.1 = "0.1" ∧
  Double.toString (0.1 + 0.2) = "0.30000000000000004" ∧
  Double.toString 100 = "100" ∧
  Double.toString (-2.5) = "-2.5" ∧
  Double.toString 123456789012345680000 = "123456789012345680000" ∧
  Double.toString 1e21 = "1e+21" ∧
  Double.toString 0.000001 = "0.000001" ∧
  Double.toString 1e-7 = "1e-7" ∧
  Double.toString 5e-324 = "5e-324" ∧
  Double.toString 1e-323 = "1e-323" ∧
  Double.toString 1e23 = "1e+23" ∧
  Double.toString 1.7976931348623157e308 = "1.7976931348623157e+308" ∧
  Double.toString (0.145 * 100) = "14.499999999999998" ∧
  Double.toString (0 / 0) = "NaN" ∧
  Double.toString (-1 / 0) = "-Infinity".
Proof. split_and!; by vm_compute. Qed.

Example Double_Math_round_values :
  Double.Math_round 2.5 = 3%float ∧
  Double.Math_round (-2.5) = (-2)%float ∧
  Double.Math_round 0.49999999999999994 = 0%float ∧
  Double.Math_round (-0.2) = (-0)%float ∧
  Double.Math_round 14.499999999999998 = 14%float ∧
  Double.Math_round 9007199254740993 = 9007199254740992%float ∧
  round2 0.145 = 0.14%float.
Proof. split_and!; by vm_compute. Qed.

Example Double_toFixed1_values :
  Double.toFixed1 110 = "110.0" ∧
  Double.toFixed1 1.25 = "1.3" ∧
  Double.toFixed1 1.45 = "1.4" ∧
  Double.toFixed1 (-0.04) = "-0.0" ∧
  Double.toFixed1 100.00000000000001 = "100.0" ∧
  Double.toFixed1 1e21 = "1e+21".
Proof. split_and!; by vm_compute. Qed.

Example Double_toNumeric_values :
  Double.toNumeric 5 34.59 = Some 3459 ∧
  Double.toNumeric 5 100 = Some 10000 ∧
  Double.toNumeric 5 0.005 = Some 1 ∧
  Double.toNumeric 5 0.0049 = Some 0 ∧
  Double.toNumeric 5 (-5) = Some (-500) ∧
  Double.toNumeric 5 999.994 = Some 99999 ∧
  Double.toNumeric 5 999.995 = None ∧
  Double.toNumeric 5 (1 / 0) = None ∧
  Double.parseFloat 1450 = 14.5%float ∧
  Double.parseFloat 1 = 0.01%float ∧
  Double.ofZ 9007199254740993 = 9007199254740992%float.
Proof. split_and!; by vm_compute. Qed.

(** ** Properties of Algorithm B *)

Lemma calculateOwnershipFromRoot_self depth X relations :
  calculateOwnershipFromRoot depth X X relations = Some 1%float.
Proof.
  destruct depth; simpl; by rewrite String.eqb_refl.
Qed.

(** ** Termination of Algorithm A *)

Section TraversalFacts.

Implicit Types (db : Database) (st : Traversal).

#[local] Instance extends_refl : Reflexive extends.
Proof. by intros st; split. Qed.

#[local] Instance extends_trans : Transitive extends.
Proof. intros a b c [??] [??]; split; by etrans. Qed.

Lemma size_list_to_set_le (l : list string) :
  (size (list_to_set l : gset string) ≤ length l)%nat.
Proof.
  induction l as [|x l IH].
  - by rewrite list_to_set_nil, size_empty.
  - rewrite list_to_set_cons, size_union_alt, size_singleton.
    assert (size (list_to_set l ∖ {[x]} : gset string)
            ≤ size (list_to_set l : gset string))%nat as Hle
      by (apply subseteq_size; set_solver).
    simpl. lia.
Qed.

Lemma size_ownedCompanies db :
  (size (ownedCompanies db) < traversalDepth db)%nat.
Proof.
  unfold ownedCompanies, traversalDepth.
  pose proof (size_list_to_set_le
                (CompanyRelation.childCompanyId <$> companyRelations db)) as H.
  rewrite length_fmap in H. lia.
Qed.

Lemma child_owned db companyId r :
  r ∈ getChildRelations db companyId →
  CompanyRelation.childCompanyId r ∈ ownedCompanies db.
Proof.
  unfold getChildRelations, ownedCompanies.
  rewrite list_elem_of_filter, elem_of_list_to_set, list_elem_of_fmap.
  intros [_ Hr]. eauto.
Qed.

(** A monadic left fold succeeds and keeps an invariant when every
    step does. *)
Lemma foldl_option_inv {A B} (f : A → B → option A) (P : A → Prop)
    (l : list B) (a : A) :
  P a →
  (∀ a b, b ∈ l → P a → ∃ a', f a b = Some a' ∧ P a') →
  ∃ a', foldl (λ acc b, acc ≫= λ a, f a b) (Some a) l = Some a' ∧ P a'.
Proof.
  revert a. induction l as [|b l IH]; intros a Ha Hstep; simpl.
  - eauto.
  - destruct (Hstep a b) as (a' & -> & Ha'); [left | done |].
    apply IH; [done|]. intros ????. apply Hstep; [by right | done].
Qed.

Lemma traverseOwnership_unfold depth db currentCompanyId currentOwnership st :
  traverseOwnership depth db currentCompanyId currentOwnership st =
  if bool_decide (currentCompanyId ∈ visitedCompanies st) then Some st
  else
    foldl (λ (acc : option Traversal) relation,
        acc ≫= λ st',
        match depth with
        | O => None
        | S depth' =>
            traverseOwnership depth' db
              (CompanyRelation.childCompanyId relation)
              (currentOwnership
               * Double.parseFloat (CompanyRelation.ownershipPercentage relation)
               / 100)%float st'
        end)
      (Some {| visitedCompanies := {[currentCompanyId]} ∪ visitedCompanies st;
               accessibleCompanies :=
                 if Double.gtb currentOwnership 0
                 then Set_add currentCompanyId (accessibleCompanies st)
                 else accessibleCompanies st;
               childQueries := childQueries st ++ [currentCompanyId] |})
      (getChildRelations db currentCompanyId).
Proof. destruct depth; reflexivity. Qed.

(** A revisit returns at once, whatever the depth left. *)
Lemma traverseOwnership_revisit depth db c own st :
  c ∈ visitedCompanies st →
  traverseOwnership depth db c own st = Some st.
Proof.
  intros Hc. rewrite traverseOwnership_unfold.
  by rewrite bool_decide_eq_true_2.
Qed.

Lemma Set_add_subseteq x (s : list string) : s ⊆ Set_add x s.
Proof. unfold Set_add. case_bool_decide; set_solver. Qed.

Lemma Set_add_elem x (s : list string) : x ∈ Set_add x s.
Proof. unfold Set_add. case_bool_decide; set_solver. Qed.

(** The main induction: the depth needed is bounded by the number of
    owned companies not yet visited. *)
Lemma traverseOwnership_spec depth db c own st :
  log_consistent st →
  (c ∉ visitedCompanies st →
   (size (ownedCompanies db ∖ ({[c]} ∪ visitedCompanies st)) < depth)%nat) →
  ∃ st', traverseOwnership depth db c own st = Some st' ∧
         log_consistent st' ∧ extends st st' ∧
         c ∈ visitedCompanies st' ∧
         (Double.gtb own 0 → c ∉ visitedCompanies st →
          c ∈ accessibleCompanies st').
Proof.
  revert c own st.
  induction depth as [|depth IH]; intros c own st Hlog Hsize;
    rewrite traverseOwnership_unfold; case_bool_decide as Hvis;
    try (exists st; split_and!; [done | done | done | done | by intros]).
  { specialize (Hsize Hvis). lia. }
  specialize (Hsize Hvis).
  set (st1 := {| visitedCompanies := {[c]} ∪ visitedCompanies st |}).
  assert (Hlog1 : log_consistent st1).
  { destruct Hlog as [Hnd Hiff]. split; simpl.
    - apply NoDup_app. split_and!; [done | | apply NoDup_singleton].
      intros x Hx ->%list_elem_of_singleton. by apply Hvis, Hiff.
    - intros x. rewrite elem_of_app, list_elem_of_singleton, Hiff. set_solver. }
  assert (Hext1 : extends st st1).
  { split; simpl; [set_solver|]. destruct (Double.gtb own 0);
      [apply Set_add_subseteq | done]. }
  destruct (foldl_option_inv
              (λ st' relation,
                 traverseOwnership depth db
                   (CompanyRelation.childCompanyId relation)
                   (own * Double.parseFloat
                            (CompanyRelation.ownershipPercentage relation)
                    / 100)%float st')
              (λ s, log_consistent s ∧ extends st1 s)
              (getChildRelations db c) st1) as (st' & Hrun & Hlog' & Hext').
  - done.
  - intros s r Hr [Hs Hes].
    destruct (IH (CompanyRelation.childCompanyId r)
                (own * Double.parseFloat (CompanyRelation.ownershipPercentage r)
                 / 100)%float
                s Hs) as (s' & -> & Hs' & Hes' & _).
    + intros Hnew. apply child_owned in Hr.
      assert (size (ownedCompanies db
                    ∖ ({[CompanyRelation.childCompanyId r]} ∪ visitedCompanies s))
              < size (ownedCompanies db ∖ visitedCompanies s))%nat
        by (apply subset_size; set_solver).
      assert (size (ownedCompanies db ∖ visitedCompanies s)
              ≤ size (ownedCompanies db ∖ ({[c]} ∪ visitedCompanies st)))%nat
        by (apply subseteq_size; destruct Hes as [Hes _]; simpl in Hes;
            set_solver).
      lia.
    + eexists; split; [done|]. split; [done | by etrans].
  - exists st'. split; [exact Hrun|]. split; [done|].
    split; [by etrans|]. destruct Hext' as [Hv Ha]; simpl in *.
    split; [set_solver|].
    intros Hpos _. apply Ha. destruct (Double.gtb own 0); [|done].
    apply Set_add_elem.
Qed.

Lemma emptyTraversal_consistent : log_consistent emptyTraversal.
Proof. split; simpl; [constructor | set_solver]. Qed.

Lemma traverseOwnership_terminates db companyId k :
  ∃ st, traverseOwnership (traversalDepth db + k) db companyId 100%float
          emptyTraversal = Some st ∧
        NoDup (childQueries st) ∧
        companyId ∈ accessibleCompanies st.
Proof.
  destruct (traverseOwnership_spec (traversalDepth db + k) db companyId
              100%float emptyTraversal emptyTraversal_consistent)
    as (st & Hrun & [Hnd _] & _ & _ & Hacc).
  - intros _. pose proof (size_ownedCompanies db) as Hlt.
    pose proof (subseteq_size
                  (ownedCompanies db
                   ∖ ({[companyId]} ∪ visitedCompanies emptyTraversal))
                  (ownedCompanies db)) as Hle.
    specialize (Hle ltac:(set_solver)). lia.
  - exists st. split_and!; [done | done |]. apply Hacc; [exact I | set_solver].
Qed.

Lemma runTraversal_terminates db companyId :
  ∃ st, runTraversal db companyId = Some st ∧
        NoDup (childQueries st) ∧ companyId ∈ accessibleCompanies st.
Proof.
  unfold runTraversal.
  destruct (traverseOwnership_terminates db companyId 0) as (st & H & ?).
  rewrite Nat.add_0_r in H. eauto.
Qed.

Lemma getAccessibleCompanyIds_total db companyId :
  ∃ ids, getAccessibleCompanyIds db companyId = Some ids ∧ companyId ∈ ids.
Proof.
  destruct (runTraversal_terminates db companyId) as (st & H & _ & Hin).
  exists (accessibleCompanies st). unfold getAccessibleCompanyIds.
  by rewrite H.
Qed.

(** ** What Algorithm A computes *)

Lemma foldl_option_None {A B} (f : A → B → option A) (l : list B) :
  foldl (λ acc b, acc ≫= λ a, f a b) None l = None.
Proof. by induction l. Qed.

(** Partial correctness of a monadic left fold, with an invariant that
    may mention the elements already consumed. *)
Lemma foldl_option_post {A B} (f : A → B → option A)
    (P : list B → A → Prop) (l : list B) (a a' : A) :
  P [] a →
  (∀ pre b a1 a2, b ∈ l → P pre a1 → f a1 b = Some a2 → P (pre ++ [b])%list a2) →
  foldl (λ acc b, acc ≫= λ a, f a b) (Some a) l = Some a' →
  P l a'.
Proof.
  intros Hinit Hstep.
  assert (∀ suf pre a1, (∀ b, b ∈ suf → b ∈ l) → P pre a1 →
            foldl (λ acc b, acc ≫= λ a, f a b) (Some a1) suf = Some a' →
            P (pre ++ suf)%list a') as Hgen.
  { induction suf as [|b suf IH]; intros pre a1 Hsub Hpre Hrun; simpl in Hrun.
    - rewrite app_nil_r. by simplify_eq.
    - destruct (f a1 b) as [a2|] eqn:Hf;
        [|by rewrite foldl_option_None in Hrun].
      rewrite (cons_middle b), (assoc_L app).
      apply (IH _ a2); [intros; apply Hsub; by right | | done].
      apply (Hstep pre b a1); [apply Hsub; by left | done | done]. }
  intros Hrun. by apply (Hgen l [] a).
Qed.

(** The visited set grows, takes the company in, and is closed under
    ownership edges on everything that the call added. *)
Lemma traverseOwnership_closure depth db c own st st' :
  traverseOwnership depth db c own st = Some st' →
  visitedCompanies st ⊆ visitedCompanies st' ∧
  c ∈ visitedCompanies st' ∧
  ∀ v b, v ∈ visitedCompanies st' → v ∉ visitedCompanies st →
         owns db v b → b ∈ visitedCompanies st'.
Proof.
  revert c own st st'. induction depth as [|depth IH]; intros c own st st';
    rewrite traverseOwnership_unfold; case_bool_decide as Hvis;
    try (intros [= <-]; split_and!; [done | done | by intros]).
  - destruct (getChildRelations db c) as [|r rows] eqn:Hrows; simpl;
      [|by rewrite foldl_option_None].
    intros [= <-]. simpl. split_and!; [set_solver | set_solver |].
    intros v b Hv Hnew (r & Hr & Hp & Hb).
    assert (v = c) as -> by set_solver.
    assert (r ∈ getChildRelations db c) as Hin by (by apply list_elem_of_filter).
    rewrite Hrows in Hin. by apply not_elem_of_nil in Hin.
  - set (st1 := {| visitedCompanies := {[c]} ∪ visitedCompanies st |}).
    intros Hrun.
    apply (foldl_option_post
             (λ s r, traverseOwnership depth db
                       (CompanyRelation.childCompanyId r)
                       (own * Double.parseFloat
                                (CompanyRelation.ownershipPercentage r)
                        / 100)%float s)
             (λ pre s,
                visitedCompanies st1 ⊆ visitedCompanies s ∧
                (∀ r, r ∈ pre → CompanyRelation.childCompanyId r
                                ∈ visitedCompanies s) ∧
                ∀ v b, v ∈ visitedCompanies s → v ∉ visitedCompanies st1 →
                       owns db v b → b ∈ visitedCompanies s)) in Hrun.
    + destruct Hrun as (Hsub & Hchildren & Hclosed). simpl in Hsub.
      split_and!; [set_solver | set_solver |].
      intros v b Hv Hnew Hown. destruct (decide (v = c)) as [->|Hne].
      * destruct Hown as (r & Hr & Hp & <-). apply Hchildren.
        by apply list_elem_of_filter.
      * apply (Hclosed v); [done | set_solver | done].
    + split_and!; [done | by intros ? ?%not_elem_of_nil |].
      intros v b Hv Hnew. done.
    + intros pre r s s' _ (Hsub & Hchildren & Hclosed) Hcall.
      apply IH in Hcall as (Hgrow & Hin & Hnewclosed).
      split_and!.
      * set_solver.
      * intros r' [Hr'| ->%list_elem_of_singleton]%elem_of_app; [|done].
        apply Hgrow. by apply Hchildren.
      * intros v b Hv Hnew Hown.
        destruct (decide (v ∈ visitedCompanies s)) as [Hold|Hfresh].
        -- apply Hgrow. by apply (Hclosed v).
        -- by apply (Hnewclosed v).
Qed.

(** Only companies below the root are visited, and only visited
    companies are accessible. *)
Lemma traverseOwnership_sound depth db root c own st st' :
  traverseOwnership depth db c own st = Some st' →
  reachableFrom db root c →
  sound db root st → sound db root st'.
Proof.
  revert c own st st'.
  assert (∀ c own st, reachableFrom db root c → sound db root st →
            sound db root
              {| visitedCompanies := {[c]} ∪ visitedCompanies st;
                 accessibleCompanies :=
                   if Double.gtb own 0
                   then Set_add c (accessibleCompanies st)
                   else accessibleCompanies st;
                 childQueries := childQueries st ++ [c] |}) as Hstart.
  { intros c own st Hreach [Hsound Hacc]. split; simpl.
    - intros v [->%elem_of_singleton|Hv]%elem_of_union;
        [done | by apply Hsound].
    - intros v. destruct (Double.gtb own 0).
      + unfold Set_add. case_bool_decide as Hc.
        * intros Hv%Hacc. set_solver.
        * intros [Hv%Hacc| ->%list_elem_of_singleton]%elem_of_app;
            set_solver.
      + intros Hv%Hacc. set_solver. }
  induction depth as [|depth IH]; intros c own st st';
    rewrite traverseOwnership_unfold; case_bool_decide as Hvis;
    try (by intros [= <-]).
  - destruct (getChildRelations db c) as [|r rows] eqn:Hrows; simpl;
      [|by rewrite foldl_option_None].
    intros [= <-] Hreach Hsound. by apply Hstart.
  - intros Hrun Hreach Hsound.
    apply (foldl_option_post
             (λ s r, traverseOwnership depth db
                       (CompanyRelation.childCompanyId r)
                       (own * Double.parseFloat
                                (CompanyRelation.ownershipPercentage r)
                        / 100)%float s)
             (λ _ s, sound db root s)) in Hrun; [done | by apply Hstart |].
    intros _ r s s' Hr Hs Hcall.
    apply list_elem_of_filter in Hr as [Hparent Hr].
    apply (IH _ _ _ _ Hcall); [|done].
    eapply rtc_r; [exact Hreach|]. by exists r.
Qed.

(** The result of Algorithm A holds the root and only companies that
    the root reaches along ownership edges. *)
Lemma getAccessibleCompanyIds_reachable db root ids :
  getAccessibleCompanyIds db root = Some ids →
  root ∈ ids ∧ ∀ c, c ∈ ids → reachableFrom db root c.
Proof.
  intros Hids.
  destruct (getAccessibleCompanyIds_total db root) as (ids' & Hids' & Hroot).
  assert (ids' = ids) as -> by congruence. split; [done|].
  revert Hids. unfold getAccessibleCompanyIds, runTraversal.
  destruct (traverseOwnership _ _ _ _ _) as [st|] eqn:Hrun; [|done].
  intros [= <-] c Hc.
  pose proof (traverseOwnership_sound _ db root _ _ _ _ Hrun) as Hsound.
  destruct Hsound as [Hreach Hacc]; [apply rtc_refl | |].
  { split; simpl; [set_solver|]. intros v. set_solver. }
  by apply Hreach, Hacc.
Qed.

End TraversalFacts.

(** ** Access control derived from Algorithm A *)

Section AccessControl.

Implicit Types (db : Database) (u : User.t) (p : Property.t) (l : Lease.t).

Lemma elem_of_insert_sorted {A} (before : A → A → bool) x y (rows : list A) :
  y ∈ insert_sorted before x rows ↔ y = x ∨ y ∈ rows.
Proof.
  induction rows as [|z rows IH]; simpl.
  - set_solver.
  - destruct (before x z); set_solver.
Qed.

Lemma elem_of_sort_stable {A} (before : A → A → bool) y (rows : list A) :
  y ∈ sort_stable before rows ↔ y ∈ rows.
Proof.
  unfold sort_stable. induction rows as [|z rows IH]; simpl; [done|].
  rewrite elem_of_insert_sorted, IH. set_solver.
Qed.

Lemma getUser_id db i u : getUser db i = Some u → User.id u = i.
Proof.
  unfold getUser. intros H%head_Some_elem_of.
  by apply list_elem_of_filter in H as [? _].
Qed.

(** What an authenticated session gives the handlers. *)
Lemma getCurrentUser_Some db session u :
  getCurrentUser db session = Some u →
  truthy session = true ∧ session = Some (User.id u) ∧
  getUser db (User.id u) = Some u.
Proof.
  unfold getCurrentUser. destruct (truthy session) eqn:Ht; simpl; [|done].
  destruct session as [i|]; simpl; [|done].
  intros H. pose proof (getUser_id _ _ _ H) as <-. done.
Qed.

Lemma withUser_Some {A} db session u (handler : User.t → Response A) :
  getCurrentUser db session = Some u →
  withUser db session handler = handler u.
Proof.
  intros H. unfold withUser. rewrite H.
  by apply getCurrentUser_Some in H as (-> & _).
Qed.

Lemma listingUserId_user u :
  User.role u = user → listingUserId u = Some (User.id u).
Proof.
  intros H. unfold listingUserId. rewrite bool_decide_eq_false_2; [done|].
  rewrite H. by intros [|].
Qed.

Lemma truthy_Some_true R : R ≠ "" → truthy (Some R) = true.
Proof. intros H. simpl. by apply negb_true_iff, String.eqb_neq. Qed.

Lemma inArray_spec column values :
  inArray column values ↔ ∃ c, column = Some c ∧ c ∈ values.
Proof.
  destruct column as [c|]; simpl.
  - rewrite bool_decide_spec. naive_solver.
  - naive_solver.
Qed.

(** The listing of a regular user without an assigned company. *)
Lemma getProperties_unassigned db organizationId u :
  getUser db (User.id u) = Some u → truthy (Some (User.id u)) = true →
  truthy (User.assignedCompanyId u) = false →
  getProperties db organizationId (Some (User.id u)) = Some [].
Proof.
  intros Hu Hid Hno. unfold getProperties. rewrite Hid. simpl.
  by rewrite Hu, Hno.
Qed.


(** The listing of a regular user with assigned company [R]. *)
Lemma getProperties_assigned db organizationId u R :
  getUser db (User.id u) = Some u → truthy (Some (User.id u)) = true →
  User.assignedCompanyId u = Some R → R ≠ "" →
  ∃ reachable ps,
    getAccessibleCompanyIds db R = Some reachable ∧ R ∈ reachable ∧
    getProperties db organizationId (Some (User.id u)) = Some ps ∧
    ∀ p, p ∈ ps ↔
         p ∈ properties db ∧ Property.organizationId p = organizationId ∧
         ∃ c, Property.ownerCompanyId p = Some c ∧ c ∈ reachable.
Proof.
  intros Hu Hid HR Hne.
  destruct (getAccessibleCompanyIds_total db R) as (ids & Hids & HRin).
  exists ids. unfold getProperties. rewrite Hid. simpl. rewrite Hu, HR.
  rewrite (truthy_Some_true R Hne). simpl. rewrite Hids. simpl.
  rewrite bool_decide_eq_false_2
    by (destruct ids; [by apply not_elem_of_nil in HRin | done]).
  eexists. split_and!; [done | done | done |].
  intros p. unfold orderBy_desc.
  rewrite elem_of_sort_stable, list_elem_of_filter, inArray_spec.
  naive_solver.
Qed.



End AccessControl.

(** ** The claims on Algorithm A and on access control *)

(** C9: the traversal of Algorithm A returns on every relation table,
    cyclic or not, as soon as the call depth exceeds the number of
    relation rows; no company has its children fetched twice; a call on
    a visited company returns the state unchanged; on the two-company
    cycle the result is A and B. *)
Theorem C9_traversal_terminates :
  (∀ db companyId k,
      ∃ st, traverseOwnership (traversalDepth db + k) db companyId 100%float
              emptyTraversal = Some st ∧
            NoDup (childQueries st)) ∧
  (∀ db companyId, is_Some (getAccessibleCompanyIds db companyId)) ∧
  (∀ depth db c own st,
      c ∈ visitedCompanies st →
      traverseOwnership depth db c own st = Some st) ∧
  getAccessibleCompanyIds cyclicDb "A" = Some ["A"; "B"].
Proof.
  split_and!.
  - intros db companyId k.
    destruct (traverseOwnership_terminates db companyId k) as (st & ? & ? & _).
    eauto.
  - intros db companyId.
    destruct (getAccessibleCompanyIds_total db companyId) as (ids & -> & _).
    by eexists.
  - apply traverseOwnership_revisit.
  - by vm_compute.
Qed.

(** A nested call that comes back to A on the two-company cycle. *)
Lemma C9_traversal_terminates_witness :
  traverseOwnership 0 cyclicDb "A" 50%float
    {| visitedCompanies := {["A"]}; accessibleCompanies := ["A"];
       childQueries := ["A"] |}
  = Some {| visitedCompanies := {["A"]}; accessibleCompanies := ["A"];
            childQueries := ["A"] |}.
Proof.
  apply (proj1 (proj2 (proj2 C9_traversal_terminates))).
  simpl. apply elem_of_singleton. reflexivity.
Defined.

(** C10: the set computed from a root always contains the root, and a
    regular user assigned to company R is listed every property of the
    organization that R owns directly. *)
Theorem C10_root_is_accessible :
  (∀ db R, ∃ ids, getAccessibleCompanyIds db R = Some ids ∧ R ∈ ids) ∧
  (∀ db session u R p,
      getCurrentUser db session = Some u →
      User.role u = user →
      User.assignedCompanyId u = Some R → R ≠ "" →
      p ∈ properties db →
      Property.organizationId p = User.organizationId u →
      Property.ownerCompanyId p = Some R →
      ∃ ps, GET_api_properties db session = json ps ∧ p ∈ ps).
Proof.
  split; [apply getAccessibleCompanyIds_total|].
  intros db session u R p Hu Hrole HR Hne Hp Horg Hown.
  unfold GET_api_properties. rewrite (withUser_Some _ _ _ _ Hu).
  rewrite (listingUserId_user _ Hrole).
  apply getCurrentUser_Some in Hu as (Ht & -> & Hget).
  destruct (getProperties_assigned db (User.organizationId u) u R Hget Ht HR Hne)
    as (ids & ps & _ & HRin & -> & Hps).
  exists ps. split; [done|]. apply Hps. eauto.
Qed.

(** A user assigned to a company that takes part in no relation. *)
Lemma C10_root_is_accessible_witness :
  ∃ ps,
    GET_api_properties
      {| users := [demoUser "u" user (Some "D") weighted];
         companies := [company "D"]; companyRelations := [];
         properties := [Property.mk "p-D" "org" (Some "D") 20000000 None None];
         leases := []; leaseTenants := [] |}
      (Some "u") = json ps ∧
    Property.mk "p-D" "org" (Some "D") 20000000 None None ∈ ps.
Proof.
  apply (proj2 C10_root_is_accessible _ _ (demoUser "u" user (Some "D") weighted)
           "D"); try reflexivity.
  - discriminate.
  - simpl. left.
Defined.


Lemma demoDb_positive : positivePercentages demoDb.
Proof.
  intros r Hr. simpl in Hr.
  repeat (apply elem_of_cons in Hr as [->|Hr]);
    [..|by apply not_elem_of_nil in Hr]; by vm_compute.
Qed.


Lemma chain_reachable n i :
  (i ≤ n)%nat → reachableFrom (chainDb n) (chainCompany 0) (chainCompany i).
Proof.
  induction i as [|i IH]; intros Hi; [apply rtc_refl|].
  eapply rtc_r; [apply IH; lia|].
  exists (CompanyRelation.mk ("r" +:+ pretty i) (chainCompany i)
            (chainCompany (S i)) 1).
  split; [|done]. simpl. apply list_elem_of_fmap. exists i.
  split; [done|]. apply elem_of_seq. lia.
Qed.

Lemma chain_positive n : positivePercentages (chainDb n).
Proof. by intros r (i & -> & _)%list_elem_of_fmap. Qed.

(** The set of Algorithm A is not all that the root reaches.  The weight
    that the traversal carries is a double: along a chain of 82
    relations of 0.01 % each it is still 1e-322 at the last company but
    one and 0 at the last one, which is left out although every stored
    percentage is positive. *)
Example accessible_set_misses_a_deep_company :
  positivePercentages (chainDb 82) ∧
  reachableFrom (chainDb 82) "c0" "c82" ∧
  ∃ ids, getAccessibleCompanyIds (chainDb 82) "c0" = Some ids ∧
         "c81" ∈ ids ∧ "c82" ∉ ids.
Proof.
  split; [apply chain_positive|].
  split; [apply (chain_reachable 82 82); lia|].
  eexists. split; [vm_compute; reflexivity|].
  split; apply (bool_decide_unpack _); by vm_compute.
Qed.

(** The listings that the regular users of the demonstration data get. *)
Example demo_listing_of_user :
  GET_api_properties demoDb (Some "u-user")
    = json [Property.mk "p-C" "org" (Some "C") 100000000 (Some 1700000000000)
              (Some 1700000000000)] ∧
  GET_api_leases demoDb (Some "u-user")
    = json [(Lease.mk "l-C" "p-C" "org" 120,
             Property.mk "p-C" "org" (Some "C") 100000000 (Some 1700000000000)
               (Some 1700000000000))] ∧
  getAccessibleCompanyIds demoDb "A" = Some ["A"; "B"; "C"].
Proof. by vm_compute. Qed.

(** ** Lease tenancy periods *)

Section Tenancy.

Implicit Types (db : Database) (candidate : InsertLeaseTenant.t)
  (existing : LeaseTenant.t).

Example dateUTC_epoch : dateUTC 1970 1 1 = 0.
Proof. reflexivity. Qed.

Example endOfTime_value : endOfTime = 4102358400000.
Proof. reflexivity. Qed.

Lemma checkOverlap_cases newStart newEnd (rows : list LeaseTenant.t) :
  (checkOverlap newStart newEnd rows = inl overlapMessage ∧
   Exists (overlapsDates newStart newEnd) rows) ∨
  (checkOverlap newStart newEnd rows = inr () ∧
   Forall (λ e, ¬ overlapsDates newStart newEnd e) rows).
Proof.
  induction rows as [|e rows IH]; simpl.
  - right. split; [done | constructor].
  - destruct (newStart <=? default endOfTime (LeaseTenant.periodEnd e))
      eqn:Hs;
    destruct (default endOfTime newEnd >=? LeaseTenant.periodStart e)
      eqn:He; simpl.
    + left. split; [done|]. left. unfold overlapsDates. lia.
    + destruct IH as [[-> Hex]|[-> Hall]].
      * left. split; [done | by right].
      * right. split; [done|]. constructor; [|done].
        unfold overlapsDates. lia.
    + destruct IH as [[-> Hex]|[-> Hall]].
      * left. split; [done | by right].
      * right. split; [done|]. constructor; [|done].
        unfold overlapsDates. lia.
    + destruct IH as [[-> Hex]|[-> Hall]].
      * left. split; [done | by right].
      * right. split; [done|]. constructor; [|done].
        unfold overlapsDates. lia.
Qed.

Lemma isCurrent_spec today start end_ :
  isCurrent today start end_ = true ↔ containsToday today start end_.
Proof.
  unfold isCurrent, containsToday. rewrite andb_true_iff.
  destruct end_ as [e|].
  - split.
    + intros [??]. split; [lia|]. intros ? [= <-]. lia.
    + intros [? He]. specialize (He e eq_refl). lia.
  - split; [intros [??]; split; [lia | done] | intros [??]; split; [lia|done]].
Qed.

(** An accepted tenancy overlaps no record of its lease. *)
Lemma createLeaseTenant_accepted db today newId candidate r existing :
  createLeaseTenant db today newId candidate = inr r →
  existing ∈ leaseTenants db →
  LeaseTenant.leaseId existing = InsertLeaseTenant.leaseId candidate →
  ¬ overlaps candidate existing.
Proof.
  unfold createLeaseTenant. intros Hrun Hin Hlease.
  destruct (checkOverlap_cases (InsertLeaseTenant.periodStart candidate)
              (InsertLeaseTenant.periodEnd candidate)
              (filter (λ e, LeaseTenant.leaseId e
                            = InsertLeaseTenant.leaseId candidate)
                 (leaseTenants db))) as [[Hc _]|[_ Hall]].
  - by rewrite Hc in Hrun.
  - rewrite Forall_forall in Hall. apply Hall.
    by apply list_elem_of_filter.
Qed.

Lemma createLeaseTenant_overlap db today newId candidate existing :
  existing ∈ leaseTenants db →
  LeaseTenant.leaseId existing = InsertLeaseTenant.leaseId candidate →
  overlaps candidate existing →
  createLeaseTenant db today newId candidate = inl overlapMessage.
Proof.
  unfold createLeaseTenant. intros Hin Hlease Hov.
  destruct (checkOverlap_cases (InsertLeaseTenant.periodStart candidate)
              (InsertLeaseTenant.periodEnd candidate)
              (filter (λ e, LeaseTenant.leaseId e
                            = InsertLeaseTenant.leaseId candidate)
                 (leaseTenants db))) as [[-> _]|[_ Hall]]; [done|].
  rewrite Forall_forall in Hall. destruct (Hall existing); [|done].
  by apply list_elem_of_filter.
Qed.

End Tenancy.

(** C4 (as stated, second half): a lease with an ongoing tenancy since
    2023-01-01 accepts an open-ended second tenancy that starts on
    2100-01-01, which does not lie before the first. *)
Lemma C4_open_ended_counterexample :
  ¬ (∀ db today newId candidate existing r,
       existing ∈ leaseTenants db →
       LeaseTenant.leaseId existing = InsertLeaseTenant.leaseId candidate →
       LeaseTenant.periodEnd existing = None →
       createLeaseTenant db today newId candidate = inr r →
       ∃ e, InsertLeaseTenant.periodEnd candidate = Some e ∧
            e < LeaseTenant.periodStart existing).
Proof.
  intros H.
  destruct (H (tenancyDb [ongoingTenancy]) (dateUTC 2024 6 1) "lt2"
              (InsertLeaseTenant.mk "L" "t2" "org" (dateUTC 2100 1 1) None)
              ongoingTenancy _
              ltac:(by left) eq_refl eq_refl eq_refl) as (e & He & _).
  discriminate He.
Qed.

(** C4 (amended): a candidate that overlaps a record of its lease, a
    missing end being read as 2099-12-31, is refused with the overlap
    error and nothing is inserted; so next to an open-ended record a
    candidate is accepted only if it starts after 2099-12-31 or its end,
    read the same way, lies before the start of that record. *)
Theorem C4_overlap_rejected db today newId candidate :
  (∀ existing,
      existing ∈ leaseTenants db →
      LeaseTenant.leaseId existing = InsertLeaseTenant.leaseId candidate →
      overlaps candidate existing →
      createLeaseTenant db today newId candidate = inl overlapMessage) ∧
  (∀ existing r,
      existing ∈ leaseTenants db →
      LeaseTenant.leaseId existing = InsertLeaseTenant.leaseId candidate →
      LeaseTenant.periodEnd existing = None →
      createLeaseTenant db today newId candidate = inr r →
      endOfTime < InsertLeaseTenant.periodStart candidate ∨
      default endOfTime (InsertLeaseTenant.periodEnd candidate)
        < LeaseTenant.periodStart existing).
Proof.
  split.
  - intros existing. apply createLeaseTenant_overlap.
  - intros existing r Hin Hlease Hopen Hrun.
    pose proof (createLeaseTenant_accepted _ _ _ _ _ _ Hrun Hin Hlease) as Hno.
    unfold overlaps, overlapsDates in Hno. rewrite Hopen in Hno.
    simpl in Hno. lia.
Qed.

(** The overlap of the specification's example is refused, and a closed
    tenancy of 2022 is accepted next to the ongoing one. *)
Lemma C4_overlap_rejected_witness :
  createLeaseTenant
    (tenancyDb [LeaseTenant.mk "lt1" "L" "t1" "org" (dateUTC 2024 3 1)
                  (Some (dateUTC 2024 9 30))])
    (dateUTC 2024 6 1) "lt2"
    (InsertLeaseTenant.mk "L" "t2" "org" (dateUTC 2024 1 1)
       (Some (dateUTC 2024 6 30)))
  = inl overlapMessage ∧
  (endOfTime < dateUTC 2022 1 1 ∨
   default endOfTime (Some (dateUTC 2022 12 31)) < dateUTC 2023 1 1).
Proof.
  split.
  - apply (proj1 (C4_overlap_rejected _ _ _ _)
             (LeaseTenant.mk "lt1" "L" "t1" "org" (dateUTC 2024 3 1)
                (Some (dateUTC 2024 9 30)))).
    + left.
    + reflexivity.
    + split; vm_compute; discriminate.
  - apply (proj2 (C4_overlap_rejected (tenancyDb [ongoingTenancy])
                    (dateUTC 2024 6 1) "lt2"
                    (InsertLeaseTenant.mk "L" "t2" "org" (dateUTC 2022 1 1)
                       (Some (dateUTC 2022 12 31))))
             ongoingTenancy
             (tenancyDb
                [ongoingTenancy;
                 LeaseTenant.mk "lt2" "L" "t2" "org" (dateUTC 2022 1 1)
                   (Some (dateUTC 2022 12 31))],
              LeaseTenant.mk "lt2" "L" "t2" "org" (dateUTC 2022 1 1)
                (Some (dateUTC 2022 12 31)))).
    + left.
    + reflexivity.
    + reflexivity.
    + reflexivity.
Defined.

(** C5 (as stated): with an ongoing tenancy since 2023 and a candidate
    that is current on 2024-06-01, the error raised is the overlap error,
    not the active-tenant error. *)
Lemma C5_active_message_counterexample :
  containsToday (dateUTC 2024 6 1) (dateUTC 2024 1 1) None ∧
  ongoingTenancy ∈ leaseTenants (tenancyDb [ongoingTenancy]) ∧
  containsToday (dateUTC 2024 6 1) (LeaseTenant.periodStart ongoingTenancy)
    (LeaseTenant.periodEnd ongoingTenancy) ∧
  createLeaseTenant (tenancyDb [ongoingTenancy]) (dateUTC 2024 6 1) "lt2"
    (InsertLeaseTenant.mk "L" "t2" "org" (dateUTC 2024 1 1) None)
  ≠ inl activeMessage.
Proof.
  split_and!.
  - split; [by vm_compute | done].
  - left.
  - split; [by vm_compute | done].
  - by vm_compute.
Qed.

(** C5 (amended): when the candidate and a record of its lease both
    contain today, the creation is refused; the error is the overlap
    error whenever today is not after 2099-12-31, and the active-tenant
    error otherwise at the latest. *)
Theorem C5_active_tenant_rejected db today newId candidate existing :
  containsToday today (InsertLeaseTenant.periodStart candidate)
    (InsertLeaseTenant.periodEnd candidate) →
  existing ∈ leaseTenants db →
  LeaseTenant.leaseId existing = InsertLeaseTenant.leaseId candidate →
  containsToday today (LeaseTenant.periodStart existing)
    (LeaseTenant.periodEnd existing) →
  (createLeaseTenant db today newId candidate = inl overlapMessage ∨
   createLeaseTenant db today newId candidate = inl activeMessage) ∧
  (today ≤ endOfTime →
   createLeaseTenant db today newId candidate = inl overlapMessage).
Proof.
  intros Hcand Hin Hlease Hex. split.
  - unfold createLeaseTenant.
    destruct (checkOverlap_cases (InsertLeaseTenant.periodStart candidate)
                (InsertLeaseTenant.periodEnd candidate)
                (filter (λ e, LeaseTenant.leaseId e
                              = InsertLeaseTenant.leaseId candidate)
                   (leaseTenants db))) as [[-> _]|[-> _]]; [by left|].
    right. apply isCurrent_spec in Hcand as ->. simpl.
    assert (existing ∈
              filter (λ tenant, isCurrent today (LeaseTenant.periodStart tenant)
                                  (LeaseTenant.periodEnd tenant))
                (filter (λ e, LeaseTenant.leaseId e
                              = InsertLeaseTenant.leaseId candidate)
                   (leaseTenants db))) as Hact.
    { apply list_elem_of_filter. split.
      - apply Is_true_true. by apply isCurrent_spec.
      - by apply list_elem_of_filter. }
    destruct (filter _ (filter _ _)); [by apply not_elem_of_nil in Hact | done].
  - intros Htoday. apply (createLeaseTenant_overlap _ _ _ _ existing); [done..|].
    destruct Hcand as [Hs He], Hex as [Hs' He'].
    unfold overlaps, overlapsDates.
    destruct (InsertLeaseTenant.periodEnd candidate) as [e|],
             (LeaseTenant.periodEnd existing) as [e'|]; simpl;
      try specialize (He _ eq_refl); try specialize (He' _ eq_refl); lia.
Qed.

(** The ongoing tenancy and a candidate that starts on 2024-01-01, seen
    on 2024-06-01. *)
Lemma C5_active_tenant_rejected_witness :
  createLeaseTenant (tenancyDb [ongoingTenancy]) (dateUTC 2024 6 1) "lt2"
    (InsertLeaseTenant.mk "L" "t2" "org" (dateUTC 2024 1 1) None)
  = inl overlapMessage.
Proof.
  apply (C5_active_tenant_rejected (tenancyDb [ongoingTenancy])
           (dateUTC 2024 6 1) "lt2"
           (InsertLeaseTenant.mk "L" "t2" "org" (dateUTC 2024 1 1) None)
           ongoingTenancy).
  - split; [by vm_compute | done].
  - left.
  - reflexivity.
  - split; [by vm_compute | done].
  - by vm_compute.
Defined.

(** After 2099-12-31 the second check is the one that fires. *)
Example active_message_after_endOfTime :
  createLeaseTenant (tenancyDb [ongoingTenancy]) (dateUTC 2100 3 1) "lt2"
    (InsertLeaseTenant.mk "L" "t2" "org" (dateUTC 2100 2 1) None)
  = inl activeMessage.
Proof. reflexivity. Qed.

(** ** The ownership bound and the relation routes *)

Section OwnershipBound.

Implicit Types (db : Database) (r : CompanyRelation.t).

Lemma sumHundredths_cons r (rows : list CompanyRelation.t) :
  sumHundredths (r :: rows)
  = CompanyRelation.ownershipPercentage r + sumHundredths rows.
Proof. reflexivity. Qed.

Lemma sumHundredths_filter_le (P1 P2 : CompanyRelation.t → Prop)
    `{!∀ r, Decision (P1 r), !∀ r, Decision (P2 r)}
    (rows : list CompanyRelation.t) :
  Forall (λ r, 0 ≤ CompanyRelation.ownershipPercentage r) rows →
  sumHundredths (filter P1 (filter P2 rows)) ≤ sumHundredths (filter P1 rows).
Proof.
  induction 1 as [|r rows Hr _ IH]; [done|].
  rewrite !(filter_cons _ r).
  destruct (decide (P2 r)), (decide (P1 r));
    rewrite ?(filter_cons _ r); repeat case_decide; try done;
    rewrite ?sumHundredths_cons; lia.
Qed.

(** Deleting a relation cannot raise a total. *)
Lemma DELETE_keeps_bound db session id response db' :
  Forall (λ r, 0 ≤ CompanyRelation.ownershipPercentage r)
    (companyRelations db) →
  ownershipBounded db →
  DELETE_api_company_relations db session id = (response, db') →
  ownershipBounded db'.
Proof.
  intros Hpos Hb. unfold DELETE_api_company_relations, withWriteAccess.
  repeat (case_match; try (intros [= <- <-]; assumption)).
  intros [= <- <-] c. specialize (Hb c).
  unfold incomingTotal, getParentRelations, deleteCompanyRelation in *.
  simpl. etrans; [|exact Hb]. by apply sumHundredths_filter_le.
Qed.

End OwnershipBound.

Lemma boundDb_bounded : ownershipBounded boundDb.
Proof.
  intros c. unfold incomingTotal, getParentRelations, boundDb. simpl.
  rewrite !filter_cons, filter_nil. simpl.
  case_decide; vm_compute; discriminate.
Qed.

(** C1 (the code at the failing input): company C is owned 60% by A and
    40% by B.  The update route accepts raising the share of A to 100%
    without looking at the share of B, and the incoming total of C
    becomes 140.00. *)
Theorem C1_update_breaks_bound :
  ownershipBounded boundDb ∧
  ∃ db',
    PUT_api_company_relations boundDb (Some "u-admin") "r1" (Some 100%float)
      = (json (Some (CompanyRelation.mk "r1" "A" "C" 10000)), db') ∧
    companyRelations db' = [CompanyRelation.mk "r1" "A" "C" 10000;
                            CompanyRelation.mk "r2" "B" "C" 4000] ∧
    incomingTotal db' "C" = 14000 ∧
    ¬ ownershipBounded db'.
Proof.
  split; [exact boundDb_bounded|].
  eexists. split; [by vm_compute|]. split; [done|].
  split; [by vm_compute|].
  intros H. specialize (H "C"). vm_compute in H. by apply H.
Qed.

(** The create route refuses the same total (scenario 4 of the
    specification: 60% on top of 50%). *)
Example POST_refuses_excess :
  POST_api_company_relations
    (setCompanyRelations boundDb [CompanyRelation.mk "r2" "B" "C" 5000])
    (Some "u-admin") "r3"
    {| body_parentCompanyId := Some "A"; body_childCompanyId := Some "C";
       body_ownershipPercentage := Some 60%float |}
  = (status 400
       "Den samlede ejerskabsprocent vil blive 110.0%, hvilket overskrider 100%. Der er allerede 50.0% ejerskab registreret.",
     setCompanyRelations boundDb [CompanyRelation.mk "r2" "B" "C" 5000]).
Proof. by vm_compute. Qed.

(** C7 (the code at the failing input): the administrator of the first
    organization updates, then deletes, the relation between two
    companies of the second organization; neither route answers 404 and
    both change the row. *)
Theorem C7_cross_organization_mutation :
  (User.organizationId <$> getCurrentUser crossOrgDb (Some "u1")) = Some "org1" ∧
  relationOrganizations crossOrgDb (CompanyRelation.mk "rX" "X" "Y" 5000)
    = ["org2"] ∧
  PUT_api_company_relations crossOrgDb (Some "u1") "rX" (Some 100%float)
    = (json (Some (CompanyRelation.mk "rX" "X" "Y" 10000)),
       setCompanyRelations crossOrgDb [CompanyRelation.mk "rX" "X" "Y" 10000]) ∧
  DELETE_api_company_relations crossOrgDb (Some "u1") "rX"
    = (json true, setCompanyRelations crossOrgDb []).
Proof. by vm_compute. Qed.

(** ** Algorithm B on acyclic graphs *)

Section WeightedStatistics.

Implicit Types (db : Database) (relations : list RelationRow).

Lemma calculateOwnershipFromRoot_unfold depth root target relations :
  calculateOwnershipFromRoot depth root target relations =
  if String.eqb root target then Some 1%float
  else
    foldl (λ (acc : option float) relation,
        acc ≫= λ totalOwnership,
        if String.eqb
             (CompanyRelation.childCompanyId (company_relations relation))
             target
        then Some (totalOwnership + share relation)%float
        else
          match depth with
          | O => None
          | S depth' =>
              calculateOwnershipFromRoot depth'
                (CompanyRelation.childCompanyId (company_relations relation))
                target relations
              ≫= λ indirectOwnership,
              Some (totalOwnership + share relation * indirectOwnership)%float
          end)
      (Some 0%float)
      (filter (λ r, CompanyRelation.parentCompanyId (company_relations r)
                    = root) relations).
Proof. destruct depth; reflexivity. Qed.

(** On an acyclic graph the recursion is no deeper than the rank of
    the root. *)
Lemma calculateOwnershipFromRoot_total rank depth relations root target :
  acyclicBy rank relations →
  (rank root ≤ depth)%nat →
  is_Some (calculateOwnershipFromRoot depth root target relations).
Proof.
  intros Hacyclic. revert root.
  induction depth as [|depth IH]; intros root Hrank;
    rewrite calculateOwnershipFromRoot_unfold;
    (destruct (String.eqb root target); [by eexists|]).
  - match goal with
    | |- is_Some (foldl ?step (Some ?a) ?l) =>
        destruct (foldl_option_inv
                    (λ totalOwnership relation,
                       step (Some totalOwnership) relation)
                    (λ _, True) l a I) as (w & Hw & _)
    end.
    + intros total r Hr%list_elem_of_filter _. destruct Hr as [Hparent Hr].
      apply Hacyclic in Hr. rewrite Hparent in Hr. lia.
    + exists w. exact Hw.
  - match goal with
    | |- is_Some (foldl ?step (Some ?a) ?l) =>
        destruct (foldl_option_inv
                    (λ totalOwnership relation,
                       step (Some totalOwnership) relation)
                    (λ _, True) l a I) as (w & Hw & _)
    end.
    + intros total r Hr%list_elem_of_filter _. destruct Hr as [Hparent Hr].
      apply Hacyclic in Hr. rewrite Hparent in Hr. simpl.
      destruct (String.eqb _ target); [by eexists|].
      destruct (IH (CompanyRelation.childCompanyId (company_relations r)))
        as [w' ->]; [lia|]. by eexists.
    + exists w. exact Hw.
Qed.

Lemma filter_none {A} (P : A → Prop) `{!∀ x, Decision (P x)} (l : list A) :
  (∀ x, x ∈ l → ¬ P x) → filter P l = [].
Proof.
  induction l as [|x l IH]; intros Hno; [done|].
  rewrite filter_cons_False by (apply Hno; left).
  apply IH. intros ??. apply Hno. by right.
Qed.

(** A primary key selects at most one row. *)
Lemma filter_primary_key (rows : list Company.t) (c : string) :
  NoDup (Company.id <$> rows) →
  c ∈ Company.id <$> rows →
  ∃ owner, filter (λ row, Some (Company.id row) = Some c) rows = [owner] ∧
           Company.id owner = c.
Proof.
  induction rows as [|row rows IH]; [by intros _ ?%not_elem_of_nil|].
  rewrite fmap_cons, NoDup_cons, elem_of_cons, filter_cons.
  intros [Hfresh Hnd] Hin. case_decide as Hrow.
  - exists row. simplify_eq. split; [|done]. f_equal.
    apply filter_none. intros row' Hin' [= Heq].
    apply Hfresh, list_elem_of_fmap. eauto.
  - destruct Hin as [->|Hin]; [done|]. by apply IH.
Qed.

Lemma joinRows_spec db p :
  companiesIntegrity db → p ∈ properties db →
  match Property.ownerCompanyId p with
  | None => joinRows db p = [(p, None)]
  | Some c => ∃ owner, joinRows db p = [(p, Some owner)] ∧ Company.id owner = c
  end.
Proof.
  intros [Hnd Hfk] Hp. unfold joinRows.
  destruct (Property.ownerCompanyId p) as [c|] eqn:Hc.
  - destruct (filter_primary_key (companies db) c Hnd (Hfk p c Hp Hc))
      as (owner & -> & Hid). eauto.
  - by rewrite filter_none.
Qed.

(** The first loop computes the two sums over the owned properties. *)
Lemma weightedTotals_sums depth root relations db (weight : string → float)
    (ps : list Property.t) (start : float * float) :
  (∀ c, calculateOwnershipFromRoot depth root c relations = Some (weight c)) →
  companiesIntegrity db →
  (∀ p, p ∈ ps → p ∈ properties db) →
  let owned :=
    ps ≫= λ p, match Property.ownerCompanyId p with
               | Some c => [(p, c)]
               | None => []
               end in
  foldl (λ (acc : option (float * float)) row,
      acc ≫= λ totals,
      match row.2 with
      | None => Some totals
      | Some ownerCompany =>
          calculateOwnershipFromRoot depth root (Company.id ownerCompany)
            relations
          ≫= λ ownershipWeight,
          Some ((totals.1 + ownershipWeight)%float,
                (totals.2
                 + Double.parseFloat (Property.acquisitionPrice row.1)
                   * ownershipWeight)%float)
      end)
    (Some start) (ps ≫= joinRows db)
  = Some (foldl (λ total pc, (total + weight pc.2)%float) start.1 owned,
          foldl (λ total pc,
                   (total + Double.parseFloat (Property.acquisitionPrice pc.1)
                            * weight pc.2)%float) start.2 owned).
Proof.
  intros Hw Hint. revert start.
  induction ps as [|p ps IH]; intros start Hps.
  - by destruct start.
  - cbv zeta. rewrite !bind_cons, !foldl_app.
    pose proof (joinRows_spec db p Hint (Hps p ltac:(left))) as Hrow.
    destruct (Property.ownerCompanyId p) as [c|].
    + destruct Hrow as (owner & -> & <-). simpl. rewrite Hw. simpl.
      apply (IH (_, _)). intros; apply Hps; by right.
    + rewrite Hrow. simpl. apply IH. intros; apply Hps; by right.
Qed.

Lemma findLatest_total depth root relations rows :
  (∀ c, is_Some (calculateOwnershipFromRoot depth root c relations)) →
  is_Some (findLatest depth root relations rows).
Proof.
  intros Hw. induction rows as [|[p [owner|]] rows IH]; simpl;
    [by eexists | | done].
  destruct (Hw (Company.id owner)) as [w ->]. simpl.
  destruct (Double.gtb w 0); [by eexists | done].
Qed.

Lemma weightedLeaseTotals_total depth root relations rows allLeases :
  (∀ c, is_Some (calculateOwnershipFromRoot depth root c relations)) →
  is_Some (weightedLeaseTotals depth root relations rows allLeases).
Proof.
  intros Hw. unfold weightedLeaseTotals.
  match goal with
  | |- is_Some (foldl ?step (Some ?a) ?l) =>
      destruct (foldl_option_inv
                  (λ totals lease, step (Some totals) lease)
                  (λ _, True) l a I) as (t & Ht & _)
  end.
  - intros totals lease _ _. simpl.
    destruct (head _ ≫= snd) as [owner|]; [|by eexists].
    destruct (Hw (Company.id owner)) as [w ->]. simpl.
    destruct (Double.gtb w 0); by eexists.
  - exists t. exact Ht.
Qed.

Lemma getLeases_total db organizationId userId :
  is_Some (getLeases db organizationId userId).
Proof.
  unfold getLeases. destruct (negb (truthy userId)); [by eexists|].
  destruct (userId ≫= getUser db) as [u|]; [|by eexists].
  destruct (negb (truthy (User.assignedCompanyId u))); [by eexists|].
  destruct (getAccessibleCompanyIds_total db
              (default "" (User.assignedCompanyId u))) as (ids & -> & _).
  simpl. case_bool_decide; by eexists.
Qed.

(** The statistics of the weighted view on an acyclic graph. *)
Lemma calculateWeightedStats_sums depth db organizationId userId u root rank :
  getUser db userId = Some u →
  User.assignedCompanyId u = Some root → root ≠ "" →
  companiesIntegrity db →
  acyclicBy rank (relations_join_companies db organizationId) →
  (rank root ≤ depth)%nat →
  let relations := relations_join_companies db organizationId in
  let weight := weightFromRootTo depth relations root in
  (∀ c, calculateOwnershipFromRoot depth root c relations = Some (weight c)) ∧
  ∃ stats,
    calculateWeightedStats depth db organizationId userId = Some stats ∧
    Stats.count stats
    = round2 (sumDouble (λ pc, weight pc.2)
                (ownedProperties db organizationId)) ∧
    Stats.totalValue stats
    = Double.toString
        (Double.Math_round
           (sumDouble
              (λ pc, (Double.parseFloat (Property.acquisitionPrice pc.1)
                      * weight pc.2)%float)
              (ownedProperties db organizationId))).
Proof.
  intros Hu Hroot Hne Hint Hacyclic Hrank relations weight.
  assert (Hw : ∀ c, calculateOwnershipFromRoot depth root c relations
                    = Some (weight c)).
  { intros c. unfold weight, weightFromRootTo.
    by destruct (calculateOwnershipFromRoot_total rank depth relations root c
                   Hacyclic Hrank) as [w ->]. }
  split; [exact Hw|].
  unfold calculateWeightedStats. rewrite Hu, Hroot.
  rewrite (truthy_Some_true root Hne). simpl.
  fold relations.
  pose proof (weightedTotals_sums depth root relations db weight
                (filter (λ p, Property.organizationId p = organizationId)
                   (properties db)) (0%float, 0%float) Hw Hint) as Htotals.
  cbv zeta in Htotals. simpl in Htotals.
  specialize (Htotals ltac:(by intros p [_ ?]%list_elem_of_filter)).
  case_bool_decide as Hempty.
  - eexists. split; [done|]. simpl.
    unfold properties_leftJoin_companies in Hempty.
    apply nil_length_inv in Hempty. rewrite Hempty in Htotals.
    simpl in Htotals. injection Htotals as H1 H2.
    unfold ownedProperties, sumDouble. rewrite <- H1, <- H2.
    split; by vm_compute.
  - unfold weightedTotals, properties_leftJoin_companies. rewrite Htotals.
    simpl.
    destruct (findLatest_total depth root relations
                (sortByAcquisitionDate
                   (filter (λ p, Property.organizationId p = organizationId)
                      (properties db) ≫= joinRows db)))
      as [latest ->]; [by eauto|].
    simpl.
    destruct (getLeases_total db organizationId (Some userId)) as [ls ->].
    simpl.
    destruct (weightedLeaseTotals_total depth root relations
                (sortByAcquisitionDate
                   (filter (λ p, Property.organizationId p = organizationId)
                      (properties db) ≫= joinRows db)) ls)
      as [leaseTotals ->]; [by eauto|].
    simpl. eexists. split; [done|]. simpl. by unfold ownedProperties.
Qed.

End WeightedStatistics.

(** ** The claims on the dashboard statistics *)

(** C6 (as stated, the rounding).  A single property of 100.50 owned by
    the user's own company has weight 1 and the weighted value 100.5;
    the method reports "101", not a value of two decimals.  And with
    14.50 % of the company that owns a property of 100.00, the weight is
    the double 0.145, the count is reported as 0.14 and the value as
    "14", where the exact sums, 0.145 and 14.5, round to 0.15 and 15:
    the double nearest to 0.145 times 100 is 14.499999999999998. *)
Lemma C6_total_value_counterexample :
  (∃ stats,
     calculateWeightedStats 0 roundingDb "org" "u" = Some stats ∧
     sumDouble
       (λ pc, (Double.parseFloat (Property.acquisitionPrice pc.1)
               * weightFromRootTo 0
                   (relations_join_companies roundingDb "org") "A" pc.2)%float)
       (ownedProperties roundingDb "org") = 100.5%float ∧
     Stats.totalValue stats = "101") ∧
  (∃ stats,
     calculateWeightedStats 1 fractionDb "org" "u" = Some stats ∧
     weightFromRootTo 1 (relations_join_companies fractionDb "org") "A" "B"
     = 0.145%float ∧
     sumOverPaths 2 (relations_join_companies fractionDb "org") "A" "B"
     = (1450 # 10000)%Q ∧
     Stats.count stats = 0.14%float ∧
     Qfloor ((1450 # 10000) * 100 + (1 # 2))%Q = 15 ∧
     Stats.totalValue stats = "14" ∧
     Qfloor ((10000 # 100) * (1450 # 10000) + (1 # 2))%Q = 15 ∧
     Double.toString (0.145 * 100)%float = "14.499999999999998").
Proof.
  split; eexists; split_and!; by vm_compute.
Qed.

(** C6 (amended): for a user with an assigned root company, on a
    database that respects the key constraints and whose ownership graph
    is acyclic, and with a call depth of at least the rank of the root,
    Algorithm B returns a weight for every company and the weighted
    statistics are returned with: count = [Math.round(sum * 100) / 100]
    of the sum, over the properties of the organization that have an
    owning company, of the weight of the owner; totalValue = the text of
    [Math.round] of the sum of price times weight over the same
    properties.  Both sums are sums of doubles, added from 0 in the
    order of the rows, and only the final sums are rounded.  Properties
    without owner are not part of either sum. *)
Theorem C6_weighted_stats depth db organizationId userId u root rank :
  getUser db userId = Some u →
  User.assignedCompanyId u = Some root → root ≠ "" →
  companiesIntegrity db →
  acyclicBy rank (relations_join_companies db organizationId) →
  (rank root ≤ depth)%nat →
  (∀ c, calculateOwnershipFromRoot depth root c
          (relations_join_companies db organizationId)
        = Some (weightFromRootTo depth
                  (relations_join_companies db organizationId) root c)) ∧
  ∃ stats,
    calculateWeightedStats depth db organizationId userId = Some stats ∧
    Stats.count stats
    = round2 (sumDouble
                (λ pc, weightFromRootTo depth
                         (relations_join_companies db organizationId)
                         root pc.2)
                (ownedProperties db organizationId)) ∧
    Stats.totalValue stats
    = Double.toString
        (Double.Math_round
           (sumDouble
              (λ pc, (Double.parseFloat (Property.acquisitionPrice pc.1)
                      * weightFromRootTo depth
                          (relations_join_companies db organizationId)
                          root pc.2)%float)
              (ownedProperties db organizationId))).
Proof.
  intros Hu Hroot Hne Hint Hacyclic Hrank.
  exact (calculateWeightedStats_sums depth db organizationId userId u root rank
           Hu Hroot Hne Hint Hacyclic Hrank).
Qed.

Lemma demoDb_integrity : companiesIntegrity demoDb.
Proof.
  split.
  - apply (bool_decide_unpack _). by vm_compute.
  - intros p c Hp Hc. simpl in Hp.
    repeat (apply elem_of_cons in Hp as [->|Hp]);
      [..|by apply not_elem_of_nil in Hp]; simplify_eq/=;
      apply (bool_decide_unpack _); by vm_compute.
Qed.

Lemma demoDb_acyclic : acyclicBy demoRank (relations_join_companies demoDb "org").
Proof.
  intros r Hr.
  assert (relations_join_companies demoDb "org" = scenario1) as Heq
    by (by vm_compute).
  rewrite Heq in Hr. unfold scenario1 in Hr.
  repeat (apply elem_of_cons in Hr as [->|Hr]);
    [..|by apply not_elem_of_nil in Hr]; vm_compute; lia.
Qed.

(** Scenario 3 of the specification: the user rooted at A, the property
    of 1,000,000 owned by C. *)
Lemma C6_weighted_stats_witness :
  ∃ stats,
    calculateWeightedStats 2 demoDb "org" "u-user" = Some stats ∧
    Stats.count stats
    = round2 (sumDouble
                (λ pc, weightFromRootTo 2
                         (relations_join_companies demoDb "org") "A" pc.2)
                (ownedProperties demoDb "org")) ∧
    Stats.totalValue stats
    = Double.toString
        (Double.Math_round
           (sumDouble
              (λ pc, (Double.parseFloat (Property.acquisitionPrice pc.1)
                      * weightFromRootTo 2
                          (relations_join_companies demoDb "org")
                          "A" pc.2)%float)
              (ownedProperties demoDb "org"))).
Proof.
  apply (C6_weighted_stats 2 demoDb "org" "u-user"
           (demoUser "u-user" user (Some "A") weighted) "A" demoRank).
  - reflexivity.
  - reflexivity.
  - discriminate.
  - exact demoDb_integrity.
  - exact demoDb_acyclic.
  - vm_compute. lia.
Defined.

Example scenario3_weighted_stats :
  (Stats.count <$> calculateWeightedStats 2 demoDb "org" "u-user")
    = Some 0.3%float ∧
  (Stats.totalValue <$> calculateWeightedStats 2 demoDb "org" "u-user")
    = Some "300000".
Proof. by vm_compute. Qed.

(** On a cyclic graph Algorithm B exhausts every call depth and the
    route answers 500. *)
Example cyclic_graph_overflows depth :
  calculateOwnershipFromRoot depth "A" "C"
    [edge "r1" "A" "B" 5000; edge "r2" "B" "A" 5000] = None.
Proof.
  assert (∀ root, root = "A" ∨ root = "B" →
            calculateOwnershipFromRoot depth root "C"
              [edge "r1" "A" "B" 5000; edge "r2" "B" "A" 5000] = None) as H.
  { induction depth as [|depth IH]; intros root [-> | ->]; try (by vm_compute).
    - rewrite calculateOwnershipFromRoot_unfold. simpl.
      by rewrite (IH "B") by (by right).
    - rewrite calculateOwnershipFromRoot_unfold. simpl.
      by rewrite (IH "A") by (by left). }
  apply H. by left.
Qed.

(** C8 (the code at the failing input): a broker created with an
    assigned company gets the view mode "weighted" from [createUser];
    the dashboard route then answers with the weighted statistics, which
    differ from the total view of the same organization; and the
    preferences route lets a broker switch to "weighted". *)
Theorem C8_broker_gets_weighted_stats :
  createUser (setUsers demoDb (take 3 (users demoDb))) "u-broker"
    (InsertUser.mk "org" (Some broker) (Some "A"))
  = (demoUser "u-broker" broker (Some "A") weighted, demoDb) ∧
  GET_api_dashboard_stats 2 demoDb (Some "u-broker")
  = json (Stats.mk 0.3%float "300000"
            (Some (Property.mk "p-C" "org" (Some "C") 100000000
                     (Some 1700000000000) (Some 1700000000000)))
            (LeaseStats.mk 0.3%float "36")) ∧
  getPropertyStats demoDb "org"
  = Some (Stats.mk 3%float "1700000.00"
            (Some (Property.mk "p-D" "org" (Some "D") 20000000 None
                     (Some 1720000000000)))
            (LeaseStats.mk 3%float "260")) ∧
  (PUT_api_user_preferences
     (setUsers demoDb [demoUser "u-broker" broker (Some "A") total])
     (Some "u-broker") (Some "weighted")).1
  = json (demoUser "u-broker" broker (Some "A") weighted).
Proof. by vm_compute. Qed.

(** ** Further scenarios of the specification *)

(** Scenario 5: next to a tenancy that is ongoing since 2023-01-01, a
    tenancy from 2025-01-01 is refused; once the first one ends on
    2024-12-31 it is accepted. *)
Example scenario5_open_ended :
  createLeaseTenant (tenancyDb [ongoingTenancy]) (dateUTC 2024 6 1) "lt2"
    (InsertLeaseTenant.mk "L" "t2" "org" (dateUTC 2025 1 1) None)
  = inl overlapMessage ∧
  (∃ db', createLeaseTenant
             (tenancyDb [LeaseTenant.mk "lt1" "L" "t1" "org" (dateUTC 2023 1 1)
                           (Some (dateUTC 2024 12 31))])
             (dateUTC 2024 6 1) "lt2"
             (InsertLeaseTenant.mk "L" "t2" "org" (dateUTC 2025 1 1) None)
           = inr (db', LeaseTenant.mk "lt2" "L" "t2" "org" (dateUTC 2025 1 1)
                         None)).
Proof. split; [by vm_compute|]. eexists. by vm_compute. Qed.

(** Tenancies of other leases do not count. *)
Example other_lease_is_ignored :
  ∃ db', createLeaseTenant (tenancyDb [ongoingTenancy]) (dateUTC 2024 6 1)
           "lt2" (InsertLeaseTenant.mk "L2" "t2" "org" (dateUTC 2024 1 1) None)
         = inr (db', LeaseTenant.mk "lt2" "L2" "t2" "org" (dateUTC 2024 1 1)
                       None).
Proof. eexists. by vm_compute. Qed.

(** An admin and a broker are listed every property of the organization. *)
Example demo_listing_of_admin_and_broker :
  (∃ ps, GET_api_properties demoDb (Some "u-admin") = json ps ∧ length ps = 3%nat) ∧
  (∃ ps, GET_api_properties demoDb (Some "u-broker") = json ps ∧ length ps = 3%nat).
Proof. split; eexists; split; by vm_compute. Qed.

(** A broker may not write relations. *)
Example broker_is_read_only :
  DELETE_api_company_relations demoDb (Some "u-broker") "r1"
  = (status 403 "Kun læseadgang (Mægler)", demoDb).
Proof. by vm_compute. Qed.

(* ===================================================================== *)
(** * Further properties of the code *)

(** ** Algorithm B: positive weights, cycles, and Algorithm A *)

Section WeightFacts.

Implicit Types (relations : list RelationRow).

Lemma inert_add_mul (total x w : float) :
  inert total → inert w → inert (total + x * w)%float.
Proof.
  unfold inert. rewrite add_spec, mul_spec.
  intros [-> | ->] [-> | ->]; destruct (Prim2SF x) as [[]|[]| |[] ? ?];
    simpl; first [by left | by right].
Qed.

Lemma inert_not_positive (w : float) : inert w → Double.gtb w 0 = false.
Proof.
  unfold Double.gtb. rewrite ltb_spec. by intros [-> | ->].
Qed.

(** The invariant of the loop of Algorithm B: as long as no relation
    handled so far leads on to the target, the running total is inert. *)
Lemma weight_inert_or_reachable depth relations root target w :
  calculateOwnershipFromRoot depth root target relations = Some w →
  inert w ∨ rtc (ownsIn relations) root target.
Proof.
  revert root w.
  assert (∀ root w (rows : list RelationRow),
            rows = outgoing relations root →
            inert w ∨
            (∃ r, r ∈ rows ∧
                  rtc (ownsIn relations)
                    (CompanyRelation.childCompanyId (company_relations r))
                    target) →
            inert w ∨ rtc (ownsIn relations) root target) as Hloop.
  { intros root w rows -> [Hw | (r & [Hp Hr]%list_elem_of_filter & Hreach)];
      [by left | right].
    eapply rtc_l; [|exact Hreach]. by exists r. }
  induction depth as [|depth IH]; intros root w;
    rewrite calculateOwnershipFromRoot_unfold;
    (destruct (String.eqb root target) eqn:Heq;
     [apply String.eqb_eq in Heq as ->; intros _; right; apply rtc_refl |]);
    clear Heq; intros Hrun; apply (Hloop root w _ eq_refl);
    match type of Hrun with
    | foldl ?step (Some ?a) ?l = Some _ =>
        apply (foldl_option_post
                 (λ total r, step (Some total) r)
                 (λ pre total,
                    inert total ∨
                    ∃ r, r ∈ pre ∧
                         rtc (ownsIn relations)
                           (CompanyRelation.childCompanyId
                              (company_relations r)) target)
                 l a w); [| |exact Hrun]
    end.
  - left. by left.
  - intros pre r total total' _ Hinv. simpl.
    destruct (String.eqb _ target) eqn:Hc; [|done].
    apply String.eqb_eq in Hc. intros _. right.
    exists r. split; [set_solver|]. rewrite Hc. apply rtc_refl.
  - left. by left.
  - intros pre r total total' _ Hinv. simpl.
    destruct (String.eqb _ target) eqn:Hc.
    + apply String.eqb_eq in Hc. intros _. right.
      exists r. split; [set_solver|]. rewrite Hc. apply rtc_refl.
    + destruct (calculateOwnershipFromRoot depth _ target relations)
        as [w'|] eqn:Hw'; [|done].
      simpl. intros [= <-].
      destruct (IH _ _ Hw') as [Hinert | Hreach];
        [|right; exists r; split; [set_solver | done]].
      destruct Hinv as [Htotal | (r' & Hr' & Hreach)];
        [left; by apply inert_add_mul
        | right; exists r'; split; [set_solver | done]].
Qed.

(** X1: a positive weight that Algorithm B returns comes with a path:
    the target can be reached from the root along the edges of the
    relation list, whatever the stored percentages are. *)
Theorem positive_weight_is_reachable depth relations root target w :
  calculateOwnershipFromRoot depth root target relations = Some w →
  Double.gtb w 0 = true →
  rtc (ownsIn relations) root target.
Proof.
  intros Hrun Hpos.
  destruct (weight_inert_or_reachable _ _ _ _ _ Hrun) as [Hinert|]; [|done].
  apply inert_not_positive in Hinert. congruence.
Qed.

End WeightFacts.

(** On the chain A -> B -> C the weight of C from A is positive and C is
    reachable from A. *)
Lemma positive_weight_is_reachable_witness :
  calculateOwnershipFromRoot 1 "A" "C" scenario1 = Some 0.3%float ∧
  rtc (ownsIn scenario1) "A" "C".
Proof.
  split; [by vm_compute|].
  apply (positive_weight_is_reachable 1 scenario1 "A" "C" 0.3%float);
    by vm_compute.
Defined.

Section Divergence.

Implicit Types (relations : list RelationRow).

(** A monadic left fold fails as soon as one step fails. *)
Lemma foldl_option_stuck {A B} (f : A → B → option A) (l : list B) (b : B)
    (start : option A) :
  b ∈ l → (∀ a, f a b = None) →
  foldl (λ acc b, acc ≫= λ a, f a b) start l = None.
Proof.
  intros Hin Hb. revert start.
  induction l as [|b' l IH]; intros start; [by apply not_elem_of_nil in Hin|].
  apply elem_of_cons in Hin as [<-|Hin]; simpl.
  - destruct start as [a|]; simpl; [rewrite Hb|]; apply foldl_option_None.
  - by apply IH.
Qed.

(** From inside a trap every call needs a nested call. *)
Lemma trapped_None depth relations root target (companies : string → Prop) :
  trapped relations target companies →
  companies root →
  calculateOwnershipFromRoot depth root target relations = None.
Proof.
  intros Htrap. revert root.
  induction depth as [|depth IH]; intros root Hroot;
    destruct (Htrap root Hroot) as (Hne & b & Hb & r & Hr & Hp & Hc);
    destruct (Htrap b Hb) as (Hbne & _);
    rewrite calculateOwnershipFromRoot_unfold;
    apply String.eqb_neq in Hne as ->;
    match goal with
    | |- foldl ?step (Some ?a) ?l = None =>
        apply (foldl_option_stuck (λ total r, step (Some total) r) l r)
    end;
    try (by apply list_elem_of_filter);
    intros total; simpl; rewrite Hc;
    apply String.eqb_neq in Hbne as ->; [done|].
  by rewrite (IH b Hb).
Qed.

(** X2: when the root lies in a set of companies that does not hold the
    target and that every member has an edge back into (a cycle, or a
    company that owns a share of itself), Algorithm B returns at no call
    depth. *)
Theorem calculateOwnershipFromRoot_diverges depth relations root target
    (companies : string → Prop) :
  trapped relations target companies →
  companies root →
  calculateOwnershipFromRoot depth root target relations = None.
Proof. apply trapped_None. Qed.

End Divergence.

(** A company that owns 10% of itself, asked for another company. *)
Lemma calculateOwnershipFromRoot_diverges_witness :
  calculateOwnershipFromRoot 7 "A" "B" [edge "r1" "A" "A" 1000] = None.
Proof.
  apply (calculateOwnershipFromRoot_diverges 7 [edge "r1" "A" "A" 1000]
           "A" "B" (λ c, c = "A")); [|reflexivity].
  intros a ->. split; [discriminate|].
  exists "A". split; [reflexivity|].
  exists (edge "r1" "A" "A" 1000). split; [left | split; reflexivity].
Defined.

(** X3: the two algorithms do not agree on who counts.  On a chain of
    81 relations of 0.01 % each, Algorithm A still lists the last
    company for the first one, at the weight 1e-322, while the weight
    that Algorithm B returns for it has run below the smallest double
    and is 0. *)
Theorem algorithms_disagree_on_a_long_chain :
  positivePercentages (chainDb 81) ∧
  reachableFrom (chainDb 81) "c0" "c81" ∧
  (∃ ids, getAccessibleCompanyIds (chainDb 81) "c0" = Some ids ∧ "c81" ∈ ids) ∧
  calculateOwnershipFromRoot 81 "c0" "c81"
    (relations_join_companies (chainDb 81) "org") = Some 0%float.
Proof.
  split; [apply chain_positive|].
  split; [apply (chain_reachable 81 81); lia|].
  split; [|by vm_compute].
  eexists. split; [vm_compute; reflexivity|].
  apply (bool_decide_unpack _). by vm_compute.
Qed.

(** ** Tenancies: the invariant that creation keeps *)

Section TenancyInvariant.

Implicit Types (db : Database) (rows : list LeaseTenant.t).

Lemma overlapRows_sym a b : overlapRows a b → overlapRows b a.
Proof. unfold overlapRows, overlapsDates. lia. Qed.


Lemma getStatusBadge_Aktiv now tenant :
  getStatusBadge now tenant = Aktiv ↔
  isCurrent now (LeaseTenant.periodStart tenant) (LeaseTenant.periodEnd tenant)
  = true.
Proof.
  unfold getStatusBadge, isCurrent.
  destruct (LeaseTenant.periodEnd tenant) as [e|];
    destruct (Z.gtb_spec (LeaseTenant.periodStart tenant) now);
    destruct (Z.leb_spec (LeaseTenant.periodStart tenant) now);
    try lia; simpl; try destruct (e >=? now); naive_solver.
Qed.

(** X5: the status shown on the lease page is "Aktiv" exactly for the
    tenancies that the server counts as current, and in a table without
    overlap no lease shows two tenancies as "Aktiv" at any instant up to
    2099-12-31. *)
Theorem at_most_one_Aktiv rows now (i j : nat) a b :
  tenanciesDisjoint rows →
  now ≤ endOfTime →
  i ≠ j → rows !! i = Some a → rows !! j = Some b →
  LeaseTenant.leaseId a = LeaseTenant.leaseId b →
  (getStatusBadge now a = Aktiv ↔
   isCurrent now (LeaseTenant.periodStart a) (LeaseTenant.periodEnd a) = true) ∧
  ¬ (getStatusBadge now a = Aktiv ∧ getStatusBadge now b = Aktiv).
Proof.
  intros Hdis Hnow Hij Ha Hb Hlease. split; [apply getStatusBadge_Aktiv|].
  intros [Hsa Hsb]. apply (Hdis i j a b Hij Ha Hb Hlease).
  apply getStatusBadge_Aktiv, isCurrent_spec in Hsa as [Hs He].
  apply getStatusBadge_Aktiv, isCurrent_spec in Hsb as [Hs' He'].
  unfold overlapRows, overlapsDates.
  destruct (LeaseTenant.periodEnd a) as [e|],
           (LeaseTenant.periodEnd b) as [e'|]; simpl;
    try specialize (He _ eq_refl); try specialize (He' _ eq_refl); lia.
Qed.

End TenancyInvariant.


Lemma two_tenancies_disjoint :
  tenanciesDisjoint
    [LeaseTenant.mk "lt1" "L" "t1" "org" (dateUTC 2023 1 1)
       (Some (dateUTC 2023 12 31));
     LeaseTenant.mk "lt2" "L" "t2" "org" (dateUTC 2024 1 1) None].
Proof.
  intros [|[|[|i]]] [|[|[|j]]] a b Hij Ha Hb _; simplify_eq/=;
    unfold overlapRows, overlapsDates; vm_compute; intros [H1 H2];
    (by apply H1) || (by apply H2).
Qed.

(** The tenancy of 2023 and the ongoing one of 2024, seen on 2024-06-01. *)
Lemma at_most_one_Aktiv_witness :
  ¬ (getStatusBadge (dateUTC 2024 6 1)
       (LeaseTenant.mk "lt1" "L" "t1" "org" (dateUTC 2023 1 1)
          (Some (dateUTC 2023 12 31))) = Aktiv ∧
     getStatusBadge (dateUTC 2024 6 1)
       (LeaseTenant.mk "lt2" "L" "t2" "org" (dateUTC 2024 1 1) None) = Aktiv).
Proof.
  apply (at_most_one_Aktiv _ (dateUTC 2024 6 1) 0 1 _ _ two_tenancies_disjoint).
  - vm_compute. discriminate.
  - lia.
  - reflexivity.
  - reflexivity.
  - reflexivity.
Defined.

(** ** Relation routes: what they keep and whom they refuse *)

Section RelationRoutes.

Implicit Types (db : Database).

(** X7: a caller who is not signed in, or whose role is broker, changes
    nothing through the relation routes and is answered 401 or 403. *)
Theorem relation_routes_refuse_readers db session :
  (∀ u, getCurrentUser db session = Some u → User.role u = broker) →
  (∀ newId body,
      ∃ code message,
        (code = 401 ∨ code = 403) ∧
        POST_api_company_relations db session newId body
        = (status code message, db)) ∧
  (∀ id pct,
      ∃ code message,
        (code = 401 ∨ code = 403) ∧
        PUT_api_company_relations db session id pct
        = (status code message, db)) ∧
  (∀ id,
      ∃ code message,
        (code = 401 ∨ code = 403) ∧
        DELETE_api_company_relations db session id
        = (status code message, db)).
Proof.
  intros Hreader.
  assert (∀ A (handler : User.t → Outcome A),
            ∃ code message,
              (code = 401 ∨ code = 403) ∧
              withWriteAccess db session handler = (status code message, db))
    as Hrefused.
  { intros A handler. unfold withWriteAccess.
    destruct (negb (truthy session)); [by eexists _, _; split; [left|]|].
    destruct (getCurrentUser db session) as [u|] eqn:Hu;
      [|by eexists _, _; split; [right|]].
    unfold canWrite. rewrite (Hreader u eq_refl).
    rewrite bool_decide_eq_false_2 by (by intros [|]).
    by eexists _, _; split; [right|]. }
  split_and!; intros; apply Hrefused.
Qed.

End RelationRoutes.

(** ** A company that owns a share of itself *)

Section SelfOwnership.

(** Inside the range that the create route asks for, [parseFloat] gives
    the number back. *)
Lemma parseFloat_number_in_range (pct : float) :
  PrimFloat.ltb pct 0.01 || Double.gtb pct 100 = false →
  Double.parseFloat_number pct = pct.
Proof.
  unfold Double.parseFloat_number, Double.gtb. rewrite !ltb_spec.
  by destruct (Prim2SF pct) as [[|]| | |].
Qed.

(** X8: the create route accepts a relation whose parent and child are
    the same company as soon as its own tests pass: the percentage is
    neither below 0.01 nor above 100, and the total that the handler
    adds up in doubles is not above 100.  From then on Algorithm B,
    started at that company, returns for no other target at any call
    depth.  [stored] is the value that the column keeps. *)
Theorem POST_accepts_self_ownership db session u newId c pct stored :
  getCurrentUser db session = Some u →
  canWrite u = true →
  c ≠ "" →
  is_Some (getCompany db c (User.organizationId u)) →
  PrimFloat.ltb pct 0.01 || Double.gtb pct 100 = false →
  Double.gtb (currentTotalPercentage db c + pct) 100 = false →
  Double.toNumeric 5 pct = Some stored →
  ∃ db',
    POST_api_company_relations db session newId
      {| body_parentCompanyId := Some c; body_childCompanyId := Some c;
         body_ownershipPercentage := Some pct |}
    = (json (CompanyRelation.mk newId c c stored), db') ∧
    ∀ depth target,
      target ≠ c →
      calculateOwnershipFromRoot depth c target
        (relations_join_companies db' (User.organizationId u)) = None.
Proof.
  intros Hu Hwrite Hne [company Hcompany] Hrange Hfits Hstored.
  unfold POST_api_company_relations, withWriteAccess.
  rewrite Hu. apply getCurrentUser_Some in Hu as (-> & _ & _).
  rewrite Hwrite. simpl. rewrite (proj2 (String.eqb_neq c "") Hne). simpl.
  rewrite Hrange, Hcompany, (parseFloat_number_in_range pct Hrange), Hfits.
  unfold createCompanyRelation. rewrite Hstored. simpl.
  eexists. split; [reflexivity|].
  intros depth target Htarget.
  apply (trapped_None depth _ c target (λ x, x = c));
    [|done].
  intros a ->. split; [done|]. exists c. split; [done|].
  exists {| company_relations := CompanyRelation.mk newId c c stored;
            companies_row := company |}.
  split; [|done]. unfold relations_join_companies. simpl.
  apply list_elem_of_bind. eexists. split; [|apply elem_of_app; right; left].
  apply list_elem_of_bind. exists company. split; [left|]. simpl.
  unfold getCompany in Hcompany. apply head_Some_elem_of in Hcompany.
  by apply list_elem_of_filter in Hcompany as [[??] ?];
    apply list_elem_of_filter.
Qed.

End SelfOwnership.

(** The administrator of the demonstration data lets D own 10% of D. *)
Lemma POST_accepts_self_ownership_witness :
  ∃ db',
    POST_api_company_relations demoDb (Some "u-admin") "r9"
      {| body_parentCompanyId := Some "D"; body_childCompanyId := Some "D";
         body_ownershipPercentage := Some 10%float |}
    = (json (CompanyRelation.mk "r9" "D" "D" 1000), db') ∧
    ∀ depth target,
      target ≠ "D" →
      calculateOwnershipFromRoot depth "D" target
        (relations_join_companies db' "org") = None.
Proof.
  apply (POST_accepts_self_ownership demoDb (Some "u-admin")
           (demoUser "u-admin" admin None total) "r9" "D" 10%float 1000).
  - reflexivity.
  - reflexivity.
  - discriminate.
  - vm_compute. by eexists.
  - vm_compute. reflexivity.
  - vm_compute. reflexivity.
  - vm_compute. reflexivity.
Defined.

(** The total of the create route is a sum of doubles: with 0.01 % and
    65.40 % of a company held, a further 34.59 % is refused, the total
    being 100.00000000000001. *)
Example POST_refuses_a_full_total :
  POST_api_company_relations
    (setCompanyRelations boundDb [CompanyRelation.mk "r1" "A" "C" 1;
                                  CompanyRelation.mk "r2" "B" "C" 6540])
    (Some "u-admin") "r3"
    {| body_parentCompanyId := Some "C"; body_childCompanyId := Some "C";
       body_ownershipPercentage := Some 34.59%float |}
  = (status 400
       "Den samlede ejerskabsprocent vil blive 100.0%, hvilket overskrider 100%. Der er allerede 65.4% ejerskab registreret.",
     setCompanyRelations boundDb [CompanyRelation.mk "r1" "A" "C" 1;
                                  CompanyRelation.mk "r2" "B" "C" 6540]).
Proof. by vm_compute. Qed.

(** ** User administration *)

Section UserAdministration.

Implicit Types (db : Database) (u : User.t).

Lemma key_inj {A} (key : A → string) (l : list A) x y :
  NoDup (key <$> l) → x ∈ l → y ∈ l → key x = key y → x = y.
Proof.
  induction l as [|z l IH]; [by intros _ ?%not_elem_of_nil|].
  rewrite fmap_cons, NoDup_cons.
  intros [Hz Hnd] [->|Hx]%elem_of_cons [->|Hy]%elem_of_cons Hkey; try done.
  - destruct Hz. rewrite Hkey. by apply list_elem_of_fmap_2.
  - destruct Hz. rewrite <- Hkey. by apply list_elem_of_fmap_2.
  - by apply IH.
Qed.

Lemma another_element `{EqDecision A} (l : list A) (x : A) :
  NoDup l → x ∈ l → length l ≠ 1%nat → ∃ y, y ∈ l ∧ y ≠ x.
Proof.
  destruct l as [|a [|b l]]; [by intros _ ?%not_elem_of_nil | done |].
  intros [Hab _]%NoDup_cons _ _. destruct (decide (a = x)) as [->|Hne].
  - exists b. split; [set_solver|]. intros ->. apply Hab. by left.
  - exists a. split; [set_solver | done].
Qed.

(** Whoever holds a session is a row of the table. *)
Lemma getCurrentUser_elem db session u :
  getCurrentUser db session = Some u → u ∈ users db.
Proof.
  intros (_ & _ & Hget)%getCurrentUser_Some. unfold getUser in Hget.
  apply head_Some_elem_of in Hget. by apply list_elem_of_filter in Hget as [_ ?].
Qed.

(** An administrator who is not the only one has a colleague with
    another id. *)
Lemma another_admin db u :
  NoDup (User.id <$> users db) →
  u ∈ users db → User.role u = admin →
  adminCount db (User.organizationId u) ≠ 1%nat →
  ∃ a, a ∈ users db ∧ User.role a = admin ∧
       User.organizationId a = User.organizationId u ∧
       User.id a ≠ User.id u.
Proof.
  intros Hnd Hu Hrole Hcount. unfold adminCount, getUsersInOrganization in Hcount.
  destruct (another_element
              (filter (λ x, User.role x = admin)
                 (filter (λ x, User.organizationId x = User.organizationId u)
                    (users db))) u) as (a & Ha & Hne); [| |done|].
  { apply NoDup_filter, NoDup_filter. by eapply NoDup_fmap_1. }
  { apply list_elem_of_filter. split; [done|]. by apply list_elem_of_filter. }
  apply list_elem_of_filter in Ha as [Harole Ha].
  apply list_elem_of_filter in Ha as [Haorg Ha].
  exists a. split_and!; try done.
  intros Hid. apply Hne. by apply (key_inj User.id (users db)).
Qed.

(** X9: a deletion that the route carries out removes exactly the rows
    with the requested id, which belong to the caller's organization,
    and leaves that organization with an administrator. *)
Theorem DELETE_api_users_keeps_admin db session u targetUserId db' :
  NoDup (User.id <$> users db) →
  getCurrentUser db session = Some u →
  DELETE_api_users db session targetUserId = (json true, db') →
  users db' = filter (λ x, User.id x ≠ targetUserId) (users db) ∧
  (∀ x, x ∈ users db → User.id x = targetUserId →
        User.organizationId x = User.organizationId u) ∧
  hasAdmin db' (User.organizationId u).
Proof.
  intros Hnd Hu. pose proof (getCurrentUser_elem _ _ _ Hu) as Hin.
  unfold DELETE_api_users, withWriteAccess. rewrite Hu.
  apply getCurrentUser_Some in Hu as (-> & _ & Hget). simpl.
  destruct (negb (canWrite u)); [done|].
  case_bool_decide as Hrole; [done|].
  destruct (bool_decide (targetUserId = User.id u)
            && bool_decide (adminCount db (User.organizationId u) = 1%nat))
    eqn:Hguard; [done|].
  unfold deleteUser.
  destruct (head (filter (λ x, User.id x = targetUserId) (users db)))
    as [t|] eqn:Ht; [|done].
  destruct (decide (User.organizationId t = User.organizationId u))
    as [Horg|Horg];
    [rewrite bool_decide_eq_false_2 by (by intros ?)
    |by rewrite bool_decide_eq_true_2].
  intros [= <-]. simpl. split; [done|]. split.
  - intros x Hx Hid. apply head_Some_elem_of, list_elem_of_filter in Ht as [Htid Ht].
    rewrite <- Horg. f_equal. apply (key_inj User.id (users db)); congruence.
  - apply andb_false_iff in Hguard as [Hself|Hcount].
    + apply bool_decide_eq_false in Hself.
      exists u. split_and!; [|done|done].
      apply list_elem_of_filter. split; [congruence | done].
    + apply bool_decide_eq_false in Hcount.
      destruct (decide (targetUserId = User.id u)) as [->|Hother].
      * destruct (another_admin db u Hnd Hin Hrole Hcount)
          as (a & Ha & Harole & Haorg & Hid).
        exists a. split_and!; [|done|done]. by apply list_elem_of_filter.
      * exists u. split_and!; [|done|done].
        apply list_elem_of_filter. split; [congruence | done].
Qed.

End UserAdministration.

Lemma demoDb_user_ids : NoDup (User.id <$> users demoDb).
Proof. apply (bool_decide_unpack _). by vm_compute. Qed.

(** The administrator of the demonstration data deletes a regular user. *)
Lemma DELETE_api_users_keeps_admin_witness :
  hasAdmin
    (setUsers demoDb
       [demoUser "u-admin" admin None total;
        demoUser "u-user" user (Some "A") weighted;
        demoUser "u-broker" broker (Some "A") weighted])
    "org".
Proof.
  refine (proj2 (proj2 (DELETE_api_users_keeps_admin demoDb (Some "u-admin")
                          (demoUser "u-admin" admin None total) "u-free" _
                          demoDb_user_ids _ _))).
  - reflexivity.
  - vm_compute. reflexivity.
Defined.

Section UserUpdates.

Implicit Types (db : Database) (u : User.t).

(** X10: an update that the route carries out, with any role but
    broker in the body, leaves the caller's organization with an
    administrator; rows with another id are not touched. *)
Theorem PUT_api_users_keeps_admin db session u targetUserId role
    assignedCompanyId updatedUser db' :
  NoDup (User.id <$> users db) →
  getCurrentUser db session = Some u →
  role ≠ Some broker →
  PUT_api_users db session targetUserId role assignedCompanyId
    = (json updatedUser, db') →
  hasAdmin db' (User.organizationId u) ∧
  User.id updatedUser = targetUserId ∧
  (∀ x, x ∈ users db → User.id x ≠ targetUserId → x ∈ users db').
Proof.
  intros Hnd Hu Hbroker. pose proof (getCurrentUser_elem _ _ _ Hu) as Hin.
  unfold PUT_api_users. rewrite Hu.
  apply getCurrentUser_Some in Hu as (-> & _ & Hget). simpl.
  case_bool_decide as Hrole; [done|].
  destruct (bool_decide (targetUserId = User.id u) && bool_decide (role = Some user)
            && bool_decide (adminCount db (User.organizationId u) = 1%nat))
    eqn:Hguard; [done|].
  unfold updateUser.
  set (update := λ x : User.t,
         if bool_decide (User.id x = targetUserId)
         then User.mk (User.id x) (User.organizationId x)
                (default (User.role x) role)
                (if truthy assignedCompanyId then assignedCompanyId else None)
                (User.dashboardViewMode x)
         else x).
  destruct (head (filter (λ x, User.id x = targetUserId) (update <$> users db)))
    as [t|] eqn:Ht; [|done].
  intros [= <- <-]. simpl.
  assert (∀ x, x ∈ users db → User.id x ≠ targetUserId →
               x ∈ update <$> users db) as Hkept.
  { intros x Hx Hid. apply list_elem_of_fmap. exists x. split; [|done].
    unfold update. by rewrite bool_decide_eq_false_2. }
  split_and!; [|by apply head_Some_elem_of, list_elem_of_filter in Ht as [? _]
               |done].
  destruct (decide (targetUserId = User.id u)) as [->|Hother];
    [|exists u; split_and!; [apply Hkept; [done|congruence] | done | done]].
  destruct (decide (role = Some user)) as [->|Hnotuser].
  - rewrite !bool_decide_eq_true_2 in Hguard by done. simpl in Hguard.
    apply bool_decide_eq_false in Hguard.
    destruct (another_admin db u Hnd Hin Hrole Hguard)
      as (a & Ha & Harole & Haorg & Hid).
    exists a. split_and!; [by apply Hkept | done | done].
  - exists (update u). split_and!.
    + apply list_elem_of_fmap. by exists u.
    + unfold update. rewrite bool_decide_eq_true_2 by done. simpl.
      destruct role as [[]|]; done.
    + unfold update. by rewrite bool_decide_eq_true_2.
Qed.

(** Updating rows in place, ids untouched, updates the row that a lookup
    by id finds. *)
Lemma head_filter_update {A} (key : A → string) (upd : A → A) (k : string)
    (l : list A) (x : A) :
  (∀ y, key (upd y) = key y) →
  head (filter (λ y, key y = k) l) = Some x →
  head (filter (λ y, key y = k) (upd <$> l)) = Some (upd x).
Proof.
  intros Hkey. induction l as [|a l IH]; [done|].
  rewrite fmap_cons, !filter_cons.
  destruct (decide (key a = k)) as [Ha|Ha],
           (decide (key (upd a) = k)) as [Hb|Hb];
    rewrite ?Hkey in Hb; try done.
  simpl. by intros [= ->].
Qed.

(** X11: the preferences route stores the requested view mode for the
    caller and nothing else: afterwards the session resolves to the same
    user with that mode, and rows with another id are unchanged. *)
Theorem PUT_api_user_preferences_stores_mode db session u text mode :
  getCurrentUser db session = Some u →
  (text = "total" ∧ mode = total) ∨ (text = "weighted" ∧ mode = weighted) →
  let u' := User.mk (User.id u) (User.organizationId u) (User.role u)
              (User.assignedCompanyId u) mode in
  ∃ db',
    PUT_api_user_preferences db session (Some text) = (json u', db') ∧
    getCurrentUser db' session = Some u' ∧
    (∀ x, x ∈ users db → User.id x ≠ User.id u → x ∈ users db') ∧
    companyRelations db' = companyRelations db ∧
    properties db' = properties db.
Proof.
  intros Hu Htext u'. pose proof (getCurrentUser_elem _ _ _ Hu) as Hin.
  unfold PUT_api_user_preferences. rewrite Hu.
  pose proof Hu as (Htruthy & Hsession & Hget)%getCurrentUser_Some.
  rewrite Htruthy. simpl.
  assert ((match text with
           | "total" => Some total
           | "weighted" => Some weighted
           | _ => None
           end) = Some mode) as ->
    by (by destruct Htext as [[-> ->]|[-> ->]]).
  unfold updateUserPreferences.
  set (update := λ x : User.t,
         if bool_decide (User.id x = User.id u)
         then User.mk (User.id x) (User.organizationId x) (User.role x)
                (User.assignedCompanyId x) mode
         else x).
  assert (head (filter (λ x, User.id x = User.id u) (update <$> users db))
          = Some u') as Hhead.
  { rewrite (head_filter_update User.id update (User.id u) (users db) u).
    - unfold update. by rewrite bool_decide_eq_true_2.
    - intros y. unfold update. by case_bool_decide.
    - exact Hget. }
  rewrite Hhead. eexists. split; [done|]. simpl. split_and!; try done.
  - unfold getCurrentUser. rewrite Htruthy, Hsession. simpl.
    unfold getUser. simpl. exact Hhead.
  - intros x Hx Hid. apply list_elem_of_fmap. exists x. split; [|done].
    unfold update. by rewrite bool_decide_eq_false_2.
Qed.

End UserUpdates.

(** The administrator of the demonstration data makes a regular user an
    administrator. *)
Lemma PUT_api_users_keeps_admin_witness :
  ∃ db',
    PUT_api_users demoDb (Some "u-admin") "u-free" (Some admin) None
      = (json (demoUser "u-free" admin None weighted), db') ∧
    hasAdmin db' "org".
Proof.
  eexists. split; [vm_compute; reflexivity|].
  refine (proj1 (PUT_api_users_keeps_admin demoDb (Some "u-admin")
                   (demoUser "u-admin" admin None total) "u-free" (Some admin)
                   None _ _ demoDb_user_ids _ _ _)).
  - reflexivity.
  - discriminate.
  - vm_compute. reflexivity.
Defined.

(** The regular user of the demonstration data switches to the total
    view. *)
Lemma PUT_api_user_preferences_stores_mode_witness :
  ∃ db',
    PUT_api_user_preferences demoDb (Some "u-user") (Some "total")
      = (json (demoUser "u-user" user (Some "A") total), db') ∧
    getCurrentUser db' (Some "u-user")
      = Some (demoUser "u-user" user (Some "A") total).
Proof.
  destruct (PUT_api_user_preferences_stores_mode demoDb (Some "u-user")
              (demoUser "u-user" user (Some "A") weighted) "total" total
              ltac:(reflexivity) ltac:(left; split; reflexivity))
    as (db' & H1 & H2 & _).
  exists db'. exact (conj H1 H2).
Defined.

(** ** Single properties and companies *)

Section SingleRows.

Implicit Types (db : Database) (p : Property.t).

(** X12: the route that reads one property looks at the organization
    only: every signed-in user of the organization of a property gets it
    by id, whatever the role and the assigned company, and users of any
    other organization get 404. *)
Theorem GET_api_properties_id_by_organization db session u p :
  NoDup (Property.id <$> properties db) →
  getCurrentUser db session = Some u →
  p ∈ properties db →
  GET_api_properties_id db session (Property.id p)
  = if bool_decide (Property.organizationId p = User.organizationId u)
    then json p else status 404 "Ejendom ikke fundet".
Proof.
  intros Hnd Hu Hp. unfold GET_api_properties_id.
  rewrite (withUser_Some _ _ _ _ Hu). unfold getProperty.
  destruct (head (filter (λ x, Property.id x = Property.id p) (properties db)))
    as [q|] eqn:Hq.
  - apply head_Some_elem_of, list_elem_of_filter in Hq as [Hid Hq].
    assert (q = p) as -> by (by apply (key_inj Property.id (properties db))).
    by case_bool_decide.
  - apply head_None in Hq.
    assert (p ∈ filter (λ x, Property.id x = Property.id p) (properties db))
      as Hin by (by apply list_elem_of_filter).
    rewrite Hq in Hin. by apply not_elem_of_nil in Hin.
Qed.

(** X13: [updateProperty] writes before it checks: called for a property
    of another organization it reports "Property not found", and the
    row of that other organization now carries the update. *)
Theorem updateProperty_writes_before_check db id organizationId updates p :
  head (filter (λ x, Property.id x = id) (properties db)) = Some p →
  Property.organizationId p ≠ organizationId →
  ∃ db',
    updateProperty db id organizationId updates = (inl propertyNotFound, db') ∧
    getProperty db' id (Property.organizationId p)
    = Some (applyPropertyUpdates updates p) ∧
    (∀ x, x ∈ properties db → Property.id x ≠ id → x ∈ properties db').
Proof.
  intros Hp Horg. unfold updateProperty.
  set (update := λ x : Property.t,
         if bool_decide (Property.id x = id) then applyPropertyUpdates updates x
         else x).
  assert (head (filter (λ x, Property.id x = id) (update <$> properties db))
          = Some (applyPropertyUpdates updates p)) as Hhead.
  { rewrite (head_filter_update Property.id update id (properties db) p).
    - unfold update. rewrite bool_decide_eq_true_2; [done|].
      by apply head_Some_elem_of, list_elem_of_filter in Hp as [? _].
    - intros y. unfold update. by case_bool_decide.
    - exact Hp. }
  rewrite Hhead. simpl. rewrite bool_decide_eq_true_2 by done.
  eexists. split; [done|]. split.
  - unfold getProperty. simpl. rewrite Hhead. simpl.
    by rewrite bool_decide_eq_true_2.
  - intros x Hx Hid. simpl. apply list_elem_of_fmap. exists x. split; [|done].
    unfold update. by rewrite bool_decide_eq_false_2.
Qed.

(** X14: [deleteProperty] checks before it deletes, and the deletion
    keeps the foreign keys intact: afterwards the property is gone with
    its leases and their tenancies, every remaining lease still has its
    property and every remaining tenancy its lease, and the other
    properties are untouched. *)
Theorem deleteProperty_keeps_integrity db id organizationId db' :
  leasesIntegrity db →
  deleteProperty db id organizationId = inr db' →
  (∃ p, p ∈ properties db ∧ Property.id p = id ∧
        Property.organizationId p = organizationId) ∧
  properties db' = filter (λ p, Property.id p ≠ id) (properties db) ∧
  (∀ l, l ∈ leases db' ↔ l ∈ leases db ∧ Lease.propertyId l ≠ id) ∧
  leasesIntegrity db'.
Proof.
  intros [Hleases Htenancies]. unfold deleteProperty.
  destruct (head (filter (λ p, Property.id p = id) (properties db)))
    as [p|] eqn:Hp; [|done].
  destruct (decide (Property.organizationId p = organizationId)) as [Horg|Horg];
    [rewrite bool_decide_eq_false_2 by (by intros ?)
    |by rewrite bool_decide_eq_true_2].
  intros [= <-]. simpl.
  apply head_Some_elem_of, list_elem_of_filter in Hp as [Hid Hp].
  split_and!; [by exists p | done | |].
  - intros l. rewrite list_elem_of_filter. naive_solver.
  - split; simpl.
    + intros l [Hl Hin]%list_elem_of_filter.
      apply Hleases, list_elem_of_fmap in Hin as (q & Hq & Hqin).
      apply list_elem_of_fmap. exists q. split; [done|].
      apply list_elem_of_filter. split; [congruence | done].
    + intros t [Ht Hin]%list_elem_of_filter.
      apply Htenancies, list_elem_of_fmap in Hin as (l & Hl & Hlin).
      apply list_elem_of_fmap. exists l. split; [done|].
      apply list_elem_of_filter. split; [|done].
      intros Hgone. apply Ht. rewrite Hl. apply list_elem_of_fmap.
      exists l. split; [done|]. by apply list_elem_of_filter.
Qed.

End SingleRows.

Section DeleteCompany.

Implicit Types (db : Database).

Lemma deleteCompany_inr db id organizationId db' :
  deleteCompany db id organizationId = inr db' →
  (∃ c, c ∈ companies db ∧ Company.id c = id ∧
        Company.organizationId c = organizationId) ∧
  companyRelations db'
  = filter (λ r, CompanyRelation.parentCompanyId r ≠ id
                 ∧ CompanyRelation.childCompanyId r ≠ id)
      (companyRelations db) ∧
  unreferenced db' id.
Proof.
  unfold deleteCompany. case_bool_decide as Hcount; [done|].
  intros [= <-]. simpl. split_and!; [|done|].
  - destruct (filter _ (companies db)) as [|c rest] eqn:Hrows; [done|].
    assert (c ∈ c :: rest) as Hc by left. rewrite <- Hrows in Hc.
    apply list_elem_of_filter in Hc as [[? ?] ?]. by exists c.
  - unfold unreferenced. simpl. split_and!.
    + by intros r [? _]%list_elem_of_filter.
    + intros u (v & -> & _)%list_elem_of_fmap. simpl.
      case_bool_decide; [done|]. done.
    + intros p (q & -> & _)%list_elem_of_fmap. simpl.
      case_bool_decide; [done|]. done.
Qed.

(** X15: a company that [DELETE /api/companies/:id] deletes belonged to
    the organization of the caller, who may write.  Afterwards no
    relation, user or property refers to it, the percentages are still
    positive and the incoming totals still within 100 %, and Algorithm A
    from any other company no longer reaches it. *)
Theorem DELETE_api_companies_unlinks db session id db' :
  positivePercentages db →
  ownershipBounded db →
  DELETE_api_companies db session id = (json true, db') →
  (∃ u c, getCurrentUser db session = Some u ∧ canWrite u = true ∧
          c ∈ companies db ∧ Company.id c = id ∧
          Company.organizationId c = User.organizationId u) ∧
  unreferenced db' id ∧
  positivePercentages db' ∧
  ownershipBounded db' ∧
  ∀ root, root ≠ id →
    ∃ ids, getAccessibleCompanyIds db' root = Some ids ∧ id ∉ ids.
Proof.
  intros Hpos Hb. unfold DELETE_api_companies, withWriteAccess.
  destruct (negb (truthy session)); [done|].
  destruct (getCurrentUser db session) as [u|] eqn:Hu; [|done].
  destruct (canWrite u) eqn:Hw; [|done]. simpl.
  destruct (deleteCompany db id (User.organizationId u)) as [?|db1] eqn:Hdel;
    [done|].
  intros [= <-].
  destruct (deleteCompany_inr _ _ _ _ Hdel) as ((c & Hc & Hid & Horg) & Hrel & Hun).
  assert (positivePercentages db1) as Hpos'.
  { intros r. rewrite Hrel. intros [_ Hr]%list_elem_of_filter. by apply Hpos. }
  split_and!; [by exists u, c | done | done | |].
  - intros x. specialize (Hb x).
    unfold incomingTotal, getParentRelations in *. rewrite Hrel.
    etrans; [|exact Hb]. apply sumHundredths_filter_le.
    apply Forall_forall. intros r Hr. specialize (Hpos r Hr). lia.
  - intros root Hroot.
    destruct (getAccessibleCompanyIds_total db1 root) as (ids & Hids & _).
    exists ids. split; [done|].
    intros Hreach%(proj2 (getAccessibleCompanyIds_reachable _ _ _ Hids)).
    apply rtc_inv_r in Hreach as [?|(b & _ & r & Hr & _ & Hchild)];
      [done|].
    destruct Hun as (Hun & _). by destruct (Hun r Hr) as [_ ?].
Qed.

Lemma demoDb_bounded : ownershipBounded demoDb.
Proof.
  intros c. unfold incomingTotal, getParentRelations, demoDb, scenario1. simpl.
  rewrite !filter_cons, filter_nil. simpl.
  repeat case_decide; simplify_eq; vm_compute; discriminate.
Qed.

(** Deleting company B of the demonstration data as the administrator. *)
Lemma DELETE_api_companies_unlinks_witness :
  ∃ db', DELETE_api_companies demoDb (Some "u-admin") "B" = (json true, db') ∧
         unreferenced db' "B" ∧
         ∃ ids, getAccessibleCompanyIds db' "A" = Some ids ∧ "B" ∉ ids.
Proof.
  eexists. split; [vm_compute; reflexivity|].
  pose proof (DELETE_api_companies_unlinks demoDb (Some "u-admin") "B" _
                demoDb_positive demoDb_bounded eq_refl)
    as (_ & Hun & _ & _ & Hroot).
  split; [exact Hun|]. by apply Hroot.
Defined.

End DeleteCompany.

(** ** The properties at the demonstration data *)

Lemma demoDb_property_ids : NoDup (Property.id <$> properties demoDb).
Proof. apply (bool_decide_unpack _). by vm_compute. Qed.

Lemma demoDb_leases : leasesIntegrity demoDb.
Proof.
  split.
  - intros l Hl. unfold demoDb in Hl. simpl in Hl.
    repeat (apply elem_of_cons in Hl as [-> | Hl]);
      [..|by apply not_elem_of_nil in Hl];
      apply (bool_decide_unpack _); by vm_compute.
  - intros t Ht. by apply not_elem_of_nil in Ht.
Qed.

(** The broker of the demonstration data tries to delete relation r1. *)
Lemma relation_routes_refuse_readers_witness :
  ∃ code message,
    (code = 401 ∨ code = 403) ∧
    DELETE_api_company_relations demoDb (Some "u-broker") "r1"
    = (status code message, demoDb).
Proof.
  refine (proj2 (proj2 (relation_routes_refuse_readers demoDb
                          (Some "u-broker") _)) "r1").
  intros u Hu. vm_compute in Hu. by injection Hu as <-.
Defined.

(** The user without a company reads the property of company C by id. *)
Lemma GET_api_properties_id_by_organization_witness :
  GET_api_properties_id demoDb (Some "u-free") "p-C"
  = json (Property.mk "p-C" "org" (Some "C") 100000000 (Some 1700000000000)
            (Some 1700000000000)).
Proof.
  refine (GET_api_properties_id_by_organization demoDb (Some "u-free")
            (demoUser "u-free" user None weighted)
            (Property.mk "p-C" "org" (Some "C") 100000000 (Some 1700000000000)
               (Some 1700000000000))
            demoDb_property_ids eq_refl _).
  unfold demoDb. simpl. left.
Defined.

(** Another organization takes the owner away from property p-C. *)
Lemma updateProperty_writes_before_check_witness :
  ∃ db',
    updateProperty demoDb "p-C" "other"
      {| upd_ownerCompanyId := Some None; upd_acquisitionPrice := None;
         upd_acquisitionDate := None |}
    = (inl propertyNotFound, db') ∧
    getProperty db' "p-C" "org"
    = Some (Property.mk "p-C" "org" None 100000000 (Some 1700000000000)
              (Some 1700000000000)).
Proof.
  destruct (updateProperty_writes_before_check demoDb "p-C" "other"
              {| upd_ownerCompanyId := Some None; upd_acquisitionPrice := None;
                 upd_acquisitionDate := None |}
              (Property.mk "p-C" "org" (Some "C") 100000000
                 (Some 1700000000000) (Some 1700000000000))
              eq_refl ltac:(discriminate))
    as (db' & Hupdate & Hget & _).
  exists db'. split; [exact Hupdate | exact Hget].
Defined.

(** Deleting property p-C of the demonstration data with its lease. *)
Lemma deleteProperty_keeps_integrity_witness :
  ∃ db', deleteProperty demoDb "p-C" "org" = inr db' ∧
         leasesIntegrity db' ∧ Lease.id <$> leases db' = ["l-none"; "l-D"].
Proof.
  eexists. split; [vm_compute; reflexivity|].
  split; [|reflexivity].
  exact (proj2 (proj2 (proj2 (deleteProperty_keeps_integrity demoDb "p-C" "org"
                                _ demoDb_leases eq_refl)))).
Defined.

(** ** Updating and deleting tenancies *)

Section TenancyUpdates.

Implicit Types (db : Database) (rows : list LeaseTenant.t).

Lemma tenanciesDisjoint_cons x rows :
  tenanciesDisjoint (x :: rows) ↔
  (∀ b, b ∈ rows → LeaseTenant.leaseId x = LeaseTenant.leaseId b →
        ¬ overlapRows x b) ∧
  tenanciesDisjoint rows.
Proof.
  split.
  - intros Hdis. split.
    + intros b [j Hj]%list_elem_of_lookup_1.
      by apply (Hdis 0%nat (S j)).
    + intros i j a b Hij Ha Hb. apply (Hdis (S i) (S j)); [lia|done|done].
  - intros [Hx Hdis] [|i] [|j] a b Hij Ha Hb Hlease; simplify_eq/=.
    + apply Hx; [|done]. by eapply list_elem_of_lookup_2.
    + intros Hov%overlapRows_sym. revert Hov. apply Hx; [|done].
      by eapply list_elem_of_lookup_2.
    + apply (Hdis i j); [lia|done..].
Qed.

Lemma tenanciesDisjoint_filter (P : LeaseTenant.t → Prop)
    `{!∀ t, Decision (P t)} rows :
  tenanciesDisjoint rows → tenanciesDisjoint (filter P rows).
Proof.
  induction rows as [|x rows IH]; [done|].
  intros [Hx Hdis]%tenanciesDisjoint_cons. rewrite filter_cons.
  case_decide; [|by apply IH].
  apply tenanciesDisjoint_cons. split; [|by apply IH].
  intros b [_ Hb]%list_elem_of_filter. by apply Hx.
Qed.

(** X16: [PATCH /api/lease-tenants/:id] asks for a session only and
    stores the period of the body without looking at the other
    tenancies of the lease: any signed-in user of the organization,
    whatever the role, may give a tenancy a period that overlaps another
    tenancy of the same lease, after which the table is no longer free
    of overlap. *)
Theorem PATCH_api_lease_tenants_overlaps db session u i j a b body :
  NoDup (LeaseTenant.id <$> leaseTenants db) →
  getCurrentUser db session = Some u →
  leaseTenants db !! i = Some a →
  leaseTenants db !! j = Some b →
  i ≠ j →
  LeaseTenant.organizationId a = User.organizationId u →
  InsertLeaseTenant.leaseId body = LeaseTenant.leaseId b →
  overlapsDates (InsertLeaseTenant.periodStart body)
    (InsertLeaseTenant.periodEnd body) b →
  ∃ db',
    PATCH_api_lease_tenants db session (LeaseTenant.id a) body
    = (json (LeaseTenant.mk (LeaseTenant.id a)
               (InsertLeaseTenant.leaseId body)
               (InsertLeaseTenant.tenantId body)
               (LeaseTenant.organizationId a)
               (InsertLeaseTenant.periodStart body)
               (InsertLeaseTenant.periodEnd body)),
       db') ∧
    ¬ tenanciesDisjoint (leaseTenants db').
Proof.
  intros Hnd Hu Ha Hb Hij Horg Hlease Hov.
  unfold PATCH_api_lease_tenants.
  assert (truthy session = true) as ->.
  { unfold getCurrentUser in Hu. by destruct (truthy session). }
  rewrite Hu. simpl. unfold updateLeaseTenant.
  set (hit := λ t : LeaseTenant.t,
         LeaseTenant.id t = LeaseTenant.id a ∧
         LeaseTenant.organizationId t = User.organizationId u).
  set (update := λ t : LeaseTenant.t,
         if bool_decide (LeaseTenant.id t = LeaseTenant.id a ∧
                         LeaseTenant.organizationId t = User.organizationId u)
         then LeaseTenant.mk (LeaseTenant.id t)
                (InsertLeaseTenant.leaseId body)
                (InsertLeaseTenant.tenantId body)
                (LeaseTenant.organizationId t)
                (InsertLeaseTenant.periodStart body)
                (InsertLeaseTenant.periodEnd body)
         else t).
  assert (update a = LeaseTenant.mk (LeaseTenant.id a)
                       (InsertLeaseTenant.leaseId body)
                       (InsertLeaseTenant.tenantId body)
                       (LeaseTenant.organizationId a)
                       (InsertLeaseTenant.periodStart body)
                       (InsertLeaseTenant.periodEnd body)) as Hupa.
  { unfold update. by rewrite bool_decide_eq_true_2. }
  assert (update b = b) as Hupb.
  { unfold update. rewrite bool_decide_eq_false_2; [done|].
    intros [Hid _]. apply Hij.
    apply (NoDup_lookup _ i j (LeaseTenant.id a) Hnd);
      rewrite list_lookup_fmap; [by rewrite Ha | rewrite Hb; simpl; by rewrite Hid]. }
  assert (∀ t, hit (update t) ↔ hit t) as Hhit.
  { intros t. unfold update. by case_bool_decide. }
  assert (∀ t, t ∈ filter hit (update <$> leaseTenants db) → t = update a)
    as Hone.
  { intros t [Ht (t0 & -> & Ht0)%list_elem_of_fmap]%list_elem_of_filter.
    apply (proj1 (Hhit _)) in Ht as [Hid _]. f_equal.
    apply list_elem_of_lookup_1 in Ht0 as [k Hk].
    assert (k = i) as ->; [|congruence].
    apply (NoDup_lookup _ k i (LeaseTenant.id a) Hnd);
      rewrite list_lookup_fmap; [rewrite Hk; simpl; by rewrite Hid | by rewrite Ha]. }
  destruct (head (filter hit (update <$> leaseTenants db))) as [t|] eqn:Hhead.
  - assert (t = update a) as ->
      by (apply Hone; by apply head_Some_elem_of).
    eexists. split; [by rewrite Hupa|]. simpl. intros Hdis.
    apply (Hdis i j (update a) b); [done| | |by rewrite Hupa|].
    + by rewrite list_lookup_fmap, Ha.
    + rewrite list_lookup_fmap, Hb. simpl. by rewrite Hupb.
    + by rewrite Hupa.
  - exfalso. apply head_None in Hhead.
    assert (update a ∈ filter hit (update <$> leaseTenants db)) as Hin.
    { apply list_elem_of_filter. split; [by apply Hhit|].
      apply list_elem_of_fmap. exists a. split; [done|].
      by eapply list_elem_of_lookup_2. }
    rewrite Hhead in Hin. by apply not_elem_of_nil in Hin.
Qed.

(** X17: [DELETE /api/lease-tenants/:id] deletes for callers who may
    write, and only a tenancy of their own organization; every other
    row stays, and a table free of overlap stays free of overlap. *)
Theorem DELETE_api_lease_tenants_scoped db session id db' :
  tenanciesDisjoint (leaseTenants db) →
  DELETE_api_lease_tenants db session id = (json true, db') →
  ∃ u, getCurrentUser db session = Some u ∧ canWrite u = true ∧
       (∃ t, t ∈ leaseTenants db ∧ LeaseTenant.id t = id ∧
             LeaseTenant.organizationId t = User.organizationId u) ∧
       (∀ t, t ∈ leaseTenants db' ↔
             t ∈ leaseTenants db ∧
             ¬ (LeaseTenant.id t = id ∧
                LeaseTenant.organizationId t = User.organizationId u)) ∧
       tenanciesDisjoint (leaseTenants db').
Proof.
  intros Hdis. unfold DELETE_api_lease_tenants, withWriteAccess.
  destruct (negb (truthy session)); [done|].
  destruct (getCurrentUser db session) as [u|] eqn:Hu; [|done].
  destruct (canWrite u) eqn:Hw; [|done]. simpl.
  unfold deleteLeaseTenant. case_bool_decide as Hcount; [done|].
  intros [= <-]. exists u. split_and!; [done..| | |]; simpl.
  - destruct (filter _ (leaseTenants db)) as [|t rest] eqn:Hrows; [done|].
    assert (t ∈ t :: rest) as Ht by left. rewrite <- Hrows in Ht.
    apply list_elem_of_filter in Ht as [[? ?] ?]. by exists t.
  - intros t. rewrite list_elem_of_filter. tauto.
  - by apply tenanciesDisjoint_filter.
Qed.

End TenancyUpdates.

(** The broker extends the first tenancy over the second one. *)
Lemma PATCH_api_lease_tenants_overlaps_witness :
  ∃ db',
    PATCH_api_lease_tenants rentedDb (Some "u-broker") "lt1"
      (InsertLeaseTenant.mk "L" "t1" "org" (dateUTC 2023 1 1) None)
    = (json (LeaseTenant.mk "lt1" "L" "t1" "org" (dateUTC 2023 1 1) None), db') ∧
    ¬ tenanciesDisjoint (leaseTenants db').
Proof.
  refine (PATCH_api_lease_tenants_overlaps rentedDb (Some "u-broker")
            (demoUser "u-broker" broker (Some "A") weighted) 0 1
            (LeaseTenant.mk "lt1" "L" "t1" "org" (dateUTC 2023 1 1)
               (Some (dateUTC 2023 12 31)))
            (LeaseTenant.mk "lt2" "L" "t2" "org" (dateUTC 2024 1 1) None)
            (InsertLeaseTenant.mk "L" "t1" "org" (dateUTC 2023 1 1) None)
            _ eq_refl eq_refl eq_refl _ eq_refl eq_refl _).
  - apply (bool_decide_unpack _). by vm_compute.
  - discriminate.
  - unfold overlapsDates. vm_compute. split; discriminate.
Defined.

(** The administrator deletes the first tenancy. *)
Lemma DELETE_api_lease_tenants_scoped_witness :
  ∃ db', DELETE_api_lease_tenants rentedDb (Some "u-admin") "lt1"
         = (json true, db') ∧
         LeaseTenant.id <$> leaseTenants db' = ["lt2"] ∧
         tenanciesDisjoint (leaseTenants db').
Proof.
  eexists. split; [vm_compute; reflexivity|]. split; [reflexivity|].
  destruct (DELETE_api_lease_tenants_scoped rentedDb (Some "u-admin") "lt1" _
              two_tenancies_disjoint eq_refl)
    as (u & _ & _ & _ & _ & Hdis).
  exact Hdis.
Defined.

(** ** Tenants *)

Section Tenants.

Implicit Types (db : Database) (tenants : list Tenant.t).

Lemma head_orderBy_desc_max {A} (column : A → Z) (rows : list A) (x : A) :
  head (orderBy_desc (λ r, Some (column r)) rows) = Some x →
  x ∈ rows ∧ ∀ y, y ∈ rows → column y ≤ column x.
Proof.
  unfold orderBy_desc, sort_stable. revert x.
  induction rows as [|r rows IH]; intros x; simpl; [done|].
  destruct (foldr _ [] rows) as [|h sorted] eqn:Hsorted; simpl.
  - intros [= <-].
    assert (rows = []) as ->.
    { destruct rows as [|z rows]; [done|].
      assert (z ∈ sort_stable (λ a b, desc_key (Some (column a))
                                          (Some (column b))) (z :: rows))
        as Hz by (apply elem_of_sort_stable; left).
      unfold sort_stable in Hz. rewrite Hsorted in Hz.
      by apply not_elem_of_nil in Hz. }
    split; [left|]. by intros y ->%list_elem_of_singleton.
  - destruct (IH h eq_refl) as [Hh Hmax].
    destruct (column h <=? column r) eqn:Hle; simpl; intros [= <-].
    + apply Z.leb_le in Hle. split; [left|].
      intros y [-> | Hy]%elem_of_cons; [done|]. specialize (Hmax y Hy). lia.
    + apply Z.leb_gt in Hle. split; [by right|].
      intros y [-> | Hy]%elem_of_cons; [lia|]. by apply Hmax.
Qed.

(** X18: a tenant that [createTenant] inserts is appended to the table
    with the organization of the call and a number above every number of
    that organization, 1001 for its first tenant; numbers that were
    pairwise different stay so. *)
Theorem createTenant_number tenants now newId body organizationId t tenants' :
  createTenant tenants now newId body organizationId = Some (t, tenants') →
  tenants' = (tenants ++ [t])%list ∧
  Tenant.organizationId t = organizationId ∧
  (∀ e, e ∈ tenants → Tenant.organizationId e = organizationId →
        Tenant.internalNumber e < Tenant.internalNumber t) ∧
  ((∀ e, e ∈ tenants → Tenant.organizationId e ≠ organizationId) →
   Tenant.internalNumber t = 1001) ∧
  (NoDup (Tenant.internalNumber <$> tenants) →
   NoDup (Tenant.internalNumber <$> tenants')).
Proof.
  unfold createTenant.
  set (own := filter (λ e, Tenant.organizationId e = organizationId) tenants).
  destruct (orderBy_desc _ own) as [|last rest] eqn:Hsorted; simpl.
  - destruct (_ || _) eqn:Hfree; [done|]. intros [= <- <-]. simpl.
    apply orb_false_iff in Hfree as [Hfree _].
    apply bool_decide_eq_false in Hfree.
    assert (own = []) as Hown.
    { destruct own as [|z own'] eqn:Hz; [done|].
      assert (z ∈ orderBy_desc (λ t, Some (Tenant.internalNumber t))
                    (z :: own')) as Hin
        by (apply elem_of_sort_stable; left).
      rewrite Hsorted in Hin. by apply not_elem_of_nil in Hin. }
    split_and!; [done..| |done|].
    + intros e He Horg.
      assert (e ∈ own) as Hin by (by apply list_elem_of_filter).
      rewrite Hown in Hin. by apply not_elem_of_nil in Hin.
    + intros Hnd. rewrite fmap_app. simpl. apply NoDup_app.
      split_and!; [done| |apply NoDup_singleton].
      by intros x Hx ->%list_elem_of_singleton.
  - destruct (_ || _) eqn:Hfree; [done|]. intros [= <- <-]. simpl.
    apply orb_false_iff in Hfree as [Hfree _].
    apply bool_decide_eq_false in Hfree.
    destruct (head_orderBy_desc_max Tenant.internalNumber own last)
      as [Hlast Hmax]; [by rewrite Hsorted|].
    split_and!; [done..| | |].
    + intros e He Horg.
      assert (e ∈ own) as Hin by (by apply list_elem_of_filter).
      specialize (Hmax e Hin). lia.
    + intros Hnone. apply list_elem_of_filter in Hlast as [Horg Hlast].
      by destruct (Hnone last Hlast).
    + intros Hnd. rewrite fmap_app. simpl. apply NoDup_app.
      split_and!; [done| |apply NoDup_singleton].
      by intros x Hx ->%list_elem_of_singleton.
Qed.

(** X19: the numbers are drawn per organization but must be unique in
    the whole table: an organization without tenants cannot create its
    first one while number 1001 belongs to a tenant of another
    organization; [POST /api/tenants] answers 500 and stores nothing. *)
Theorem POST_api_tenants_blocked db tenants session u now newId body other :
  getCurrentUser db session = Some u →
  canWrite u = true →
  (∀ e, e ∈ tenants → Tenant.organizationId e ≠ User.organizationId u) →
  other ∈ tenants →
  Tenant.internalNumber other = 1001 →
  POST_api_tenants db tenants session now newId body
  = (status 500 "Fejl ved oprettelse af lejer", tenants).
Proof.
  intros Hu Hw Hnone Hother Hnumber.
  unfold POST_api_tenants, withWriteAccess.
  assert (truthy session = true) as ->.
  { unfold getCurrentUser in Hu. by destruct (truthy session). }
  rewrite Hu, Hw. simpl. unfold createTenant.
  rewrite (filter_none _ tenants) by done. simpl.
  rewrite bool_decide_eq_true_2; [done|].
  apply list_elem_of_fmap. by exists other.
Qed.

End Tenants.

Section TenantViews.

Implicit Types (db : Database) (tenants : list Tenant.t).

(** X20: a broker gets the tenant list with every name and phone number
    replaced, but [GET /api/all-lease-tenants] does not anonymize: every
    tenancy of the organization comes with its tenant row as stored. *)
Theorem broker_reads_tenants_of_tenancies db tenants session u t lt :
  getCurrentUser db session = Some u →
  User.role u = broker →
  t ∈ tenants →
  lt ∈ leaseTenants db →
  LeaseTenant.organizationId lt = User.organizationId u →
  LeaseTenant.tenantId lt = Tenant.id t →
  (∃ views,
      GET_api_tenants db tenants session = json views ∧
      ∀ v, v ∈ views →
           TenantView.name v = "Anonymiseret" ∧ TenantView.phone v = "*******") ∧
  (∃ rows,
      GET_api_all_lease_tenants db tenants session = json rows ∧
      (lt, t) ∈ rows).
Proof.
  intros Hu Hrole Ht Hlt Horg Htenant. split.
  - unfold GET_api_tenants. rewrite (withUser_Some _ _ _ _ Hu).
    eexists. split; [done|].
    intros v (e & -> & _)%list_elem_of_fmap.
    unfold anonymizeTenantData, isBroker.
    by rewrite bool_decide_eq_true_2.
  - unfold GET_api_all_lease_tenants. rewrite (withUser_Some _ _ _ _ Hu).
    eexists. split; [done|]. unfold getAllLeaseTenants.
    apply list_elem_of_omap. exists (lt, Some t). split; [|done].
    apply elem_of_sort_stable, list_elem_of_bind. exists lt. split.
    + assert (t ∈ filter (λ e, Tenant.id e = LeaseTenant.tenantId lt) tenants)
        as Hin by (by apply list_elem_of_filter).
      destruct (filter _ tenants) as [|e found] eqn:Hfound;
        [by apply not_elem_of_nil in Hin|].
      apply list_elem_of_fmap. by exists t.
    + by apply list_elem_of_filter.
Qed.

End TenantViews.

(** A third tenant of the demonstration organization gets number 1003. *)
Lemma createTenant_number_witness :
  ∃ t tenants',
    createTenant demoTenants 1710000000000 "t3"
      (InsertTenant.mk "Carl" privat None None "carl@example.dk" None
         "11223344" None) "org"
    = Some (t, tenants') ∧
    Tenant.internalNumber t = 1003 ∧
    NoDup (Tenant.internalNumber <$> tenants').
Proof.
  eexists _, _. split; [vm_compute; reflexivity|]. split; [reflexivity|].
  refine (proj2 (proj2 (proj2 (proj2
            (createTenant_number demoTenants 1710000000000 "t3"
               (InsertTenant.mk "Carl" privat None None "carl@example.dk" None
                  "11223344" None) "org" _ _ eq_refl)))) _).
  apply (bool_decide_unpack _). by vm_compute.
Defined.

(** The administrator of another organization cannot create a first
    tenant beside the tenants of the demonstration organization. *)
Lemma POST_api_tenants_blocked_witness :
  POST_api_tenants crossOrgDb demoTenants (Some "u1") 1710000000000 "t3"
    (InsertTenant.mk "Carl" privat None None "carl@example.dk" None
       "11223344" None)
  = (status 500 "Fejl ved oprettelse af lejer", demoTenants).
Proof.
  refine (POST_api_tenants_blocked crossOrgDb demoTenants (Some "u1")
            (User.mk "u1" "org1" admin None total) 1710000000000 "t3" _
            (Tenant.mk "t1" 1001 "Anna Jensen" privat None None
               "anna@example.dk" None "12345678" None "org"
               (Some 1700000000000))
            eq_refl eq_refl _ _ eq_refl).
  - intros e He. unfold demoTenants in He.
    repeat (apply elem_of_cons in He as [-> | He]);
      [..|by apply not_elem_of_nil in He]; discriminate.
  - left.
Defined.

(** The broker of the demonstration data and the tenancy of tenant t1. *)
Lemma broker_reads_tenants_of_tenancies_witness :
  ∃ rows,
    GET_api_all_lease_tenants rentedDb demoTenants (Some "u-broker")
    = json rows ∧
    (LeaseTenant.mk "lt1" "L" "t1" "org" (dateUTC 2023 1 1)
       (Some (dateUTC 2023 12 31)),
     Tenant.mk "t1" 1001 "Anna Jensen" privat None None "anna@example.dk" None
       "12345678" None "org" (Some 1700000000000)) ∈ rows.
Proof.
  refine (proj2 (broker_reads_tenants_of_tenancies rentedDb demoTenants
                   (Some "u-broker")
                   (demoUser "u-broker" broker (Some "A") weighted)
                   (Tenant.mk "t1" 1001 "Anna Jensen" privat None None
                      "anna@example.dk" None "12345678" None "org"
                      (Some 1700000000000))
                   (LeaseTenant.mk "lt1" "L" "t1" "org" (dateUTC 2023 1 1)
                      (Some (dateUTC 2023 12 31)))
                   eq_refl eq_refl _ _ eq_refl eq_refl)).
  - left.
  - left.
Defined.

(** ** Recent properties of the dashboard *)

Section Recent.

Implicit Types (db : Database) (p : Property.t).

(** What the loop keeps: at most [limit] rows, each with an owner of
    positive weight. *)
Lemma recentLoop_spec depth root relations limit rows :
  ∀ filtered result,
    recentLoop depth root relations limit filtered rows = Some result →
    (length filtered < limit)%nat →
    (length result ≤ limit)%nat ∧
    ∃ kept, result = (filtered ++ kept)%list ∧
      ∀ p, p ∈ kept →
        ∃ owner w, (p, Some owner) ∈ rows ∧
          calculateOwnershipFromRoot depth root (Company.id owner) relations
          = Some w ∧ Double.gtb w 0 = true.
Proof.
  induction rows as [|[p [owner|]] rows IH]; intros filtered result; simpl.
  - intros [= <-] Hlen. split; [lia|]. exists []. split; [by rewrite app_nil_r|].
    by intros p Hp%not_elem_of_nil.
  - destruct (calculateOwnershipFromRoot depth root (Company.id owner) relations)
      as [w|] eqn:Hw; [|done]. simpl.
    destruct (Double.gtb w 0) eqn:Hgt.
    + rewrite length_app. simpl.
      destruct (limit <=? length filtered + 1)%nat eqn:Hfull.
      * intros [= <-] Hlen. rewrite length_app. simpl. split; [lia|].
        exists [p]. split; [done|].
        intros q ->%list_elem_of_singleton. exists owner, w.
        split_and!; [left | done | done].
      * apply Nat.leb_gt in Hfull. intros Hrun Hlen.
        destruct (IH _ _ Hrun) as (Hres & kept & -> & Hkept);
          [rewrite length_app; simpl; lia|].
        split; [done|]. exists (p :: kept).
        split; [by rewrite <- (assoc_L app)|].
        intros q [-> | Hq]%elem_of_cons.
        -- exists owner, w. split_and!; [left | done | done].
        -- destruct (Hkept q Hq) as (o & w' & ? & ? & ?).
           exists o, w'. split_and!; [by right | done..].
    + destruct (limit <=? length filtered)%nat eqn:Hfull.
      * apply Nat.leb_le in Hfull. intros _ Hlen. lia.
      * intros Hrun Hlen.
        destruct (IH _ _ Hrun Hlen) as (Hres & kept & -> & Hkept).
        split; [done|]. exists kept. split; [done|].
        intros q Hq. destruct (Hkept q Hq) as (o & w' & ? & ? & ?).
        exists o, w'. split_and!; [by right | done..].
  - intros Hrun Hlen.
    destruct (IH _ _ Hrun Hlen) as (Hres & kept & -> & Hkept).
    split; [done|]. exists kept. split; [done|].
    intros q Hq. destruct (Hkept q Hq) as (o & w' & ? & ? & ?).
    exists o, w'. split_and!; [by right | done..].
Qed.

End Recent.

Section LatestAndRecent.

Implicit Types (db : Database) (p : Property.t).

Lemma insert_sorted_ext {A} (before1 before2 : A → A → bool) x (l : list A) :
  (∀ b, b ∈ l → before1 x b = before2 x b) →
  insert_sorted before1 x l = insert_sorted before2 x l.
Proof.
  induction l as [|y l IH]; intros Hext; simpl; [done|].
  rewrite <- (Hext y) by left. destruct (before1 x y); [done|].
  f_equal. apply IH. intros b Hb. apply Hext. by right.
Qed.

Lemma sort_stable_ext {A} (before1 before2 : A → A → bool) (l : list A) :
  (∀ a b, a ∈ l → b ∈ l → before1 a b = before2 a b) →
  sort_stable before1 l = sort_stable before2 l.
Proof.
  induction l as [|x l IH]; intros Hext; [done|].
  unfold sort_stable in *. simpl.
  rewrite <- IH by (intros a b Ha Hb; apply Hext; by right).
  apply insert_sorted_ext. intros b Hb. apply Hext; [left|].
  right. by apply (elem_of_sort_stable before1).
Qed.

Lemma insert_sorted_Permutation {A} (before : A → A → bool) x (l : list A) :
  insert_sorted before x l ≡ₚ x :: l.
Proof.
  induction l as [|y l IH]; simpl; [done|].
  destruct (before x y); [done|]. by rewrite IH, Permutation_swap.
Qed.

Lemma sort_stable_Permutation {A} (before : A → A → bool) (l : list A) :
  sort_stable before l ≡ₚ l.
Proof.
  induction l as [|x l IH]; [done|].
  unfold sort_stable in *. simpl. by rewrite insert_sorted_Permutation, IH.
Qed.

Lemma orderBy_desc_sorted {A} (column : A → option Z) (rows : list A) :
  StronglySorted (λ a b, desc_key (column a) (column b))
    (orderBy_desc column rows).
Proof.
  assert (∀ a b, desc_key a b = false → desc_key b a = true) as Htotal.
  { intros [a|] [b|]; simpl; try done. intros ?%Z.leb_gt. apply Z.leb_le. lia. }
  assert (∀ a b c, desc_key a b → desc_key b c → desc_key a c) as Htrans.
  { intros [a|] [b|] [c|]; simpl; try done.
    intros ?%Is_true_true%Z.leb_le ?%Is_true_true%Z.leb_le.
    apply Is_true_true, Z.leb_le. lia. }
  unfold orderBy_desc, sort_stable.
  induction rows as [|x rows IH]; simpl; [constructor|].
  revert IH. generalize (foldr (insert_sorted
                                  (λ a b, desc_key (column a) (column b)))
                           [] rows).
  intros l. induction 1 as [|y l Hl IH Hy]; simpl; [by repeat constructor|].
  destruct (desc_key (column x) (column y)) eqn:Hxy.
  - constructor; [by constructor|]. constructor; [by rewrite Hxy|].
    eapply Forall_impl; [exact Hy|]. intros z Hz. simpl in Hz.
    apply (Htrans _ (column y)); [by rewrite Hxy | done].
  - constructor; [done|].
    rewrite insert_sorted_Permutation. constructor; [|done].
    by rewrite (Htotal _ _ Hxy).
Qed.

(** Two lists of the same rows, both sorted, are equal when no two rows
    are tied. *)
Lemma StronglySorted_unique_on {A} (R : A → A → Prop) (l1 l2 : list A) :
  (∀ a b, a ∈ l1 → b ∈ l1 → R a b → R b a → a = b) →
  StronglySorted R l1 → StronglySorted R l2 → l1 ≡ₚ l2 → l1 = l2.
Proof.
  revert l2. induction l1 as [|x l1 IH]; intros l2 Hanti H1 H2 Hperm.
  - by apply Permutation_nil_l in Hperm.
  - destruct l2 as [|y l2]; [by apply Permutation_nil_r in Hperm|].
    apply StronglySorted_inv in H1 as [H1 Hx].
    apply StronglySorted_inv in H2 as [H2 Hy].
    assert (x = y) as <-.
    { assert (x ∈ y :: l2) as [->|Hx2]%elem_of_cons
        by (rewrite <- Hperm; left); [done|].
      assert (y ∈ x :: l1) as [->|Hy1]%elem_of_cons
        by (rewrite Hperm; left); [done|].
      apply Hanti; [left | by right | |].
      - by apply (proj1 (Forall_forall _ _) Hx).
      - by apply (proj1 (Forall_forall _ _) Hy). }
    f_equal. apply IH; [|done|done|by apply (inj (cons x))].
    intros a b Ha Hb. apply Hanti; by right.
Qed.

(** With no two rows at the same key, the order of the model is the
    only one that [ORDER BY column DESC] can return. *)
Lemma orderBy_desc_unique {A} (column : A → option Z) (rows sorted : list A) :
  NoDup (column <$> rows) →
  sorted ≡ₚ rows →
  StronglySorted (λ a b, desc_key (column a) (column b)) sorted →
  sorted = orderBy_desc column rows.
Proof.
  intros Hnd Hperm Hsorted.
  apply (StronglySorted_unique_on
           (λ a b, desc_key (column a) (column b))); [|done| |].
  - intros a b Ha Hb Hab Hba. rewrite Hperm in Ha, Hb.
    assert (column a = column b) as Hkey.
    { destruct (column a) as [x|], (column b) as [y|]; simpl in *; try done.
      apply Is_true_true, Z.leb_le in Hab, Hba. f_equal. lia. }
    apply list_elem_of_lookup in Ha as [i Hi], Hb as [j Hj].
    assert (i = j) as ->; [|congruence].
    apply (NoDup_lookup _ i j (column a) Hnd);
      rewrite list_lookup_fmap; [by rewrite Hi | by rewrite Hj, Hkey].
  - apply orderBy_desc_sorted.
  - rewrite Hperm. symmetry. apply sort_stable_Permutation.
Qed.

(** The first row that the loop keeps is the one that the statistics
    call the latest. *)
Lemma findLatest_head depth root relations limit rows :
  ∀ result latest,
    (0 < limit)%nat →
    recentLoop depth root relations limit [] rows = Some result →
    findLatest depth root relations rows = Some latest →
    latest = head result.
Proof.
  induction rows as [|[p [owner|]] rows IH]; intros result latest Hlimit; simpl.
  - by intros [= <-] [= <-].
  - destruct (calculateOwnershipFromRoot depth root (Company.id owner) relations)
      as [w|] eqn:Hw; [|done]. simpl.
    destruct (Double.gtb w 0) eqn:Hgt; simpl.
    + destruct (limit <=? 1)%nat eqn:Hfull.
      * by intros [= <-] [= <-].
      * apply Nat.leb_gt in Hfull. intros Hrun [= <-].
        destruct (recentLoop_spec _ _ _ _ _ _ _ Hrun) as (_ & kept & -> & _);
          [simpl; lia|]. done.
    + destruct (limit <=? 0)%nat eqn:Hfull; [apply Nat.leb_le in Hfull; lia|].
      by apply IH.
  - by apply IH.
Qed.

(** X22: when every property of the organization has an acquisition
    date and no two of them have the same one, so that sorting by date
    leaves no choice ([orderBy_desc_unique]), the latest property of the
    weighted statistics of a regular user is the first of the recent
    properties that the dashboard shows to the same user. *)
Theorem latest_is_first_recent depth db session u R stats recent :
  getCurrentUser db session = Some u →
  User.role u = user →
  User.dashboardViewMode u = weighted →
  User.assignedCompanyId u = Some R → R ≠ "" →
  (∀ p, p ∈ properties db →
        Property.organizationId p = User.organizationId u →
        is_Some (Property.acquisitionDate p)) →
  NoDup (Property.acquisitionDate
           <$> filter (λ p, Property.organizationId p = User.organizationId u)
                 (properties db)) →
  GET_api_dashboard_stats depth db session = json stats →
  GET_api_dashboard_recent depth db session = json recent →
  Stats.latestProperty stats = head recent.
Proof.
  intros Hu Hrole Hmode HR Hne Hdates _.
  destruct (getCurrentUser_Some _ _ _ Hu) as (_ & _ & Hget).
  unfold GET_api_dashboard_stats, GET_api_dashboard_recent.
  rewrite !(withUser_Some _ _ _ _ Hu).
  rewrite !bool_decide_eq_true_2 by done. simpl.
  unfold calculateWeightedStats, getRecentPropertiesWeighted.
  rewrite Hget, HR, (truthy_Some_true R Hne). simpl.
  set (allProperties :=
         properties_leftJoin_companies db (User.organizationId u)).
  assert (orderBy_desc (λ row, Property.acquisitionDate row.1) allProperties
          = sortByAcquisitionDate allProperties) as ->.
  { apply sort_stable_ext.
    assert (∀ row, row ∈ allProperties →
                   is_Some (Property.acquisitionDate row.1)) as Hsome.
    { intros [p c] (p0 & Hjoin & [Horg Hp0]%list_elem_of_filter)%list_elem_of_bind.
      assert (p = p0) as ->.
      { unfold joinRows in Hjoin. destruct (filter _ (companies db));
          [by apply list_elem_of_singleton in Hjoin as [= -> _]|].
        by apply list_elem_of_fmap in Hjoin as (? & [= -> _] & _). }
      by apply Hdates. }
    intros a b [x Ha]%Hsome [y Hb]%Hsome. by rewrite Ha, Hb. }
  case_bool_decide as Hempty.
  - intros [= <-].
    destruct allProperties; [|done]. simpl. by intros [= <-].
  - destruct (weightedTotals _ _ _ _) as [totals|]; [|done]. simpl.
    destruct (findLatest _ _ _ _) as [latest|] eqn:Hlatest; [|done]. simpl.
    destruct (getLeases _ _ _) as [allLeases|]; [|done]. simpl.
    destruct (weightedLeaseTotals _ _ _ _ _) as [leaseTotals|]; [|done]. simpl.
    intros [= <-]. simpl.
    destruct (recentLoop _ _ _ _ _ _) as [result|] eqn:Hloop; [|done].
    intros [= <-].
    by apply (findLatest_head _ _ _ 5 _ _ _ ltac:(lia) Hloop Hlatest).
Qed.

End LatestAndRecent.


(** The regular user of the demonstration data, every property dated:
    the property of company B is both the latest and the first recent. *)
Lemma latest_is_first_recent_witness :
  ∃ stats recent,
    GET_api_dashboard_stats 3 datedDb (Some "u-user") = json stats ∧
    GET_api_dashboard_recent 3 datedDb (Some "u-user") = json recent ∧
    Property.id <$> recent = ["p-B"; "p-C"] ∧
    Stats.latestProperty stats = head recent.
Proof.
  eexists _, _. split; [vm_compute; reflexivity|].
  split; [vm_compute; reflexivity|]. split; [reflexivity|].
  apply (latest_is_first_recent 3 datedDb (Some "u-user")
           (demoUser "u-user" user (Some "A") weighted) "A");
    [reflexivity | reflexivity | reflexivity | reflexivity | discriminate
    | | | vm_compute; reflexivity | vm_compute; reflexivity].
  - intros p Hp _. unfold datedDb in Hp. simpl in Hp.
    repeat (apply elem_of_cons in Hp as [-> | Hp]);
      [..|by apply not_elem_of_nil in Hp]; simpl; by eauto.
  - apply (bool_decide_unpack _). vm_compute. exact I.
Defined.

(** ** Listing the relations *)

Section RelationListing.

Implicit Types (db : Database) (r : CompanyRelation.t).

Lemma elem_of_getCompanyRelations db organizationId r :
  r ∈ getCompanyRelations db organizationId ↔
  r ∈ companyRelations db ∧
  ∃ c, c ∈ companies db ∧
       Company.id c = CompanyRelation.parentCompanyId r ∧
       Company.organizationId c = organizationId.
Proof.
  unfold getCompanyRelations, relations_join_companies.
  rewrite list_elem_of_fmap. split.
  - intros (row & -> & Hrow).
    apply list_elem_of_bind in Hrow as (r & Hrow & Hr).
    apply list_elem_of_bind in Hrow as (c & Hrow & Hc).
    apply list_elem_of_singleton in Hrow as ->. simpl.
    apply list_elem_of_filter in Hc as [[? ?] ?]. eauto.
  - intros (Hr & c & Hc & Hid & Horg).
    exists {| company_relations := r; companies_row := c |}.
    split; [done|]. apply list_elem_of_bind. exists r. split; [|done].
    apply list_elem_of_bind. exists c. split; [by left|].
    by apply list_elem_of_filter.
Qed.

(** X23: with unique company ids and existing parents, a stored
    relation is listed by [GET /api/company-relations] for the users of
    one organization only, the one of its parent company; the
    organization of the child plays no part. *)
Theorem relation_listed_for_parent_organization db r :
  NoDup (Company.id <$> companies db) →
  parentsExist db →
  r ∈ companyRelations db →
  ∃ parent,
    parent ∈ companies db ∧
    Company.id parent = CompanyRelation.parentCompanyId r ∧
    ∀ session u,
      getCurrentUser db session = Some u →
      ∃ listed,
        GET_api_company_relations db session = json listed ∧
        (r ∈ listed ↔ User.organizationId u = Company.organizationId parent).
Proof.
  intros Hnd Hfk Hr.
  destruct (proj1 (list_elem_of_fmap _ _ _) (Hfk r Hr)) as (parent & Hid & Hin).
  exists parent. split_and!; [done..|].
  intros session u Hu. unfold GET_api_company_relations.
  rewrite (withUser_Some _ _ _ _ Hu). eexists. split; [done|].
  rewrite elem_of_getCompanyRelations. split.
  - intros (_ & c & Hc & Hcid & Horg).
    assert (c = parent) as -> by
      (apply (key_inj Company.id (companies db)); [done..|congruence]).
    done.
  - intros Horg. split; [done|]. by exists parent.
Qed.

End RelationListing.

(** ** The majority owner on the companies page *)

Section MajorityOwnerFacts.

Implicit Types (rel : CompanyRelation.t) (rows : list CompanyRelation.t).

Lemma foldl_higherShare rows first :
  foldl higherShare first rows ∈ first :: rows ∧
  ∀ rel, rel ∈ first :: rows →
         CompanyRelation.ownershipPercentage rel
         ≤ CompanyRelation.ownershipPercentage (foldl higherShare first rows).
Proof.
  revert first. induction rows as [|x rows IH]; intros first; simpl.
  - split; [left|]. by intros rel ->%list_elem_of_singleton.
  - destruct (IH (higherShare first x)) as [Hin Hmax].
    assert (CompanyRelation.ownershipPercentage first
            ≤ CompanyRelation.ownershipPercentage (higherShare first x) ∧
            CompanyRelation.ownershipPercentage x
            ≤ CompanyRelation.ownershipPercentage (higherShare first x) ∧
            (higherShare first x = first ∨ higherShare first x = x))
      as (Hfirst & Hx & Hcase).
    { unfold higherShare, Qgtb, parseFloat.
      destruct (Qle_bool _ _) eqn:Hle; simpl.
      - apply Qle_bool_iff in Hle. unfold Qle in Hle. simpl in Hle.
        split_and!; [lia | lia | by left].
      - assert (¬ (CompanyRelation.ownershipPercentage x # 100
                   <= CompanyRelation.ownershipPercentage first # 100)%Q)
          as Hgt by (rewrite <- Qle_bool_iff; congruence).
        unfold Qle in Hgt. simpl in Hgt. split_and!; [lia | lia | by right]. }
    split.
    + apply elem_of_cons in Hin as [Hin|Hin]; [|by right; right].
      rewrite Hin. destruct Hcase as [-> | ->]; [left | right; left].
    + intros rel [-> | [-> | Hrel]%elem_of_cons]%elem_of_cons.
      * etrans; [exact Hfirst|]. apply Hmax. left.
      * etrans; [exact Hx|]. apply Hmax. left.
      * apply Hmax. by right.
Qed.

Lemma sumHundredths_one rows a :
  Forall (λ rel, 0 ≤ CompanyRelation.ownershipPercentage rel) rows →
  0 ≤ sumHundredths rows ∧
  (a ∈ rows → CompanyRelation.ownershipPercentage a ≤ sumHundredths rows).
Proof.
  induction 1 as [|z rows Hz _ [Hsum IH]].
  - split; [done|]. by intros ?%not_elem_of_nil.
  - rewrite sumHundredths_cons. split; [lia|].
    intros [-> | Ha]%elem_of_cons; [lia|]. specialize (IH Ha). lia.
Qed.

Lemma sumHundredths_two rows a b :
  Forall (λ rel, 0 ≤ CompanyRelation.ownershipPercentage rel) rows →
  a ∈ rows → b ∈ rows → a ≠ b →
  CompanyRelation.ownershipPercentage a + CompanyRelation.ownershipPercentage b
  ≤ sumHundredths rows.
Proof.
  induction 1 as [|z rows Hz Hrows IH]; [by intros ?%not_elem_of_nil|].
  rewrite sumHundredths_cons.
  intros [-> | Ha]%elem_of_cons [-> | Hb]%elem_of_cons Hne; try done.
  - pose proof (proj2 (sumHundredths_one rows b Hrows) Hb). lia.
  - pose proof (proj2 (sumHundredths_one rows a Hrows) Ha). lia.
  - specialize (IH Ha Hb Hne). lia.
Qed.

(** X24: the owner that the companies page shows holds the largest
    share of the company among the relations it was given.  When it is
    shown as majority owner (above 50 %, no "largest" mark) and the
    shares of the company are not negative and sum to at most 100 %,
    every other relation into the company is below 50 %. *)
Theorem getMajorityOwner_largest relations companies companyId owner :
  getMajorityOwner relations companies companyId = Some owner →
  ∃ rel,
    rel ∈ relations ∧
    CompanyRelation.childCompanyId rel = companyId ∧
    MajorityOwner.percentage owner
    = parseFloat (CompanyRelation.ownershipPercentage rel) ∧
    (MajorityOwner.isLargest owner = false ↔
     5000 < CompanyRelation.ownershipPercentage rel) ∧
    (∀ other, other ∈ relations →
              CompanyRelation.childCompanyId other = companyId →
              CompanyRelation.ownershipPercentage other
              ≤ CompanyRelation.ownershipPercentage rel) ∧
    (MajorityOwner.isLargest owner = false →
     Forall (λ rel, 0 ≤ CompanyRelation.ownershipPercentage rel) relations →
     sumHundredths
       (filter (λ rel, CompanyRelation.childCompanyId rel = companyId) relations)
     ≤ 10000 →
     ∀ other, other ∈ relations →
              CompanyRelation.childCompanyId other = companyId →
              other ≠ rel →
              CompanyRelation.ownershipPercentage other < 5000).
Proof.
  unfold getMajorityOwner. case_bool_decide; [done|].
  destruct (filter _ relations) as [|first others] eqn:Hparents; [done|].
  intros [= <-]. simpl.
  destruct (foldl_higherShare others first) as [Hin Hmax].
  set (rel := foldl higherShare first others) in *.
  rewrite <- Hparents in Hin, Hmax.
  assert (MajorityOwner.isLargest
            (MajorityOwner.mk "" (parseFloat
               (CompanyRelation.ownershipPercentage rel))
               (negb (Qgtb (parseFloat
                  (CompanyRelation.ownershipPercentage rel)) 50))) = false
          ↔ 5000 < CompanyRelation.ownershipPercentage rel) as Hflag.
  { simpl. unfold Qgtb, parseFloat. rewrite negb_false_iff, negb_true_iff.
    rewrite <- not_true_iff_false, Qle_bool_iff. unfold Qle. simpl. lia. }
  simpl in Hflag.
  exists rel. apply list_elem_of_filter in Hin as [Hchild Hin].
  split_and!; [done..| |].
  - intros other Hother Hc. apply Hmax. by apply list_elem_of_filter.
  - intros Hmajor Hnn Hsum other Hother Hc Hne.
    apply Hflag in Hmajor.
    assert (CompanyRelation.ownershipPercentage rel
            + CompanyRelation.ownershipPercentage other
            ≤ sumHundredths (first :: others)) as Htwo.
    { rewrite <- Hparents. apply sumHundredths_two;
        [apply Forall_forall; intros x [_ Hx]%list_elem_of_filter;
         by apply (proj1 (Forall_forall _ _) Hnn)
        | by apply list_elem_of_filter
        | by apply list_elem_of_filter | congruence]. }
    assert (0 ≤ CompanyRelation.ownershipPercentage other)
      by (by apply (proj1 (Forall_forall _ _) Hnn)).
    lia.
Qed.

End MajorityOwnerFacts.

(** The relation between X and Y of the second organization is not
    listed for the administrator of the first one. *)
Lemma relation_listed_for_parent_organization_witness :
  ∃ listed,
    GET_api_company_relations crossOrgDb (Some "u1") = json listed ∧
    CompanyRelation.mk "rX" "X" "Y" 5000 ∉ listed.
Proof.
  destruct (relation_listed_for_parent_organization crossOrgDb
              (CompanyRelation.mk "rX" "X" "Y" 5000))
    as (parent & Hin & Hid & Hlisted).
  - apply (bool_decide_unpack _). by vm_compute.
  - intros r Hr. unfold crossOrgDb in Hr. simpl in Hr.
    apply list_elem_of_singleton in Hr as ->.
    apply (bool_decide_unpack _). by vm_compute.
  - left.
  - destruct (Hlisted (Some "u1") (User.mk "u1" "org1" admin None total) eq_refl)
      as (listed & Hget & Hiff).
    exists listed. split; [exact Hget|]. intros Hr%Hiff.
    unfold crossOrgDb in Hin. simpl in Hin, Hid.
    repeat (apply elem_of_cons in Hin as [-> | Hin]);
      [..|by apply not_elem_of_nil in Hin]; discriminate.
Defined.

(** Company C, owned 60 % by A and 40 % by B. *)
Lemma getMajorityOwner_largest_witness :
  getMajorityOwner (companyRelations boundDb)
    [CompanyCard.mk "A" "Alfa"; CompanyCard.mk "B" "Beta"] "C"
  = Some (MajorityOwner.mk "Alfa" (6000 # 100) false) ∧
  ∃ rel, rel ∈ companyRelations boundDb ∧
         CompanyRelation.childCompanyId rel = "C" ∧
         5000 < CompanyRelation.ownershipPercentage rel.
Proof.
  split; [reflexivity|].
  destruct (getMajorityOwner_largest (companyRelations boundDb)
              [CompanyCard.mk "A" "Alfa"; CompanyCard.mk "B" "Beta"] "C"
              (MajorityOwner.mk "Alfa" (6000 # 100) false) eq_refl)
    as (rel & Hin & Hchild & _ & Hflag & _).
  exists rel. split_and!; [exact Hin | exact Hchild | by apply Hflag].
Defined.

(** ** Setup *)

Section Setup.

Implicit Types (db : Database) (u : User.t).

(** X25: [POST /api/setup] does not create an administrator.  The
    first user of the new organization has the role "user" and no
    company: the organization has no administrator, the property list
    of the new user is empty, and [PUT /api/users/:id] refuses the user
    whatever the request. *)
Theorem setup_creates_no_administrator db newOrganizationId newUserId :
  newUserId ≠ "" →
  (∀ u, u ∈ users db →
        User.organizationId u ≠ newOrganizationId ∧ User.id u ≠ newUserId) →
  ∃ db' u,
    POST_api_setup db newOrganizationId newUserId
    = (json true, db', Some newUserId) ∧
    getCurrentUser db' (Some newUserId) = Some u ∧
    User.role u = user ∧
    User.organizationId u = newOrganizationId ∧
    ¬ hasAdmin db' newOrganizationId ∧
    GET_api_properties db' (Some newUserId) = json [] ∧
    ∀ targetUserId role assignedCompanyId,
      PUT_api_users db' (Some newUserId) targetUserId role assignedCompanyId
      = (status 403 "Kun administratorer kan redigere brugere", db').
Proof.
  intros Hid Hfresh.
  set (u := User.mk newUserId newOrganizationId user None weighted).
  set (db' := setUsers db (users db ++ [u])).
  assert (truthy (Some newUserId) = true) as Htruthy
    by (by apply truthy_Some_true).
  assert (getUser db' newUserId = Some u) as Hget.
  { unfold getUser, db'. simpl. rewrite filter_app.
    rewrite (filter_none _ (users db)) by (intros x Hx; by apply Hfresh).
    simpl. rewrite filter_cons_True by done. done. }
  assert (getCurrentUser db' (Some newUserId) = Some u) as Hu.
  { unfold getCurrentUser. rewrite Htruthy. simpl. exact Hget. }
  exists db', u. split_and!; [done..| | |].
  - intros (a & Ha & Hrole & Horg). unfold db' in Ha. simpl in Ha.
    apply elem_of_app in Ha as [Ha | ->%list_elem_of_singleton]; [|done].
    by destruct (Hfresh a Ha).
  - unfold GET_api_properties. rewrite (withUser_Some _ _ _ _ Hu).
    rewrite (listingUserId_user u eq_refl).
    by rewrite (getProperties_unassigned db' _ u Hget Htruthy eq_refl).
  - intros targetUserId role assignedCompanyId. unfold PUT_api_users.
    rewrite Htruthy, Hu. simpl. done.
Qed.

End Setup.

(** A second organization is set up beside the demonstration data. *)
Lemma setup_creates_no_administrator_witness :
  ∃ db' u,
    POST_api_setup demoDb "org2" "u-new" = (json true, db', Some "u-new") ∧
    getCurrentUser db' (Some "u-new") = Some u ∧
    User.role u = user ∧
    ¬ hasAdmin db' "org2".
Proof.
  destruct (setup_creates_no_administrator demoDb "org2" "u-new")
    as (db' & u & Hsetup & Hu & Hrole & _ & Hnone & _).
  - discriminate.
  - intros u Hu. unfold demoDb in Hu. simpl in Hu.
    repeat (apply elem_of_cons in Hu as [-> | Hu]);
      [..|by apply not_elem_of_nil in Hu]; by split.
  - exists db', u. split_and!; [exact Hsetup | exact Hu | exact Hrole | exact Hnone].
Defined.

(** ** The weights of Algorithm B on an acyclic graph *)

Lemma foldl_option_mono {A B} (f g : A → B → option A) (l : list B) (a r : A) :
  (∀ a b a', b ∈ l → f a b = Some a' → g a b = Some a') →
  foldl (λ acc b, acc ≫= λ a, f a b) (Some a) l = Some r →
  foldl (λ acc b, acc ≫= λ a, g a b) (Some a) l = Some r.
Proof.
  revert a. induction l as [|b l IH]; intros a Hmono; simpl; [done|].
  destruct (f a b) as [a'|] eqn:Hf; [|by rewrite foldl_option_None].
  rewrite (Hmono a b a') by (done || left).
  apply IH. intros ????. apply Hmono. by right.
Qed.

(** A result does not depend on the depth that was available. *)
Lemma calculateOwnershipFromRoot_deeper depth relations root target w :
  calculateOwnershipFromRoot depth root target relations = Some w →
  calculateOwnershipFromRoot (S depth) root target relations = Some w.
Proof.
  revert root w. induction depth as [|depth IH]; intros root w Hrun;
    rewrite calculateOwnershipFromRoot_unfold in Hrun |- *;
    (destruct (String.eqb root target); [done|]);
    revert Hrun;
    match goal with
    | |- foldl ?f _ ?l = _ → foldl ?g _ _ = _ =>
        apply (foldl_option_mono (λ a b, f (Some a) b) (λ a b, g (Some a) b))
    end;
    intros a b a' _; cbv beta iota;
    (destruct (String.eqb _ target); [done|]); [done|].
  destruct (calculateOwnershipFromRoot depth _ target relations)
    as [indirect|] eqn:Hind; [|done].
  by rewrite (IH _ _ Hind).
Qed.

Lemma calculateOwnershipFromRoot_depth_le depth depth' relations root target w :
  (depth ≤ depth')%nat →
  calculateOwnershipFromRoot depth root target relations = Some w →
  calculateOwnershipFromRoot depth' root target relations = Some w.
Proof.
  induction 1 as [|depth' _ IH]; [done|].
  intros Hrun. by apply calculateOwnershipFromRoot_deeper, IH.
Qed.

Section WeightBound.

Variable rank : string → nat.
Variable relations : list RelationRow.
Hypothesis Hacyclic : acyclicBy rank relations.

Lemma calculateOwnershipFromRoot_weightAt depth root target :
  (rank root ≤ depth)%nat →
  calculateOwnershipFromRoot depth root target relations
  = Some (weightAt rank relations root target).
Proof.
  intros Hdepth.
  destruct (calculateOwnershipFromRoot_total rank (rank root) relations
              root target Hacyclic (le_n _)) as [w Hw].
  unfold weightAt, weightFromRootTo. rewrite Hw. simpl.
  by apply (calculateOwnershipFromRoot_depth_le (rank root)).
Qed.

Lemma returned_weightAt root target depth w :
  calculateOwnershipFromRoot depth root target relations = Some w →
  w = weightAt rank relations root target.
Proof.
  intros Hrun. destruct (Nat.le_ge_cases depth (rank root)) as [Hle|Hle].
  - unfold weightAt, weightFromRootTo.
    by rewrite (calculateOwnershipFromRoot_depth_le _ _ _ _ _ _ Hle Hrun).
  - rewrite (calculateOwnershipFromRoot_weightAt depth root target Hle) in Hrun.
    by injection Hrun.
Qed.

Lemma weightAt_self x : weightAt rank relations x x = 1%float.
Proof.
  unfold weightAt, weightFromRootTo.
  by rewrite calculateOwnershipFromRoot_self.
Qed.

(** A left fold whose steps all succeed is the fold of their results. *)
Lemma foldl_option_pure {A B} (f : A → B → option A) (g : A → B → A)
    (l : list B) (a : A) :
  (∀ a b, b ∈ l → f a b = Some (g a b)) →
  foldl (λ acc b, acc ≫= λ a, f a b) (Some a) l = Some (foldl g a l).
Proof.
  revert a. induction l as [|b l IH]; intros a Hstep; simpl; [done|].
  rewrite Hstep by left. apply IH. intros ???. apply Hstep. by right.
Qed.

(** The recursion of the code, freed from the call depth: the weight of
    another company is the sum, added in doubles from 0 in the order of
    the relations out of the root, of the share of the relation when it
    leads to the target, and else of the share times the weight from
    the child. *)
Lemma calculateOwnershipFromRoot_recursion depth root target :
  root ≠ target →
  (rank root ≤ depth)%nat →
  calculateOwnershipFromRoot depth root target relations
  = Some (foldl (λ total r,
                   if String.eqb
                        (CompanyRelation.childCompanyId (company_relations r))
                        target
                   then (total + share r)%float
                   else (total
                         + share r
                           * weightAt rank relations
                               (CompanyRelation.childCompanyId
                                  (company_relations r)) target)%float)
            0%float (outgoing relations root)).
Proof.
  intros Hne Hdepth.
  rewrite calculateOwnershipFromRoot_unfold,
    (proj2 (String.eqb_neq _ _) Hne).
  unfold outgoing.
  match goal with
  | |- foldl ?step (Some ?a) ?l = Some (foldl ?g _ _) =>
      apply (foldl_option_pure (λ total r, step (Some total) r) g l a)
  end.
  intros total r [Hp Hr]%list_elem_of_filter. simpl.
  destruct (String.eqb _ target); [done|].
  pose proof (Hacyclic r Hr) as Hlt. rewrite Hp in Hlt.
  destruct depth as [|depth]; [lia|].
  by rewrite (calculateOwnershipFromRoot_weightAt depth _ target) by lia.
Qed.

End WeightBound.

Lemma scenario1_acyclic : acyclicBy demoRank scenario1.
Proof.
  intros r Hr. unfold scenario1 in Hr.
  repeat (apply elem_of_cons in Hr as [-> | Hr]);
    [..|by apply not_elem_of_nil in Hr]; vm_compute; lia.
Qed.

(** ** Algorithm B without cycles *)

(** X28: on a relation list without a cycle Algorithm B returns: every
    call that may nest as deep as the rank of the root gives a weight,
    and whatever depth a call ran at, a returned weight is that one. *)
Theorem weight_defined_on_acyclic rank relations root target :
  acyclicBy rank relations →
  ∃ w,
    (∀ depth, (rank root ≤ depth)%nat →
              calculateOwnershipFromRoot depth root target relations = Some w) ∧
    (∀ depth w',
        calculateOwnershipFromRoot depth root target relations = Some w' →
        w' = w).
Proof.
  intros Hacyclic. exists (weightAt rank relations root target). split.
  - intros depth. by apply calculateOwnershipFromRoot_weightAt.
  - intros depth w' Hrun. by apply (returned_weightAt rank relations Hacyclic
                                      root target depth).
Qed.

Lemma weight_defined_on_acyclic_witness :
  ∃ w,
    (∀ depth, (demoRank "A" ≤ depth)%nat →
              calculateOwnershipFromRoot depth "A" "C" scenario1 = Some w) ∧
    (∀ depth w',
        calculateOwnershipFromRoot depth "A" "C" scenario1 = Some w' → w' = w).
Proof. exact (weight_defined_on_acyclic demoRank scenario1 "A" "C"
                scenario1_acyclic). Defined.

(** ** The claim on Algorithm B *)

Lemma sumQ_app (a b : list Q) : (sumQ (a ++ b) == sumQ a + sumQ b)%Q.
Proof.
  unfold sumQ. induction a as [|x a IH]; simpl.
  - by rewrite Qplus_0_l.
  - rewrite IH. apply Qplus_assoc.
Qed.

Lemma sumQ_pathProduct_cons r (paths : list (list RelationRow)) :
  (sumQ (pathProduct <$> ((λ path, r :: path) <$> paths))
   == exactShare r * sumQ (pathProduct <$> paths))%Q.
Proof.
  unfold sumQ. induction paths as [|path paths IH]; simpl.
  - ring.
  - rewrite IH. symmetry. apply Qmult_plus_distr_r.
Qed.

(** The sum over all paths, in exact arithmetic, by the first edge. *)
Lemma sumOverPaths_recursion n relations root target :
  root ≠ target →
  (sumOverPaths (S n) relations root target
   == sumQ ((λ r, exactShare r
                  * sumOverPaths n relations
                      (CompanyRelation.childCompanyId (company_relations r))
                      target)
              <$> outgoing relations root))%Q.
Proof.
  intros Hne. unfold sumOverPaths. simpl.
  rewrite (proj2 (String.eqb_neq _ _) Hne).
  induction (outgoing relations root) as [|r rows IH]; [done|].
  rewrite bind_cons, !fmap_app, sumQ_app, sumQ_pathProduct_cons, IH.
  reflexivity.
Qed.

(** C2 (as stated, the sum over all paths of the products of the
    shares).  On the chain A -1%-> B -1%-> C -3%-> D a single path leads
    from A to D.  The product of its shares is 0.000003, the double
    nearest to it is 3e-06, and so is the product of the three shares
    multiplied as doubles along the path; Algorithm B, which multiplies
    from the far end, returns 2.9999999999999997e-06.  And with C owned
    0.06 % by A, 99.93 % by B and 0.01 % by D, A owning B and D
    entirely, three paths lead from A to C and the sum over them is
    exactly 1; Algorithm B returns 1.0000000000000002. *)
Lemma C2_exact_sum_counterexample :
  (pathsFromRootTo 3 percentChain "A" "D" = [percentChain] ∧
   (sumOverPaths 3 percentChain "A" "D" == 3 # 1000000)%Q ∧
   Double.ofRatio 3 1000000 = 3e-06%float ∧
   foldl (λ product r, (product * share r)%float) 1%float percentChain
   = 3e-06%float ∧
   calculateOwnershipFromRoot 2 "A" "D" percentChain
   = Some 2.9999999999999997e-06%float) ∧
  (length (pathsFromRootTo 3 splitRelations "A" "C") = 3%nat ∧
   (sumOverPaths 3 splitRelations "A" "C" == 1)%Q ∧
   calculateOwnershipFromRoot 1 "A" "C" splitRelations
   = Some 1.0000000000000002%float ∧
   Double.gtb 1.0000000000000002 1 = true).
Proof. split; split_and!; by vm_compute. Qed.

(** C2 (amended): the weight of a company in itself is exactly 1 for
    every relation list and at every call depth.  On a relation list
    without a cycle, and at a call depth of at least the rank of the
    root, the weight of another company is the sum over the relations
    out of the root, added in doubles from 0 and in the order of the
    list, of the share of a relation that leads to the target and of
    the share times the weight from the child for every other one.
    The sum over all paths of the products of the shares obeys the same
    recursion in exact arithmetic, so that the weight is that sum with
    each quotient, product and sum rounded to a double on the way.  On
    the chain
    A -60%-> B -50%-> C the weight of C from A is 0.3; with A -60%-> C,
    A -40%-> B -100%-> C it is 1. *)
Theorem C2_weight_sum_over_paths :
  (∀ depth X relations,
      calculateOwnershipFromRoot depth X X relations = Some 1%float) ∧
  (∀ rank relations root target depth,
      acyclicBy rank relations →
      root ≠ target →
      (rank root ≤ depth)%nat →
      calculateOwnershipFromRoot depth root target relations
      = Some (foldl (λ total r,
                       if String.eqb
                            (CompanyRelation.childCompanyId
                               (company_relations r)) target
                       then (total + share r)%float
                       else (total
                             + share r
                               * weightAt rank relations
                                   (CompanyRelation.childCompanyId
                                      (company_relations r)) target)%float)
                0%float (outgoing relations root))) ∧
  (∀ n relations root target,
      sumOverPaths n relations target target = 1%Q ∧
      (root ≠ target →
       (sumOverPaths (S n) relations root target
        == sumQ ((λ r, exactShare r
                       * sumOverPaths n relations
                           (CompanyRelation.childCompanyId
                              (company_relations r)) target)
                   <$> outgoing relations root))%Q)) ∧
  (∀ depth,
      calculateOwnershipFromRoot (S depth) "A" "C" scenario1
      = Some 0.3%float) ∧
  (∀ depth,
      calculateOwnershipFromRoot (S depth) "A" "C" scenario2
      = Some 1%float).
Proof.
  split; [exact calculateOwnershipFromRoot_self|].
  split; [intros rank relations root target depth Hacyclic;
          by apply calculateOwnershipFromRoot_recursion|].
  split.
  { intros n relations root target. split.
    - unfold sumOverPaths. destruct n; simpl; by rewrite String.eqb_refl.
    - apply sumOverPaths_recursion. }
  split; intros depth; destruct depth; by vm_compute.
Qed.

(** The recursion at the chain of scenario 1. *)
Lemma C2_weight_sum_over_paths_witness :
  calculateOwnershipFromRoot 2 "A" "C" scenario1
  = Some (foldl (λ total r,
                   if String.eqb
                        (CompanyRelation.childCompanyId (company_relations r))
                        "C"
                   then (total + share r)%float
                   else (total
                         + share r
                           * weightAt demoRank scenario1
                               (CompanyRelation.childCompanyId
                                  (company_relations r)) "C")%float)
            0%float (outgoing scenario1 "A")).
Proof.
  apply (proj1 (proj2 C2_weight_sum_over_paths) demoRank scenario1 "A" "C"
           2%nat scenario1_acyclic); [discriminate | vm_compute; lia].
Defined.
